(** * openprm: spatial representations of the sampling-based planners

    A shallow embedding of [utils/spatialrep.h] (SpatialGraph, SpatialTree)
    and of the tree planner of [planners/sblplanner.h], followed by the
    properties of the specification that concern them.

    Conventions of the embedding.
    - [dReal] (a C++ floating-point type) is modelled by the rationals [Q];
      rounding, infinities and NaN are outside the model.
    - [s_vertex] (the [vecS] vertex descriptor, a [size_t]) is a [nat];
      [int] values are [Z], without overflow.
    - A [std::vector] indexed by position is a [list] read with [!!] and
      written with [<[i:=x]>]; reads and writes out of range are undefined
      in C++, here a read yields a default and a write does nothing.
    - Loops that need not terminate take a [fuel] argument and return
      [None] when it runs out. *)

From Stdlib Require Import ZArith QArith Qabs Lia Lqa.
From stdpp Require Import base option list relations.

Local Open Scope nat_scope.

(** ** Configurations and the distance metric *)

Abbreviation dReal := Q.
Abbreviation config := (list Q).
Abbreviation s_cost := Q.
Abbreviation s_vertex := nat.

(** [DistMetric::Eval] is declared in [oputils.h], which is not part of the
    sources at hand: the metric is an interface the development is
    parametrised by. *)
Class DistMetric := { DistMetric_Eval : config -> config -> dReal }.

(** [a > b] on [dReal]. *)
Definition Qgt_bool (a b : Q) : bool := negb (Qle_bool a b).

(** ** Exceptions and partial executions

    [Throw] records a C++ exception leaving the function; [None] at the
    outer level is an execution that did not finish within its fuel. *)

Inductive exn :=
  | bad_function_call | bad_weak_ptr | out_of_range
  | negative_edge | found_goal.

Inductive outcome (A : Type) :=
  | Return (a : A)
  | Throw (e : exn).
Arguments Return {A} a.
Arguments Throw {A} e.

Definition run (A : Type) := option (outcome A).

Definition run_bind {A B} (m : run A) (k : A -> run B) : run B :=
  match m with
  | None => None
  | Some (Throw e) => Some (Throw e)
  | Some (Return a) => k a
  end.

Notation "'do' x <- m ; k" := (run_bind m (fun x => k))
  (at level 10, x pattern, m at level 100, k at level 200).

Definition ret {A} (a : A) : run A := Some (Return a).
Definition throw {A} (e : exn) : run A := Some (Throw e).
Definition lift {A} (o : outcome A) : run A := Some o.

(** ** The boost graph [s_graph]

    [adjacency_list<listS, vecS, undirectedS, no_property,
    property<edge_weight_t, s_cost>>]: a vector of vertices, each with the
    list of its out-edges in insertion order. An undirected edge appears in
    the out-edge lists of both its endpoints; its weight is written once,
    right after the insertion, so it is stored with both entries. *)

Abbreviation s_graph := (list (list (nat * Q))).

Definition num_vertices (g : s_graph) : nat := length g.

(** [boost::add_vertex]: the new descriptor is the old vertex count. *)
Definition add_vertex (g : s_graph) : s_vertex * s_graph :=
  (length g, g ++ [[]]).

Definition out_edges (v : s_vertex) (g : s_graph) : list (s_vertex * s_cost) :=
  default [] (g !! v).

Definition adjacent_vertices (v : s_vertex) (g : s_graph) : list s_vertex :=
  (out_edges v g).*1.

(** [boost::add_edge] followed by the write of the weight. With [vecS]
    vertices the vertex vector is first grown to hold both endpoints; with
    [listS] out-edge lists parallel edges are allowed, so the insertion
    always reports [inserted = true]. *)
Definition add_edge (u v : s_vertex) (w : s_cost) (g : s_graph) : s_graph * bool :=
  let g0 := g ++ replicate (S (u `max` v) - length g) [] in
  let g1 := <[u := out_edges u g0 ++ [(v, w)]]> g0 in
  let g2 := <[v := out_edges v g1 ++ [(u, w)]]> g1 in
  (g2, true).

(** ** SpatialGraph *)

Record s_node := mk_s_node { nconfig : config; vertex : s_vertex }.

(** [s_node() {}]: an empty configuration; the vertex field is left
    uninitialised by the constructor and nothing below reads it. *)
Definition s_node_default : s_node := mk_s_node [] 0.

Record SpatialGraph := mk_SpatialGraph {
  max_nodes : Z;               (* unsigned int *)
  neigh_thresh : dReal;
  node_list : list s_node;
  p_graph : s_graph
}.

Definition DMAXNODES : Z := 100.
Definition DNTHRESH : dReal := 5%Q.

(** Conversion of an [int] to [unsigned int]. *)
Definition to_unsigned (z : Z) : Z := (z mod 2 ^ 32)%Z.

(** [SpatialGraph()]: [s_graph g;] has no vertex. *)
Definition SpatialGraph_default : SpatialGraph :=
  {| max_nodes := DMAXNODES; neigh_thresh := DNTHRESH;
     node_list := []; p_graph := [] |}.

(** [SpatialGraph(int m_nodes, dReal n_thresh)]: [s_graph g(max_nodes);]
    constructs a graph that already has [max_nodes] vertices. *)
Definition SpatialGraph_sized (m_nodes : Z) (n_thresh : dReal) : SpatialGraph :=
  {| max_nodes := to_unsigned m_nodes; neigh_thresh := n_thresh;
     node_list := [];
     p_graph := replicate (Z.to_nat (to_unsigned m_nodes)) [] |}.

Definition addNode (G : SpatialGraph) (conf : config) : s_vertex * SpatialGraph :=
  let '(v, g) := add_vertex (p_graph G) in
  (v, {| max_nodes := max_nodes G; neigh_thresh := neigh_thresh G;
         node_list := node_list G ++ [mk_s_node conf v];
         p_graph := g |}).

Definition getNodes (G : SpatialGraph) : Z := Z.of_nat (length (node_list G)).

(** The scan does not stop at the first match: the last node carrying the
    handle wins, and the default node is returned when there is none. *)
Definition getNode (G : SpatialGraph) (v : s_vertex) : s_node :=
  foldl (fun n it => if decide (vertex it = v) then it else n)
        s_node_default (node_list G).

Definition edgeExists (G : SpatialGraph) (u v : s_vertex) : bool :=
  if decide (u = v) then true
  else existsb (Nat.eqb u) (adjacent_vertices v (p_graph G)).

Definition addEdge `{DistMetric} (G : SpatialGraph) (u v : s_vertex)
  : bool * SpatialGraph :=
  if edgeExists G u v || bool_decide (u = v) then (false, G)
  else
    let nu := getNode G u in
    let nv := getNode G v in
    let dist := DistMetric_Eval (nconfig nu) (nconfig nv) in
    if Qgt_bool dist (neigh_thresh G) then (false, G)
    else
      let '(g, inserted) := add_edge u v dist (p_graph G) in
      if negb inserted then (false, G)
      else (true, {| max_nodes := max_nodes G; neigh_thresh := neigh_thresh G;
                     node_list := node_list G; p_graph := g |}).

(** The body of the loop of [findNN] over [node_list]. *)
Definition findNN_step `{DistMetric} (G : SpatialGraph) (n : s_vertex) (nn : s_node)
    (s_neighbors : list s_node) (it : s_node) : list s_node :=
  if edgeExists G n (vertex it) then s_neighbors
  else if Qle_bool (DistMetric_Eval (nconfig nn) (nconfig it)) (neigh_thresh G)
       then s_neighbors ++ [it]
       else s_neighbors.

(** [findNN]: the count returned and the final content of [s_neighbors]. *)
Definition findNN `{DistMetric} (G : SpatialGraph) (n : s_vertex)
    (s_neighbors : list s_node) : Z * list s_node :=
  if decide (length (node_list G) <= 1) then (0%Z, s_neighbors)
  else if decide (length (node_list G) < n) then (0%Z, s_neighbors)
  else
    let nn := getNode G n in
    let out := foldl (findNN_step G n nn) [] (node_list G) in
    (Z.of_nat (length out), out).

(** ** Graph search

    [boost::dijkstra_shortest_paths] and [boost::astar_search] belong to the
    Boost Graph Library. They are modelled on the algorithm the library
    documents: a best-first visit over three vertex colours, with the
    distance, cost and predecessor maps the caller passes. The callers
    below pass a [std::vector<int>] as distance map, so distances are
    [int]: [inf] is the largest [int], edge weights and heuristic values are
    truncated when they are combined with a distance ([closed_plus<int>]).
    The queue yields a gray vertex whose key is minimal; among equal keys
    the model takes the smallest descriptor. *)

Inductive Color := white | gray | black.

Global Instance Color_eq_dec : EqDecision Color.
Proof. solve_decision. Defined.

Record search_maps := mk_search_maps {
  m_color : list Color;
  m_distance : list Z;
  m_cost : list Z;
  m_predecessor : list nat
}.

Definition int_max : Z := 2147483647.

(** Conversion of a [dReal] to [int]: truncation toward zero. *)
Definition to_int (x : dReal) : Z := (Qnum x ÷ Zpos (Qden x))%Z.

Definition closed_plus (a b : Z) : Z :=
  if (a =? int_max)%Z then int_max
  else if (b =? int_max)%Z then int_max
  else (a + b)%Z.

Definition color_of (st : search_maps) (v : s_vertex) : Color :=
  default white (m_color st !! v).
Definition distance_of (st : search_maps) (v : s_vertex) : Z :=
  default 0%Z (m_distance st !! v).
Definition pred_of (p : list nat) (v : s_vertex) : s_vertex :=
  default 0 (p !! v).

Definition set_color (st : search_maps) (v : s_vertex) (c : Color) : search_maps :=
  {| m_color := <[v := c]> (m_color st); m_distance := m_distance st;
     m_cost := m_cost st; m_predecessor := m_predecessor st |}.

Definition set_cost (st : search_maps) (v : s_vertex) (c : Z) : search_maps :=
  {| m_color := m_color st; m_distance := m_distance st;
     m_cost := <[v := c]> (m_cost st); m_predecessor := m_predecessor st |}.

(** [relax(e, g, w, p, d, combine, compare)] on the edge [(u, v)] of weight
    [w]: whether the distance of [v] decreased. *)
Definition relax (u v : s_vertex) (w : s_cost) (st : search_maps)
  : bool * search_maps :=
  let d_uv := closed_plus (distance_of st u) (to_int w) in
  if (d_uv <? distance_of st v)%Z
  then (true, {| m_color := m_color st;
                 m_distance := <[v := d_uv]> (m_distance st);
                 m_cost := m_cost st;
                 m_predecessor := <[v := u]> (m_predecessor st) |})
  else (false, st).

(** The visitor's part on one out-edge [(u, v)]. [h] is [None] for the
    Dijkstra visitor and the heuristic for the A* visitor, which also
    maintains the cost map and reopens black vertices. *)
Definition examine_edge (h : option (s_vertex -> dReal)) (u : s_vertex)
    (e : s_vertex * s_cost) (st : search_maps) : outcome search_maps :=
  let '(v, w) := e in
  if (to_int w <? 0)%Z then Throw negative_edge
  else
    let recost (st : search_maps) :=
      match h with
      | Some h => set_cost st v (closed_plus (distance_of st v) (to_int (h v)))
      | None => st
      end in
    match color_of st v with
    | white =>
      let '(decreased, st) := relax u v w st in
      Return (set_color (if decreased then recost st else st) v gray)
    | gray =>
      let '(decreased, st) := relax u v w st in
      Return (if decreased then recost st else st)
    | black =>
      match h with
      | None => Return st
      | Some _ =>
        let '(decreased, st) := relax u v w st in
        Return (if decreased then set_color (recost st) v gray else st)
      end
    end.

(** The loop over the out-edges of [u]; the maps keep what was written
    before an exception. *)
Fixpoint examine_edges (h : option (s_vertex -> dReal)) (u : s_vertex)
    (es : list (s_vertex * s_cost)) (st : search_maps) : option exn * search_maps :=
  match es with
  | [] => (None, st)
  | e :: es =>
    match examine_edge h u e st with
    | Throw x => (Some x, st)
    | Return st => examine_edges h u es st
    end
  end.

(** The top of the queue: a gray vertex of minimal key. *)
Definition top (key : list Z) (color : list Color) : option s_vertex :=
  foldl (fun best v =>
           match color !! v with
           | Some gray =>
             match best with
             | None => Some v
             | Some b =>
               if (default 0 (key !! v) <? default 0 (key !! b))%Z
               then Some v else best
             end
           | _ => best
           end) None (seq 0 (length color)).

Definition init_maps (n : nat) (s : s_vertex) (h_s : Z) : search_maps :=
  {| m_color := <[s := gray]> (replicate n white);
     m_distance := <[s := 0%Z]> (replicate n int_max);
     m_cost := <[s := h_s]> (replicate n int_max);
     m_predecessor := seq 0 n |}.

Fixpoint dijkstra_loop (fuel : nat) (g : s_graph) (st : search_maps)
  : option (option exn * search_maps) :=
  match top (m_distance st) (m_color st) with
  | None => Some (None, st)
  | Some u =>
    match fuel with
    | O => None
    | S fuel =>
      match examine_edges None u (out_edges u g) st with
      | (Some x, st) => Some (Some x, st)
      | (None, st) => dijkstra_loop fuel g (set_color st u black)
      end
    end
  end.

Definition dijkstra_shortest_paths (fuel : nat) (g : s_graph) (s : s_vertex)
  : option (option exn * search_maps) :=
  dijkstra_loop fuel g (init_maps (num_vertices g) s 0).

(** [astar_goal_visitor::examine_vertex] throws [found_goal] when the vertex
    taken from the queue is the goal. *)
Fixpoint astar_loop (fuel : nat) (g : s_graph) (h : s_vertex -> dReal)
    (m_goal : s_vertex) (st : search_maps) : option (option exn * search_maps) :=
  match top (m_cost st) (m_color st) with
  | None => Some (None, st)
  | Some u =>
    match fuel with
    | O => None
    | S fuel =>
      if decide (u = m_goal) then Some (Some found_goal, st)
      else
        match examine_edges (Some h) u (out_edges u g) st with
        | (Some x, st) => Some (Some x, st)
        | (None, st) => astar_loop fuel g h m_goal (set_color st u black)
        end
    end
  end.

Definition astar_search (fuel : nat) (g : s_graph) (s : s_vertex)
    (h : s_vertex -> dReal) (m_goal : s_vertex)
  : option (option exn * search_maps) :=
  astar_loop fuel g h m_goal (init_maps (num_vertices g) s (to_int (h s))).

(** The [do ... while (child != p[child])] loop of [findPathDK]. *)
Fixpoint walkDK (fuel : nat) (G : SpatialGraph) (p : list nat) (child : s_vertex)
    (s_path : list s_node) : option (s_vertex * list s_node) :=
  match fuel with
  | O => None
  | S fuel =>
    let s_path := getNode G child :: s_path in
    let child := pred_of p child in
    if decide (child <> pred_of p child) then walkDK fuel G p child s_path
    else Some (child, s_path)
  end.

(** [findPathDK(f, t, s_path)]: the outcome of the call and the final
    content of [s_path], which belongs to the caller. *)
Definition findPathDK (fuel : nat) (G : SpatialGraph) (f t : s_node)
    (s_path : list s_node) : option (outcome bool * list s_node) :=
  let start := vertex f in
  match dijkstra_shortest_paths fuel (p_graph G) start with
  | None => None
  | Some (Some x, _) => Some (Throw x, s_path)
  | Some (None, st) =>
    match walkDK fuel G (m_predecessor st) (vertex t) s_path with
    | None => None
    | Some (child, s_path) =>
      if decide (child = vertex f) then Some (Return false, s_path)
      else Some (Return true, f :: s_path)
    end
  end.

(** [distance_heuristic]: [m_node] is the copy of [node_list], indexed by
    position. *)
Definition distance_heuristic `{DistMetric} (m_node : list s_node)
    (m_goal : s_vertex) (u : s_vertex) : dReal :=
  DistMetric_Eval (nconfig (default s_node_default (m_node !! m_goal)))
                  (nconfig (default s_node_default (m_node !! u))).

(** The [for (v = goal;; v = p[v])] loop of the [catch] block of
    [findPathAS]. *)
Fixpoint walkAS (fuel : nat) (G : SpatialGraph) (p : list nat) (v : s_vertex)
    (s_path : list s_node) : option (list s_node) :=
  match fuel with
  | O => None
  | S fuel =>
    let s_path := getNode G v :: s_path in
    if decide (pred_of p v = v) then Some s_path
    else walkAS fuel G p (pred_of p v) s_path
  end.

Definition findPathAS `{DistMetric} (fuel : nat) (G : SpatialGraph) (f t : s_node)
    (s_path : list s_node) : option (outcome bool * list s_node) :=
  let start := vertex f in
  let goal := vertex t in
  let node_map := node_list G in
  match astar_search fuel (p_graph G) start (distance_heuristic node_map goal) goal with
  | None => None
  | Some (Some found_goal, st) =>
    match walkAS fuel G (m_predecessor st) goal s_path with
    | None => None
    | Some s_path => Some (Return true, s_path)
    end
  | Some (Some x, _) => Some (Throw x, s_path)
  | Some (None, _) => Some (Return true, s_path)
  end.

(** ** The roadmap planner's search ([ClassicPRM::findPath]) *)

Definition findPath `{DistMetric} (fuel : nat) (g_roadmap : SpatialGraph)
    (n_start n_goal : s_node) (l_pathnodes : list s_node)
  : option (outcome bool * list s_node) :=
  match findPathAS fuel g_roadmap n_start n_goal l_pathnodes with
  | None => None
  | Some (Throw x, l) => Some (Throw x, l)
  | Some (Return true, l) => Some (Return true, l)
  | Some (Return false, l) =>
    match findPathDK fuel g_roadmap n_start n_goal l with
    | None => None
    | Some (Throw x, l) => Some (Throw x, l)
    | Some (Return true, l) => Some (Return true, l)
    | Some (Return false, l) => Some (Return false, l)
    end
  end.

(** ** SpatialTree *)

Inductive ExtendType := ET_Failed | ET_Sucess | ET_Connected.

Record t_node := mk_t_node { parent : Z; q : config }.

(** The part of the planner parameters ([PRMParams], declared in
    [prmparams.h], outside the sources at hand) that the tree and the tree
    planner read. [_diffstatefn a b] is the value left in [a] by the call;
    [_constraintfn] is optional, and [c prev new] is the boolean returned
    together with the value left in [new]. [_setstatefn] only moves the
    robot and is not represented. *)
Record PlannerParameters := mk_PlannerParameters {
  vinitialconfig : config;
  vgoalconfig : config;
  GetDOF : Z;
  _diffstatefn : config -> config -> config;
  _constraintfn : option (config -> config -> bool * config)
}.

(** [CollisionFunctions::CheckCollision(params, robot, q0, q1, IT_OpenStart)],
    the external collision oracle: [true] when the segment is rejected. The
    robot and its environment are fixed during a planning call. *)
Class CollisionFunctions :=
  { CheckCollision : PlannerParameters -> config -> config -> bool }.

(** [_distmetricfn] is a [boost::function], empty until assigned; [_planner]
    is a weak pointer to the planner, of which [Extend] uses the parameters
    and the robot. *)
Record SpatialTree := mk_SpatialTree {
  _nodes : list t_node;
  _distmetricfn : option (config -> config -> dReal);
  _fBestDist : dReal;
  _fStepLength : dReal;
  _vNewConfig : config;
  _planner : option PlannerParameters;
  _dof : Z
}.

(** The step length the constructor stores: the value of the [float]
    literal [0.04f], that is 10737418 / 2^28. *)
Definition float_0_04 : dReal := (5368709 # 134217728)%Q.

(** [SpatialTree()]. *)
Definition SpatialTree_new : SpatialTree :=
  {| _nodes := []; _distmetricfn := None; _fBestDist := 0%Q;
     _fStepLength := float_0_04; _vNewConfig := []; _planner := None;
     _dof := 0%Z |}.

Definition set_nodes (T : SpatialTree) (ns : list t_node) : SpatialTree :=
  {| _nodes := ns; _distmetricfn := _distmetricfn T; _fBestDist := _fBestDist T;
     _fStepLength := _fStepLength T; _vNewConfig := _vNewConfig T;
     _planner := _planner T; _dof := _dof T |}.

Definition set_fBestDist (T : SpatialTree) (f : dReal) : SpatialTree :=
  {| _nodes := _nodes T; _distmetricfn := _distmetricfn T; _fBestDist := f;
     _fStepLength := _fStepLength T; _vNewConfig := _vNewConfig T;
     _planner := _planner T; _dof := _dof T |}.

Definition set_vNewConfig (T : SpatialTree) (c : config) : SpatialTree :=
  {| _nodes := _nodes T; _distmetricfn := _distmetricfn T; _fBestDist := _fBestDist T;
     _fStepLength := _fStepLength T; _vNewConfig := c;
     _planner := _planner T; _dof := _dof T |}.

(** [cReset(planner, dof)]. *)
Definition cReset (T : SpatialTree) (planner : option PlannerParameters) (dof : Z)
  : SpatialTree :=
  {| _nodes := []; _distmetricfn := _distmetricfn T; _fBestDist := _fBestDist T;
     _fStepLength := _fStepLength T;
     _vNewConfig := if (0 <? dof)%Z
                    then take (Z.to_nat dof) (_vNewConfig T)
                         ++ replicate (Z.to_nat dof - length (_vNewConfig T)) 0%Q
                    else _vNewConfig T;
     _planner := planner;
     _dof := if (0 <? dof)%Z then dof else _dof T |}.

Definition AddNode (T : SpatialTree) (parent : Z) (config : config)
  : Z * SpatialTree :=
  let T' := set_nodes T (_nodes T ++ [mk_t_node parent config]) in
  ((Z.of_nat (length (_nodes T')) - 1)%Z, T').

(** One round of the scan of [GetNN]: [(ibest, fbest)] and the position of
    the node being visited. *)
Definition GetNN_step (dist : config -> config -> dReal) (q0 : config)
    (acc : Z * dReal * Z) (node : t_node) : Z * dReal * Z :=
  let '(ibest, fbest, i) := acc in
  let f := dist q0 (q node) in
  if (ibest <? 0)%Z || Qgt_bool fbest f then (i, f, (i + 1)%Z)
  else (ibest, fbest, (i + 1)%Z).

Definition GetNN (T : SpatialTree) (q0 : config) : outcome (Z * SpatialTree) :=
  match _nodes T with
  | [] => Return ((-1)%Z, T)
  | _ =>
    match _distmetricfn T with
    | None => Throw bad_function_call
    | Some dist =>
      let '(ibest, fbest, _) :=
        foldl (GetNN_step dist q0) ((-1)%Z, 0%Q, 0%Z) (_nodes T) in
      Return (ibest, set_fBestDist T fbest)
    end
  end.

Definition GetConfig (T : SpatialTree) (inode : Z) : outcome config :=
  if (inode <? 0)%Z then Throw out_of_range
  else match _nodes T !! Z.to_nat inode with
       | Some n => Return (q n)
       | None => Throw out_of_range
       end.

Definition GetDOF_tree (T : SpatialTree) : Z := _dof T.

Definition at0 (c : config) (i : nat) : dReal := default 0%Q (c !! i).

(** [for (i = 0; i < _dof; ++i) v[i] = pq[i] + v[i]*fdist]. *)
Definition advance (dof : Z) (pq v : config) (fdist : dReal) : config :=
  foldl (fun v i => <[i := (at0 pq i + at0 v i * fdist)%Q]> v) v
        (seq 0 (Z.to_nat dof)).

(** The value reported when the extension stops on a rejected step. *)
Definition stopped (bHasAdded : bool) : ExtendType :=
  if bHasAdded then ET_Sucess else ET_Failed.

(** The first test of the loop on the distance [fdist] left to the target:
    [None] when the tree is close enough (the loop reports [ET_Connected]),
    and otherwise the factor applied to the difference of the states. *)
Definition step_scale (fStepLength fdist : dReal) : option dReal :=
  if Qgt_bool fdist fStepLength then Some (fStepLength / fdist)%Q
  else if Qle_bool fdist ((1 # 10) * fStepLength)%Q then None
  else Some fdist.

(** The new configuration of a step from [pnode], as left in [_vNewConfig],
    and whether the step survives the projection to the constraints. *)
Definition candidate (params : PlannerParameters) (dist : config -> config -> dReal)
    (dof : Z) (fStepLength : dReal) (pTargetConfig : config) (pnode : t_node)
    (fdist : dReal) : bool * config :=
  let v := _diffstatefn params pTargetConfig (q pnode) in
  let v := advance dof (q pnode) v fdist in
  match _constraintfn params with
  | None => (true, v)
  | Some c =>
    let '(ok, v) := c (q pnode) v in
    if negb ok then (false, v)
    else if Qle_bool (dist (q pnode) v) ((1 # 100) * fStepLength)%Q
         then (false, v)
         else (true, v)
  end.

(** The [while(1)] loop of [Extend]. *)
Fixpoint Extend_loop `{CollisionFunctions} (fuel : nat) (params : PlannerParameters)
    (pTargetConfig : config) (bOneStep : bool) (T : SpatialTree) (lastindex : Z)
    (pnode : t_node) (bHasAdded : bool) : run (ExtendType * Z * SpatialTree) :=
  match fuel with
  | O => None
  | S fuel =>
    match _distmetricfn T with
    | None => throw bad_function_call
    | Some dist =>
      match step_scale (_fStepLength T) (dist pTargetConfig (q pnode)) with
      | None => ret (ET_Connected, lastindex, T)
      | Some fdist =>
        let '(ok, v) :=
          candidate params dist (_dof T) (_fStepLength T) pTargetConfig pnode fdist in
        let T := set_vNewConfig T v in
        if negb ok then ret (stopped bHasAdded, lastindex, T)
        else
          if CheckCollision params (q pnode) v
          then ret (stopped bHasAdded, lastindex, T)
          else
            let '(lastindex, T) := AddNode T lastindex v in
            match _nodes T !! Z.to_nat lastindex with
            | None => throw out_of_range
            | Some pnode =>
              if bOneStep then ret (ET_Connected, lastindex, T)
              else Extend_loop fuel params pTargetConfig bOneStep T lastindex pnode true
            end
      end
    end
  end.

(** [Extend(pTargetConfig, lastindex, bOneStep)]: the value returned, the
    final [lastindex] and the tree. *)
Definition Extend `{CollisionFunctions} (fuel : nat) (T : SpatialTree)
    (pTargetConfig : config) (bOneStep : bool) : run (ExtendType * Z * SpatialTree) :=
  do (lastindex, T) <- lift (GetNN T pTargetConfig);
  if (lastindex <? 0)%Z then ret (ET_Failed, lastindex, T)
  else
    match _nodes T !! Z.to_nat lastindex with
    | None => throw out_of_range
    | Some pnode =>
      match _planner T with
      | None => throw bad_weak_ptr
      | Some params =>
        Extend_loop fuel params pTargetConfig bOneStep T lastindex pnode false
      end
    end.

(** ** The tree planner ([SBLPlanner])

    The sampler ([RandomSampler], declared in [samplerbase.h]) is an
    external collaborator: the results of the successive calls to
    [GenSingleSample] are given as a list, [None] for a failed call. The
    growth loop has no bound of its own; it stops for lack of fuel when the
    list is used up. *)

Record SBLPlanner := mk_SBLPlanner {
  p_parameters : option PlannerParameters;
  t_start : SpatialTree;
  t_goal : SpatialTree;
  l_pathnodes : list s_node;
  v_random_config : config;
  b_connected : bool
}.

Definition set_trees (P : SBLPlanner) (ts tg : SpatialTree) : SBLPlanner :=
  {| p_parameters := p_parameters P; t_start := ts; t_goal := tg;
     l_pathnodes := l_pathnodes P; v_random_config := v_random_config P;
     b_connected := b_connected P |}.

Definition set_random_config (P : SBLPlanner) (c : config) : SBLPlanner :=
  {| p_parameters := p_parameters P; t_start := t_start P; t_goal := t_goal P;
     l_pathnodes := l_pathnodes P; v_random_config := c;
     b_connected := b_connected P |}.

Definition set_connected (P : SBLPlanner) (b : bool) : SBLPlanner :=
  {| p_parameters := p_parameters P; t_start := t_start P; t_goal := t_goal P;
     l_pathnodes := l_pathnodes P; v_random_config := v_random_config P;
     b_connected := b |}.

(** [swap(t_start, t_goal)]. *)
Definition swap_trees (P : SBLPlanner) : SBLPlanner :=
  set_trees P (t_goal P) (t_start P).

(** The state after [SBLPlanner(penv)] and [InitPlan(pbase, pparams)]. *)
Definition InitPlan (pparams : PlannerParameters) (dof : nat) : SBLPlanner :=
  {| p_parameters := Some pparams; t_start := SpatialTree_new;
     t_goal := SpatialTree_new; l_pathnodes := [];
     v_random_config := replicate dof 0%Q; b_connected := false |}.

(** One round of the loop of [buildTrees] on a successful sample: the
    planner after the round, and whether the round ends on [continue]
    (which skips the swap). *)
Definition buildTrees_round `{CollisionFunctions} (fuel : nat) (P : SBLPlanner)
    (start_id goal_id : Z) : run (SBLPlanner * bool) :=
  do c0 <- lift (GetConfig (t_start P) start_id);
  do (_, _, ts) <- Extend fuel (t_start P) c0 false;
  do (ets, i_start_index, ts) <- Extend fuel ts (v_random_config P) false;
  let P := set_trees P ts (t_goal P) in
  match ets with
  | ET_Failed => ret (P, true)
  | _ =>
    do c1 <- lift (GetConfig (t_goal P) goal_id);
    do (_, _, tg) <- Extend fuel (t_goal P) c1 false;
    do c2 <- lift (GetConfig (t_start P) i_start_index);
    do (etg, _, tg) <- Extend fuel tg c2 false;
    let P := set_trees P (t_start P) tg in
    match etg with
    | ET_Connected => ret (set_connected P true, false)
    | _ => ret (P, false)
    end
  end.

Fixpoint buildTrees `{CollisionFunctions} (fuel : nat) (samples : list (option config))
    (P : SBLPlanner) (start_id goal_id : Z) : run SBLPlanner :=
  if b_connected P then ret P
  else
    match samples with
    | [] => None
    | None :: samples =>
      buildTrees fuel samples (swap_trees P) start_id goal_id
    | Some c :: samples =>
      do (P, continued) <-
        buildTrees_round fuel (set_random_config P c) start_id goal_id;
      buildTrees fuel samples (if continued : bool then P else swap_trees P)
                 start_id goal_id
    end.

(** [pt.q[i] = itnode->nconfig[i]] for [i < GetDOF()]. *)
Definition fill_point (dof : Z) (pt : config) (node : s_node) : config :=
  foldl (fun pt i => <[i := at0 (nconfig node) i]> pt) pt (seq 0 (Z.to_nat dof)).

(** The loop over [l_pathnodes]: the point [pt] is reused from one node to
    the next, and a copy of it is appended to the trajectory each time. *)
Fixpoint emit (dof : Z) (pt : config) (path : list s_node) (ptraj : list config)
  : list config :=
  match path with
  | [] => ptraj
  | node :: path =>
    let pt := fill_point dof pt node in
    emit dof pt path (ptraj ++ [pt])
  end.

(** [PlanPath(ptraj, pOutStream)]: the outcome of the call with the planner
    it leaves, and the trajectory, which belongs to the caller and is kept
    when an exception leaves the call. *)
Definition PlanPath `{CollisionFunctions} (fuel : nat) (samples : list (option config))
    (P : SBLPlanner) (ptraj : list config)
  : option (outcome (bool * SBLPlanner) * list config) :=
  match p_parameters P with
  | None => Some (Return (false, P), ptraj)
  | Some params =>
    let '(s_id, ts) := AddNode (t_start P) 0 (vinitialconfig params) in
    let '(g_id, tg) := AddNode (t_goal P) 1000 (vgoalconfig params) in
    let P := set_trees P ts tg in
    match buildTrees fuel samples P s_id g_id with
    | None => None
    | Some (Throw e) => Some (Throw e, ptraj)
    | Some (Return P) =>
      let pt := replicate (Z.to_nat (GetDOF params)) 0%Q in
      Some (Return (true, P), emit (GetDOF params) pt (l_pathnodes P) ptraj)
    end
  end.

(** ** The roadmap planner ([ClassicPRM])

    [PRMParams] (declared in [prmparams.h], outside the sources at hand)
    extends the planner parameters with the node budget and the
    neighbour-distance threshold. [ICollision::CheckCollision(params, robot,
    a, b, OPEN)] is the collision oracle of this planner: [true] when the
    segment is rejected. The results of the successive calls to
    [GenSingleSample] are given as a list, as for the tree planner; the
    robot is represented by its number of active degrees of freedom.
    [printGraph] only writes a file and is not represented. *)

Record PRMParams := mk_PRMParams {
  base_params : PlannerParameters;
  i_nnodes : Z;
  f_neigh_thresh : dReal
}.

Class ICollision :=
  { ICollision_CheckCollision : PRMParams -> config -> config -> bool }.

Module ClassicPRM.

Record planner := mk_planner {
  robot_dof : Z;                       (* p_robot->GetActiveDOF() *)
  p_parameters : option PRMParams;
  g_roadmap : SpatialGraph;            (* null until InitPlan *)
  l_pathnodes : list s_node;
  v_random_config : config;
  vv_cs_samples : list config;
  n_start : s_node;
  n_goal : s_node
}.

(** [ClassicPRM(penv)]: the three containers are cleared; [n_start] and
    [n_goal] are default nodes, whose vertex fields hold whatever values
    [vs] and [vg] the memory held. *)
Definition create (dof : Z) (vs vg : s_vertex) : planner :=
  {| robot_dof := dof; p_parameters := None; g_roadmap := SpatialGraph_default;
     l_pathnodes := []; v_random_config := []; vv_cs_samples := [];
     n_start := mk_s_node [] vs; n_goal := mk_s_node [] vg |}.

(** The sampling loop of [buildRoadMap]: [missing] samples are still to be
    drawn; a failed call is retried and does not count. The result is the
    sample set, [v_random_config] and the calls left. *)
Fixpoint gen_samples (samples : list (option config)) (missing : nat)
    (vv : list config) (v_random : config) {struct samples}
  : option (list config * config * list (option config)) :=
  match missing with
  | O => Some (vv, v_random, samples)
  | S m =>
    match samples with
    | [] => None
    | Some c :: samples => gen_samples samples m (vv ++ [c]) []
    | None :: samples => gen_samples samples (S m) vv v_random
    end
  end.

(** The body of the second loop of [buildRoadMap] for the sample [it]. *)
Definition connect_sample `{DistMetric} `{ICollision} (params : PRMParams)
    (G : SpatialGraph) (it : config) : SpatialGraph :=
  let '(vs, G) := addNode G it in
  let '(nns, neighbors) := findNN G vs [] in
  if (nns =? 0)%Z then G
  else
    foldl (fun G itt =>
             if negb (ICollision_CheckCollision params it (nconfig itt))
             then (addEdge G vs (vertex itt)).2
             else G) G neighbors.

(** [buildRoadMap()]: the node count returned, the planner and the calls
    to the sampler that are left. *)
Definition buildRoadMap `{DistMetric} `{ICollision} (params : PRMParams)
    (samples : list (option config)) (P : planner)
  : option (Z * planner * list (option config)) :=
  match gen_samples samples (Z.to_nat (i_nnodes params))
                    (vv_cs_samples P) (v_random_config P) with
  | None => None
  | Some (vv, v_random, samples) =>
    let G := foldl (connect_sample params) (g_roadmap P) vv in
    Some (getNodes G,
          {| robot_dof := robot_dof P; p_parameters := p_parameters P;
             g_roadmap := G; l_pathnodes := l_pathnodes P;
             v_random_config := v_random; vv_cs_samples := vv;
             n_start := n_start P; n_goal := n_goal P |},
          samples)
  end.

(** [InitPlan(pbase, pparams)], for a robot with [dof] active degrees of
    freedom. *)
Definition InitPlan `{DistMetric} `{ICollision} (P : planner) (dof : Z)
    (pparams : PRMParams) (samples : list (option config))
  : option (bool * planner * list (option config)) :=
  let P :=
    {| robot_dof := dof; p_parameters := Some pparams;
       g_roadmap := SpatialGraph_sized (i_nnodes pparams) (f_neigh_thresh pparams);
       l_pathnodes := l_pathnodes P;
       v_random_config := take (Z.to_nat dof) (v_random_config P)
                          ++ replicate (Z.to_nat dof - length (v_random_config P)) 0%Q;
       vv_cs_samples := vv_cs_samples P;
       n_start := n_start P; n_goal := n_goal P |} in
  match buildRoadMap pparams samples P with
  | None => None
  | Some (_, P, samples) => Some (true, P, samples)
  end.

(** The loop of [addStartConfig] and [addGoalConfig] over the near samples:
    the first neighbour whose segment is free and whose edge is accepted
    ends it, and the inserted node [nn] becomes the designated node;
    otherwise the designated node stays [n_old]. *)
Fixpoint connect_near `{DistMetric} `{ICollision} (params : PRMParams)
    (G : SpatialGraph) (st : s_vertex) (n_old : s_node) (nearsamples : list s_node)
  : SpatialGraph * s_node :=
  match nearsamples with
  | [] => (G, n_old)
  | it :: nearsamples =>
    let nn := getNode G st in
    if negb (ICollision_CheckCollision params (nconfig it) (nconfig nn))
    then
      let '(added, G') := addEdge G (vertex it) st in
      if added then (G', nn) else connect_near params G' st n_old nearsamples
    else connect_near params G st n_old nearsamples
  end.

(** The common body of [addStartConfig] and [addGoalConfig], for the
    configuration [conf] and the designated node [n_old] found on entry. *)
Definition addConfig `{DistMetric} `{ICollision} (params : PRMParams) (dof : Z)
    (G : SpatialGraph) (conf : config) (n_old : s_node)
  : bool * SpatialGraph * s_node :=
  if negb (Z.of_nat (length conf) =? dof)%Z then (false, G, n_old)
  else
    let '(st, G) := addNode G conf in
    let '(neis, nearsamples) := findNN G st [] in
    if (neis =? 0)%Z then (false, G, n_old)
    else
      let '(G, n) := connect_near params G st n_old nearsamples in
      if (2 * getNodes G <? Z.of_nat (vertex n))%Z then (false, G, n)
      else (true, G, n).

Definition set_roadmap (P : planner) (G : SpatialGraph) (ns ng : s_node) : planner :=
  {| robot_dof := robot_dof P; p_parameters := p_parameters P;
     g_roadmap := G; l_pathnodes := l_pathnodes P;
     v_random_config := v_random_config P; vv_cs_samples := vv_cs_samples P;
     n_start := ns; n_goal := ng |}.

Definition set_pathnodes (P : planner) (l : list s_node) : planner :=
  {| robot_dof := robot_dof P; p_parameters := p_parameters P;
     g_roadmap := g_roadmap P; l_pathnodes := l;
     v_random_config := v_random_config P; vv_cs_samples := vv_cs_samples P;
     n_start := n_start P; n_goal := n_goal P |}.

Definition addStartConfig `{DistMetric} `{ICollision} (params : PRMParams)
    (P : planner) : bool * planner :=
  let '(ok, G, n) :=
    addConfig params (robot_dof P) (g_roadmap P)
              (vinitialconfig (base_params params)) (n_start P) in
  (ok, set_roadmap P G n (n_goal P)).

Definition addGoalConfig `{DistMetric} `{ICollision} (params : PRMParams)
    (P : planner) : bool * planner :=
  let '(ok, G, n) :=
    addConfig params (robot_dof P) (g_roadmap P)
              (vgoalconfig (base_params params)) (n_goal P) in
  (ok, set_roadmap P G (n_start P) n).

(** [PlanPath(ptraj, pOutStream)]: the outcome with the planner left, and the
    trajectory. *)
Definition PlanPath `{DistMetric} `{ICollision} (fuel : nat) (P : planner)
    (ptraj : list config) : option (outcome (bool * planner) * list config) :=
  match p_parameters P with
  | None => Some (Return (false, P), ptraj)
  | Some params =>
    let '(ok, P) := addStartConfig params P in
    if negb ok then Some (Return (false, P), ptraj)
    else
      let '(ok, P) := addGoalConfig params P in
      if negb ok then Some (Return (false, P), ptraj)
      else
        match findPath fuel (g_roadmap P) (n_start P) (n_goal P) (l_pathnodes P) with
        | None => None
        | Some (Throw x, _) => Some (Throw x, ptraj)
        | Some (Return false, l) => Some (Return (false, set_pathnodes P l), ptraj)
        | Some (Return true, l) =>
          let dof := GetDOF (base_params params) in
          let pt := replicate (Z.to_nat dof) 0%Q in
          Some (Return (true, set_pathnodes P l), emit dof pt l ptraj)
        end
  end.

End ClassicPRM.

(** ** Predicates used in the statements *)

(** [v] is the handle of a stored node. *)
Definition stored (G : SpatialGraph) (v : s_vertex) : Prop :=
  v ∈ vertex <$> node_list G.

(** An edge joins [u] and [v]. *)
Definition has_edge (g : s_graph) (u v : s_vertex) : Prop :=
  u ∈ adjacent_vertices v g \/ v ∈ adjacent_vertices u g.

(** What the constructors establish and [addNode] and [addEdge] keep: the
    handles of the stored nodes are vertices of the graph, the endpoints of
    the edges too, and the out-edge lists are symmetric. *)
Record graph_inv (G : SpatialGraph) : Prop := mk_graph_inv {
  inv_stored : forall v, stored G v -> v < num_vertices (p_graph G);
  inv_target : forall u v, v ∈ adjacent_vertices u (p_graph G) ->
                           v < num_vertices (p_graph G);
  inv_sym : forall u v, v ∈ adjacent_vertices u (p_graph G) ->
                        u ∈ adjacent_vertices v (p_graph G)
}.

(** [v] is reached from [s] along edges of the graph. *)
Definition reachable (g : s_graph) (s v : s_vertex) : Prop :=
  rtc (fun a b => b ∈ adjacent_vertices a g) s v.

(** Successive calls to [addNode]: the handles returned, in order. *)
Fixpoint addNodes (G : SpatialGraph) (confs : list config)
  : list s_vertex * SpatialGraph :=
  match confs with
  | [] => ([], G)
  | c :: confs =>
    let '(v, G) := addNode G c in
    let '(vs, G) := addNodes G confs in
    (v :: vs, G)
  end.

(** The neighbours [findNN] is specified to return for the handle [n]. *)
Definition is_neighbor `{DistMetric} (G : SpatialGraph) (n : s_vertex) (it : s_node)
  : bool :=
  negb (Nat.eqb n (vertex it))
  && negb (existsb (Nat.eqb n) (adjacent_vertices (vertex it) (p_graph G)))
  && Qle_bool (DistMetric_Eval (nconfig (getNode G n)) (nconfig it)) (neigh_thresh G).

(** The shape of a tree whose root was inserted with the parent value
    [root]: every later node has an earlier node as parent. *)
Definition tree_shape (root : Z) (T : SpatialTree) : Prop :=
  (exists c, _nodes T !! 0 = Some (mk_t_node root c)) /\
  forall i n, 0 < i -> _nodes T !! i = Some n ->
              (0 <= parent n < Z.of_nat i)%Z.

(** The trees the tree planner builds: a root inserted in an empty tree,
    then calls to [Extend] that return. *)
Inductive grown `{CollisionFunctions} (root : Z) : SpatialTree -> Prop :=
  | grown_root T c :
      _nodes T = [] -> grown root (AddNode T root c).2
  | grown_Extend T fuel target bOneStep r i T' :
      grown root T ->
      Extend fuel T target bOneStep = Some (Return (r, i, T')) ->
      grown root T'.

(** The parent values the tree planner passes to [AddNode]: 0 for the tree
    that [t_start] names and 1000 for the one that [t_goal] names. *)
Definition planner_root (p : Z) : Prop := p = 0%Z \/ p = 1000%Z.

(** The trees the calls of the planners produce: from an empty tree, any
    sequence of the planner's calls to [AddNode] and of calls to [Extend]
    that return. [roots] lists the indices of the nodes that [AddNode]
    inserted. *)
Inductive planned `{CollisionFunctions} : list nat -> SpatialTree -> Prop :=
  | planned_empty T :
      _nodes T = [] -> planned [] T
  | planned_AddNode roots T p c :
      planned roots T -> planner_root p ->
      planned (roots ++ [length (_nodes T)]) (AddNode T p c).2
  | planned_Extend roots T fuel target bOneStep r i T' :
      planned roots T ->
      Extend fuel T target bOneStep = Some (Return (r, i, T')) ->
      planned roots T'.

(** The shape of such a tree: its first node was inserted by [AddNode];
    the nodes inserted by [AddNode] carry a parent value of the planner,
    every other node has an earlier node as parent. *)
Definition forest_shape (roots : list nat) (T : SpatialTree) : Prop :=
  (_nodes T <> [] -> 0 ∈ roots) /\
  (forall r, r ∈ roots -> r < length (_nodes T)) /\
  forall j n, _nodes T !! j = Some n ->
    (j ∈ roots -> planner_root (parent n)) /\
    (j ∉ roots -> (0 <= parent n < Z.of_nat j)%Z).

(** What the scan of [GetNN] with the metric [dist] and the target [q0] has
    found after the nodes [pre]. *)
Definition scanned (dist : config -> config -> dReal) (q0 : config)
    (pre : list t_node) (acc : Z * dReal * Z) : Prop :=
  let '(ibest, fbest, i) := acc in
  i = Z.of_nat (length pre) /\
  match pre with
  | [] => ibest = (-1)%Z
  | _ => exists k node,
      ibest = Z.of_nat k /\ pre !! k = Some node /\
      fbest = dist q0 (q node) /\
      forall n, n ∈ pre -> (fbest <= dist q0 (q n))%Q
  end.

(** The two trees of the planner have the roots [a] and [b]. *)
Definition shapes (a b : Z) (P : SBLPlanner) : Prop :=
  tree_shape a (t_start P) /\ tree_shape b (t_goal P).

(** What the maps of a search from [s] record: every vertex that left the
    colour white, and every vertex whose predecessor is not itself, is
    reached from [s]. *)
Record search_inv (g : s_graph) (s : s_vertex) (st : search_maps) : Prop :=
  mk_search_inv {
    inv_color : forall v c, m_color st !! v = Some c -> c <> white -> reachable g s v;
    inv_pred : forall v p, m_predecessor st !! v = Some p -> p <> v -> reachable g s v
  }.

(** The vertex [u] has left the colour white. *)
Definition discovered (st : search_maps) (u : s_vertex) : Prop :=
  exists c, m_color st !! u = Some c /\ c <> white.

(** What the predecessor map of a search from [s] records: a vertex whose
    predecessor is another vertex is the target of an out-edge of that
    predecessor, which has been discovered; a vertex that is its own
    predecessor is [s], or its distance is still the largest [int]. *)
Record pred_inv (g : s_graph) (s : s_vertex) (st : search_maps) : Prop :=
  mk_pred_inv {
    pi_len : length (m_predecessor st) = length (m_color st);
    pi_adj : forall v u, m_predecessor st !! v = Some u -> u <> v ->
               v ∈ adjacent_vertices u g /\ discovered st u;
    pi_fix : forall v, m_predecessor st !! v = Some v ->
               v = s \/ m_distance st !! v = Some int_max;
    pi_le : forall v d, m_distance st !! v = Some d -> (d <= int_max)%Z
  }.

(** Every out-edge of a black vertex leads to a discovered vertex. *)
Definition black_closed (g : s_graph) (st : search_maps) : Prop :=
  forall u v, m_color st !! u = Some black -> v ∈ adjacent_vertices u g ->
              discovered st v.

(** The vertices [l] form a walk: each is the target of an out-edge of the
    one before. *)
Definition is_walk (g : s_graph) (l : list s_vertex) : Prop :=
  forall i a b, l !! i = Some a -> l !! S i = Some b ->
                b ∈ adjacent_vertices a g.

(** The measure that bounds the rounds of a search: twice the sum of the
    distances, plus the number of vertices that are not black. A round
    blackens the vertex it takes from the queue; reopening a black vertex
    costs one and is paid by the decrease, by at least one, of its
    distance. *)
Definition color_weight (c : Color) : nat :=
  match c with black => 0 | _ => 1 end.

Definition distance_weight (d : Z) : nat := 2 * Z.to_nat d.

Definition potential (st : search_maps) : nat :=
  sum_list_with distance_weight (m_distance st)
  + sum_list_with color_weight (m_color st).

(** No distance recorded is negative. *)
Definition dist_nonneg (st : search_maps) : Prop :=
  forall v d, m_distance st !! v = Some d -> (0 <= d)%Z.

(** The graphs a caller obtains from the graph [G0]: by calls to [addNode],
    and to [addEdge] on the handles of stored nodes. *)
Inductive built `{DistMetric} (G0 : SpatialGraph) : SpatialGraph -> Prop :=
  | built_start : built G0 G0
  | built_addNode G c : built G0 G -> built G0 (addNode G c).2
  | built_addEdge G u v :
      built G0 G -> stored G u -> stored G v -> built G0 (addEdge G u v).2.

(** The handles of the stored nodes are the last vertices of the graph, in
    insertion order. *)
Definition handles_in_order (G : SpatialGraph) : Prop :=
  length (node_list G) <= num_vertices (p_graph G) /\
  vertex <$> node_list G =
  seq (num_vertices (p_graph G) - length (node_list G)) (length (node_list G)).

(** The configuration stored for the handle [v]. *)
Definition config_of (G : SpatialGraph) (v : s_vertex) : config :=
  nconfig (getNode G v).

(** The edges of a roadmap: they join two distinct stored nodes, appear in
    the out-edge lists of both, at most once, and carry the distance of the
    two configurations, which is at most the threshold. *)
Record edges_ok `{DistMetric} (G : SpatialGraph) : Prop := mk_edges_ok {
  eo_stored : forall u v, v ∈ adjacent_vertices u (p_graph G) ->
                          stored G u /\ stored G v;
  eo_loop : forall v, v ∉ adjacent_vertices v (p_graph G);
  eo_sym : forall u v w, (v, w) ∈ out_edges u (p_graph G) ->
                         (u, w) ∈ out_edges v (p_graph G);
  eo_once : forall u, NoDup (adjacent_vertices u (p_graph G));
  eo_weight : forall u v w, (v, w) ∈ out_edges u (p_graph G) ->
      (w <= neigh_thresh G)%Q /\
      (w = DistMetric_Eval (config_of G u) (config_of G v) \/
       w = DistMetric_Eval (config_of G v) (config_of G u))
}.

(** [k] is the index of the first of the nodes of [l] nearest to [q0]. *)
Definition first_nearest (dist : config -> config -> dReal) (q0 : config)
    (l : list t_node) (k : nat) : Prop :=
  exists node, l !! k = Some node /\
    (forall n, n ∈ l -> (dist q0 (q node) <= dist q0 (q n))%Q) /\
    (forall j n, j < k -> l !! j = Some n -> (dist q0 (q node) < dist q0 (q n))%Q).

(** The node [n] of a tree hangs from an earlier node, and the collision
    oracle accepted the segment between the two. *)
Definition edge_checked `{CollisionFunctions} (params : PlannerParameters)
    (nodes : list t_node) (j : nat) (n : t_node) : Prop :=
  exists pn, (0 <= parent n < Z.of_nat j)%Z /\
    nodes !! Z.to_nat (parent n) = Some pn /\
    CheckCollision params (q pn) (q n) = false.

(** ** Instances used in the examples *)

(** A metric for the examples: the sum of the coordinate differences. *)
Definition l1_distance (a b : config) : dReal :=
  foldr Qplus 0%Q (zip_with (fun x y => Qabs (x - y)) a b).

Definition L1Metric : DistMetric := {| DistMetric_Eval := l1_distance |}.

(** Oracles that accept, respectively reject, every segment. *)
Definition FreeSpace : CollisionFunctions := {| CheckCollision := fun _ _ _ => false |}.
Definition Blocked : CollisionFunctions := {| CheckCollision := fun _ _ _ => true |}.

(** Plain subtraction, the default differencing function. *)
Definition subtract_states (a b : config) : config :=
  zip_with (fun x y => (x - y)%Q) a b.

Definition example_params (init goal : config) : PlannerParameters :=
  {| vinitialconfig := init; vgoalconfig := goal; GetDOF := 1;
     _diffstatefn := subtract_states; _constraintfn := None |}.

(** A tree whose collaborators have been supplied. *)
Definition wired_tree (params : PlannerParameters) : SpatialTree :=
  {| _nodes := []; _distmetricfn := Some l1_distance; _fBestDist := 0%Q;
     _fStepLength := float_0_04; _vNewConfig := [0%Q];
     _planner := Some params; _dof := 1 |}.

Definition wired_planner (params : PlannerParameters) : SBLPlanner :=
  {| p_parameters := Some params; t_start := wired_tree params;
     t_goal := wired_tree params; l_pathnodes := [];
     v_random_config := [0%Q]; b_connected := false |}.

(** A wired tree holding the root the planner inserts in its start tree. *)
Definition example_tree : SpatialTree :=
  (AddNode (wired_tree (example_params [0%Q] [(1 # 1000)%Q])) 0 [0%Q]).2.

(** Two clusters, [{0, 1}] and [{2, 3}], each connected, with no edge
    between them. *)
Definition two_clusters : SpatialGraph :=
  let G := (addNodes SpatialGraph_default [[0%Q]; [1%Q]; [20%Q]; [21%Q]]).2 in
  let G := (@addEdge L1Metric G 0 1).2 in
  (@addEdge L1Metric G 2 3).2.

(** A chain [0 - 1 - 2] whose ends are too far apart for an edge. *)
Definition chain : SpatialGraph :=
  let G := (addNodes SpatialGraph_default [[0%Q]; [4%Q]; [8%Q]]).2 in
  let G := (@addEdge L1Metric G 0 1).2 in
  (@addEdge L1Metric G 1 2).2.

(** A roadmap with two nodes and no edge. *)
Definition two_nodes : SpatialGraph :=
  (addNodes SpatialGraph_default [[0%Q]; [1%Q]]).2.

(** Oracles of the roadmap planner that accept, respectively reject, every
    segment, and parameters with the node budget [n]. *)
Definition FreeRoad : ICollision :=
  {| ICollision_CheckCollision := fun _ _ _ => false |}.
Definition BlockedRoad : ICollision :=
  {| ICollision_CheckCollision := fun _ _ _ => true |}.

Definition example_prm (n : Z) : PRMParams :=
  {| base_params := example_params [0%Q] [1%Q]; i_nnodes := n;
     f_neigh_thresh := 5%Q |}.

(** The roadmap planner after [InitPlan] with the budget 2 and the samples
    0 and 1, followed by [InitPlan] with the budget 0: the second roadmap
    is built without pre-created vertices from the two samples kept. *)
Definition replanned : ClassicPRM.planner :=
  {| ClassicPRM.robot_dof := 1;
     ClassicPRM.p_parameters := Some (example_prm 0);
     ClassicPRM.g_roadmap :=
       {| max_nodes := 0; neigh_thresh := 5%Q;
          node_list := [mk_s_node [0%Q] 0; mk_s_node [1%Q] 1];
          p_graph := [[(1, 1%Q)]; [(0, 1%Q)]] |};
     ClassicPRM.l_pathnodes := [];
     ClassicPRM.v_random_config := [0%Q];
     ClassicPRM.vv_cs_samples := [[0%Q]; [1%Q]];
     ClassicPRM.n_start := mk_s_node [] 0;
     ClassicPRM.n_goal := mk_s_node [] 0 |}.

(** * Properties *)

(** ** The boost graph *)

Arguments add_edge : simpl never.
Arguments add_vertex : simpl never.

Lemma Qgt_bool_false (a b : Q) : Qgt_bool a b = false <-> (a <= b)%Q.
Proof.
  unfold Qgt_bool. rewrite negb_false_iff. apply Qle_bool_iff.
Qed.

Lemma Qgt_bool_true (a b : Q) : Qgt_bool a b = true <-> (b < a)%Q.
Proof.
  unfold Qgt_bool. rewrite negb_true_iff, <- not_true_iff_false, Qle_bool_iff.
  split; [apply Qnot_le_lt | apply Qlt_not_le].
Qed.

Lemma out_edges_lookup (g : s_graph) v es : g !! v = Some es -> out_edges v g = es.
Proof. unfold out_edges. by intros ->. Qed.

Lemma out_edges_ge (g : s_graph) v : length g <= v -> out_edges v g = [].
Proof. intros Hv. unfold out_edges. by rewrite lookup_ge_None_2. Qed.

Lemma out_edges_insert_eq (g : s_graph) v es :
  v < length g -> out_edges v (<[v := es]> g) = es.
Proof. intros Hv. apply out_edges_lookup. by apply list_lookup_insert_eq. Qed.

Lemma out_edges_insert_ne (g : s_graph) u v es :
  u <> v -> out_edges v (<[u := es]> g) = out_edges v g.
Proof. intros Hne. unfold out_edges. by rewrite list_lookup_insert_ne. Qed.

Lemma add_edge_inserted u v w (g : s_graph) : (add_edge u v w g).2 = true.
Proof. reflexivity. Qed.

Lemma add_edge_length u v w (g : s_graph) :
  u < length g -> v < length g -> length (add_edge u v w g).1 = length g.
Proof.
  intros Hu Hv. unfold add_edge. simpl.
  rewrite !length_insert, length_app, length_replicate. lia.
Qed.

(** The out-edge lists after the insertion of an edge between two distinct
    vertices of the graph. *)
Lemma out_edges_add_edge u v w (g : s_graph) x :
  u < length g -> v < length g -> u <> v ->
  out_edges x (add_edge u v w g).1 =
  out_edges x g ++ (if decide (x = u) then [(v, w)]
                    else if decide (x = v) then [(u, w)] else []).
Proof.
  intros Hu Hv Hne. unfold add_edge. simpl.
  replace (S (u `max` v) - length g) with 0 by lia.
  simpl. rewrite app_nil_r.
  destruct (decide (x = u)) as [->|Hxu].
  - rewrite out_edges_insert_ne by done.
    by rewrite out_edges_insert_eq.
  - destruct (decide (x = v)) as [->|Hxv].
    + rewrite out_edges_insert_eq by (by rewrite length_insert).
      by rewrite out_edges_insert_ne.
    + rewrite !out_edges_insert_ne by done. by rewrite app_nil_r.
Qed.

Lemma adjacent_add_edge u v w (g : s_graph) x y :
  u < length g -> v < length g -> u <> v ->
  y ∈ adjacent_vertices x (add_edge u v w g).1 <->
  y ∈ adjacent_vertices x g \/ (x = u /\ y = v) \/ (x = v /\ y = u).
Proof.
  intros Hu Hv Hne. unfold adjacent_vertices.
  rewrite out_edges_add_edge by done.
  rewrite fmap_app, elem_of_app.
  destruct (decide (x = u)) as [->|Hxu]; [|destruct (decide (x = v)) as [->|Hxv]];
    simpl; rewrite ?list_elem_of_singleton, ?elem_of_nil;
    intuition congruence.
Qed.

Lemma adjacent_add_vertex (g : s_graph) x y :
  y ∈ adjacent_vertices x (add_vertex g).2 <-> y ∈ adjacent_vertices x g.
Proof.
  unfold adjacent_vertices, out_edges, add_vertex. simpl.
  destruct (decide (x < length g)) as [Hx|Hx].
  - by rewrite lookup_app_l.
  - rewrite (lookup_ge_None_2 g) by lia.
    destruct (decide (x = length g)) as [->|Hne].
    + by rewrite list_lookup_middle.
    + rewrite lookup_ge_None_2; [done|]. rewrite length_app. simpl. lia.
Qed.

(** ** SpatialGraph: nodes and handles *)

Lemma edgeExists_true (G : SpatialGraph) u v :
  edgeExists G u v = true <-> u = v \/ u ∈ adjacent_vertices v (p_graph G).
Proof.
  unfold edgeExists. destruct (decide (u = v)) as [->|Hne].
  - split; auto.
  - rewrite existsb_exists. split.
    + intros (x & Hx & Heq). apply Nat.eqb_eq in Heq. subst x.
      right. by apply list_elem_of_In.
    + intros [?|Hin]; [done|]. exists u. split.
      * by apply list_elem_of_In.
      * apply Nat.eqb_refl.
Qed.

Lemma edgeExists_false (G : SpatialGraph) u v :
  edgeExists G u v = false <-> u <> v /\ u ∉ adjacent_vertices v (p_graph G).
Proof.
  rewrite <- not_true_iff_false, edgeExists_true. tauto.
Qed.

(** For the handle of a stored node [getNode] returns a stored node that
    carries this handle. *)
Lemma getNode_stored (G : SpatialGraph) v :
  stored G v -> getNode G v ∈ node_list G /\ vertex (getNode G v) = v.
Proof.
  unfold stored, getNode.
  induction (node_list G) as [|it l IH] using rev_ind.
  - intros Hv. by apply elem_of_nil in Hv.
  - intros Hv. rewrite foldl_app. simpl.
    destruct (decide (vertex it = v)) as [E|Hne].
    + split; [|done]. apply elem_of_app. right. apply list_elem_of_here.
    + rewrite fmap_app, elem_of_app in Hv. destruct Hv as [Hv|Hv].
      * destruct (IH Hv) as [H1 H2]. split; [|done].
        apply elem_of_app. by left.
      * simpl in Hv. apply list_elem_of_singleton in Hv. by subst.
Qed.

Lemma addNode_handle (G : SpatialGraph) c :
  (addNode G c).1 = num_vertices (p_graph G).
Proof. reflexivity. Qed.

Lemma addNode_node_list (G : SpatialGraph) c :
  node_list (addNode G c).2 =
  node_list G ++ [mk_s_node c (num_vertices (p_graph G))].
Proof. reflexivity. Qed.

Lemma addNode_num_vertices (G : SpatialGraph) c :
  num_vertices (p_graph (addNode G c).2) = S (num_vertices (p_graph G)).
Proof.
  unfold addNode, add_vertex, num_vertices. simpl.
  rewrite length_app. simpl. lia.
Qed.

(** The handles returned by a run of insertions count up from the number of
    vertices the graph had before. *)
Lemma addNodes_handles (confs : list config) : forall G : SpatialGraph,
  (addNodes G confs).1 = seq (num_vertices (p_graph G)) (length confs) /\
  vertex <$> node_list (addNodes G confs).2 =
    (vertex <$> node_list G) ++ seq (num_vertices (p_graph G)) (length confs).
Proof.
  induction confs as [|c confs IH]; intros G.
  - simpl. by rewrite app_nil_r.
  - cbn [addNodes].
    destruct (addNode G c) as [v G1] eqn:E1.
    pose proof (addNode_handle G c) as Hv.
    pose proof (addNode_node_list G c) as Hl.
    pose proof (addNode_num_vertices G c) as Hn.
    rewrite E1 in Hv, Hl, Hn. simpl in Hv, Hl, Hn.
    destruct (addNodes G1 confs) as [vs G2] eqn:E2.
    destruct (IH G1) as [IH1 IH2]. rewrite E2 in IH1, IH2. simpl in IH1, IH2.
    simpl. rewrite IH1, IH2, Hl, Hn, Hv, fmap_app. simpl.
    split; [done|]. by rewrite <- app_assoc.
Qed.

(** With the default constructor the handles are [0, 1, 2, ...]. *)
Lemma addNodes_default_dense (confs : list config) :
  (addNodes SpatialGraph_default confs).1 = seq 0 (length confs) /\
  vertex <$> node_list (addNodes SpatialGraph_default confs).2 =
    seq 0 (length confs).
Proof.
  destruct (addNodes_handles confs SpatialGraph_default) as [H1 H2].
  split; [exact H1 | exact H2].
Qed.

(** C2 (what the code does): with the constructor [SpatialGraph(m_nodes,
    n_thresh)] the graph starts with [max_nodes] vertices, so the k-th call
    to [addNode] returns [max_nodes + k - 1] and the handles stored in
    [node_list] are [max_nodes], [max_nodes + 1], ... in insertion order,
    not [0 .. nodeCount - 1]. *)
Theorem addNodes_sized_offset (m_nodes : Z) (n_thresh : dReal) (confs : list config) :
  let G := SpatialGraph_sized m_nodes n_thresh in
  let base := Z.to_nat (to_unsigned m_nodes) in
  (addNodes G confs).1 = seq base (length confs) /\
  vertex <$> node_list (addNodes G confs).2 = seq base (length confs).
Proof.
  intros G base.
  destruct (addNodes_handles confs G) as [H1 H2].
  assert (Hn : num_vertices (p_graph G) = base).
  { unfold G, SpatialGraph_sized, num_vertices. simpl. apply length_replicate. }
  rewrite Hn in H1, H2. split; [exact H1 | exact H2].
Qed.

(** The roadmap planner's graph for a budget of three nodes: the first
    handle is 3, and the handles stored are 3, 4. *)
Example addNodes_sized_3 :
  (addNode (SpatialGraph_sized 3 5) [0%Q]).1 = 3 /\
  vertex <$> node_list (addNodes (SpatialGraph_sized 3 5) [[0%Q]; [1%Q]]).2 = [3; 4].
Proof. split; reflexivity. Qed.

(** ** SpatialGraph: the invariant *)

Lemma graph_inv_default : graph_inv SpatialGraph_default.
Proof.
  split.
  - intros v Hv. unfold stored in Hv. simpl in Hv. by apply elem_of_nil in Hv.
  - intros u v Hv. unfold adjacent_vertices, out_edges in Hv. simpl in Hv.
    by apply elem_of_nil in Hv.
  - intros u v Hv. unfold adjacent_vertices, out_edges in Hv. simpl in Hv.
    by apply elem_of_nil in Hv.
Qed.

Lemma adjacent_replicate_nil n u v :
  v ∉ adjacent_vertices u (replicate n ([] : list (nat * Q))).
Proof.
  unfold adjacent_vertices, out_edges. intros Hv.
  destruct (replicate n [] !! u) as [es|] eqn:E; simpl in Hv.
  - apply lookup_replicate in E as [-> _]. by apply elem_of_nil in Hv.
  - by apply elem_of_nil in Hv.
Qed.

Lemma graph_inv_sized m_nodes n_thresh : graph_inv (SpatialGraph_sized m_nodes n_thresh).
Proof.
  split.
  - intros v Hv. unfold stored in Hv. simpl in Hv. by apply elem_of_nil in Hv.
  - intros u v Hv. simpl in Hv. by apply adjacent_replicate_nil in Hv.
  - intros u v Hv. simpl in Hv. by apply adjacent_replicate_nil in Hv.
Qed.

Lemma graph_inv_addNode (G : SpatialGraph) c :
  graph_inv G -> graph_inv (addNode G c).2.
Proof.
  intros [Hs Ht Hsym]. split.
  - intros v Hv. rewrite addNode_num_vertices.
    unfold stored in Hv. rewrite addNode_node_list, fmap_app, elem_of_app in Hv.
    destruct Hv as [Hv|Hv].
    + apply Hs in Hv. lia.
    + simpl in Hv. apply list_elem_of_singleton in Hv. lia.
  - intros u v Hv. rewrite addNode_num_vertices.
    apply (adjacent_add_vertex (p_graph G)) in Hv. apply Ht in Hv. lia.
  - intros u v Hv.
    apply (adjacent_add_vertex (p_graph G)) in Hv.
    apply (adjacent_add_vertex (p_graph G)). by apply Hsym.
Qed.

(** ** SpatialGraph: [addEdge] *)

Section AddEdge.
Context {DM : DistMetric}.

Lemma has_edge_adjacent (G : SpatialGraph) u v :
  graph_inv G -> has_edge (p_graph G) u v <-> u ∈ adjacent_vertices v (p_graph G).
Proof.
  intros HG. unfold has_edge. split; [|by left].
  intros [H|H]; [done|]. by apply (inv_sym G HG).
Qed.

(** [addEdge] by cases on its three tests. *)
Lemma addEdge_cases (G : SpatialGraph) u v :
  let dist := DistMetric_Eval (nconfig (getNode G u)) (nconfig (getNode G v)) in
  addEdge G u v =
  if edgeExists G u v then (false, G)
  else if Qgt_bool dist (neigh_thresh G) then (false, G)
  else (true, {| max_nodes := max_nodes G; neigh_thresh := neigh_thresh G;
                 node_list := node_list G;
                 p_graph := (add_edge u v dist (p_graph G)).1 |}).
Proof.
  intros dist. unfold addEdge.
  destruct (edgeExists G u v) eqn:E; [done|].
  apply edgeExists_false in E as [Hne _].
  rewrite bool_decide_eq_false_2 by done. simpl.
  fold dist. by destruct (Qgt_bool dist (neigh_thresh G)).
Qed.

Lemma graph_inv_addEdge (G : SpatialGraph) u v :
  graph_inv G -> stored G u -> stored G v -> graph_inv (addEdge G u v).2.
Proof.
  intros HG Hu Hv. rewrite addEdge_cases.
  destruct (edgeExists G u v) eqn:E; [done|].
  destruct (Qgt_bool _ _); [done|]. cbn [snd].
  apply edgeExists_false in E as [Hne _].
  pose proof (inv_stored G HG u Hu) as Hul.
  pose proof (inv_stored G HG v Hv) as Hvl.
  unfold num_vertices in Hul, Hvl.
  split; cbn [p_graph].
  - intros x Hx. unfold num_vertices. rewrite add_edge_length by done.
    by apply (inv_stored G HG).
  - intros a b Hab. unfold num_vertices. rewrite add_edge_length by done.
    apply adjacent_add_edge in Hab; [|done..].
    destruct Hab as [Hab|[[_ ->]|[_ ->]]]; [|done..].
    by apply (inv_target G HG) in Hab.
  - intros a b Hab.
    apply adjacent_add_edge in Hab; [|done..].
    apply adjacent_add_edge; [done..|].
    destruct Hab as [Hab|[[-> ->]|[-> ->]]]; [|tauto..].
    left. by apply (inv_sym G HG).
Qed.


End AddEdge.

(** ** SpatialGraph: [findNN] *)

Section FindNN.
Context {DM : DistMetric}.

(** The test on one node in the loop of [findNN] is the neighbour test of
    the specification, taken with the node [getNode] yields for [n]. *)
Lemma findNN_step_neighbor (G : SpatialGraph) n acc it :
  findNN_step G n (getNode G n) acc it =
  if is_neighbor G n it then acc ++ [it] else acc.
Proof.
  unfold findNN_step, is_neighbor, edgeExists.
  destruct (decide (n = vertex it)) as [->|Hne].
  - by rewrite Nat.eqb_refl.
  - apply Nat.eqb_neq in Hne. rewrite Hne. simpl.
    destruct (existsb _ _); [done|]. simpl.
    by destruct (Qle_bool _ _).
Qed.

Lemma findNN_loop_filter (G : SpatialGraph) n (l acc : list s_node) :
  foldl (findNN_step G n (getNode G n)) acc l =
  acc ++ List.filter (is_neighbor G n) l.
Proof.
  revert acc. induction l as [|it l IH]; intros acc; simpl.
  - by rewrite app_nil_r.
  - rewrite findNN_step_neighbor, IH.
    destruct (is_neighbor G n it); [|done].
    by rewrite <- app_assoc.
Qed.

(** Past its two guards [findNN] returns the neighbours of the
    specification, in the order of [node_list], and their number. *)
Lemma findNN_scan (G : SpatialGraph) n out :
  1 < length (node_list G) -> n <= length (node_list G) ->
  findNN G n out =
  (Z.of_nat (length (List.filter (is_neighbor G n) (node_list G))),
   List.filter (is_neighbor G n) (node_list G)).
Proof.
  intros Hlen Hn. unfold findNN.
  destruct (decide (length (node_list G) <= 1)); [lia|].
  destruct (decide (length (node_list G) < n)); [lia|].
  by rewrite findNN_loop_filter.
Qed.

Lemma findNN_small (G : SpatialGraph) n out :
  length (node_list G) <= 1 -> findNN G n out = (0%Z, out).
Proof. intros Hlen. unfold findNN. by destruct (decide _). Qed.

Lemma findNN_beyond (G : SpatialGraph) n out :
  length (node_list G) < n -> findNN G n out = (0%Z, out).
Proof.
  intros Hn. unfold findNN.
  destruct (decide (length (node_list G) <= 1)); [done|].
  by destruct (decide (length (node_list G) < n)).
Qed.

(** With the handles [0 .. nodeCount - 1] of the default constructor every
    stored handle passes the guard, and [findNN] meets its
    specification. *)
Lemma findNN_dense (G : SpatialGraph) n out :
  vertex <$> node_list G = seq 0 (length (node_list G)) ->
  1 < length (node_list G) -> stored G n ->
  findNN G n out =
  (Z.of_nat (length (List.filter (is_neighbor G n) (node_list G))),
   List.filter (is_neighbor G n) (node_list G)).
Proof.
  intros Hdense Hlen Hn. apply findNN_scan; [done|].
  unfold stored in Hn. rewrite Hdense in Hn.
  apply elem_of_seq in Hn. lia.
Qed.

(** C5 (what the code does): in the graph the roadmap planner
    constructs, here for a budget of two nodes, the handles are offset by
    the budget; the guard [n > node_list.size()] then takes the handle 3
    of the second stored node for an invalid one and [findNN] returns 0,
    although the first stored node is a neighbour in the sense of the
    specification: another node, not connected to it, within the
    threshold. *)
Theorem findNN_sized_rejects_stored (c : config) (th : dReal) :
  (DistMetric_Eval c c <= th)%Q ->
  let G := (addNodes (SpatialGraph_sized 2 th) [c; c]).2 in
  stored G 3 /\
  List.filter (is_neighbor G 3) (node_list G) = [mk_s_node c 2] /\
  findNN G 3 [] = (0%Z, []).
Proof.
  intros Hle G.
  assert (HG : G = {| max_nodes := 2; neigh_thresh := th;
                      node_list := [mk_s_node c 2; mk_s_node c 3];
                      p_graph := [[]; []; []; []] |}) by reflexivity.
  split; [|split].
  - rewrite HG. unfold stored. rewrite list_elem_of_In. simpl. intuition lia.
  - rewrite HG. unfold is_neighbor, getNode. simpl.
    apply Qle_bool_iff in Hle. by rewrite Hle.
  - apply findNN_beyond. rewrite HG. simpl. lia.
Qed.

End FindNN.

(** The guard of [findNN] is also off by one: with the dense handles of the
    default constructor, 3 is not a handle of a graph of three nodes, yet it
    passes the guard; the scan then runs with the empty configuration of
    the default node, and with the metric of the examples returns the three
    stored nodes instead of 0. *)
Example findNN_off_by_one :
  let G := (addNodes SpatialGraph_default [[0%Q]; [4%Q]; [8%Q]]).2 in
  ~ stored G 3 /\ @findNN L1Metric G 3 [] = (3%Z, node_list G).
Proof.
  split.
  - unfold stored. rewrite list_elem_of_In. simpl. intuition lia.
  - reflexivity.
Qed.

(** ** SpatialTree: [AddNode], [GetConfig], [GetNN] *)

Lemma AddNode_nodes (T : SpatialTree) p c :
  _nodes (AddNode T p c).2 = _nodes T ++ [mk_t_node p c].
Proof. reflexivity. Qed.

Lemma AddNode_index (T : SpatialTree) p c :
  (AddNode T p c).1 = Z.of_nat (length (_nodes T)).
Proof.
  unfold AddNode. simpl. rewrite length_app. simpl. lia.
Qed.

(** C10: [AddNode(p, q)] always succeeds; it appends the node, returns the
    new node count minus one, and [GetConfig] at the returned index yields
    exactly [q]. *)
Theorem AddNode_GetConfig (T : SpatialTree) (p : Z) (c : config) :
  let r := AddNode T p c in
  r.1 = (Z.of_nat (length (_nodes r.2)) - 1)%Z /\
  _nodes r.2 = _nodes T ++ [mk_t_node p c] /\
  GetConfig r.2 r.1 = Return c.
Proof.
  intros r. split; [reflexivity|]. split; [reflexivity|].
  unfold GetConfig. subst r. rewrite AddNode_index, AddNode_nodes.
  destruct (Z.ltb_spec (Z.of_nat (length (_nodes T))) 0); [lia|].
  rewrite Nat2Z.id, list_lookup_middle by done. reflexivity.
Qed.

Section Nearest.
Variable dist : config -> config -> dReal.
Variable q0 : config.

Lemma GetNN_step_scanned pre acc node :
  scanned dist q0 pre acc -> scanned dist q0 (pre ++ [node]) (GetNN_step dist q0 acc node).
Proof.
  destruct acc as [[ibest fbest] i]. intros [Hi Hpre]. unfold GetNN_step.
  assert (Hlen : (i + 1)%Z = Z.of_nat (length (pre ++ [node]))).
  { rewrite length_app. simpl. lia. }
  destruct pre as [|n0 pre'].
  - subst ibest. simpl in Hi. subst i. simpl. split; [done|].
    exists 0, node.
    split; [done|]. split; [done|]. split; [done|].
    intros n Hn. apply list_elem_of_singleton in Hn as ->. apply Qle_refl.
  - destruct Hpre as (k & nb & -> & Hk & -> & Hmin).
    assert (Hneg : (Z.of_nat k <? 0)%Z = false) by (apply Z.ltb_ge; lia).
    rewrite Hneg. cbn [orb].
    set (pre := n0 :: pre') in *.
    destruct (Qgt_bool (dist q0 (q nb)) (dist q0 (q node))) eqn:E.
    + apply Qgt_bool_true in E.
      split; [done|]. change ((n0 :: pre') ++ [node]) with (pre ++ [node]).
      destruct (pre ++ [node]) eqn:Eapp; [by destruct pre|]. rewrite <- Eapp.
      exists (length pre), node. split; [lia|].
      split; [by apply list_lookup_middle|]. split; [done|].
      intros n Hn. apply elem_of_app in Hn as [Hn|Hn].
      * apply Qle_trans with (dist q0 (q nb)); [by apply Qlt_le_weak|by apply Hmin].
      * apply list_elem_of_singleton in Hn as ->. apply Qle_refl.
    + apply Qgt_bool_false in E.
      split; [done|]. change ((n0 :: pre') ++ [node]) with (pre ++ [node]).
      destruct (pre ++ [node]) eqn:Eapp; [by destruct pre|]. rewrite <- Eapp.
      exists k, nb. split; [done|].
      split; [by apply lookup_app_l_Some|]. split; [done|].
      intros n Hn. apply elem_of_app in Hn as [Hn|Hn].
      * by apply Hmin.
      * by apply list_elem_of_singleton in Hn as ->.
Qed.

Lemma GetNN_scan_scanned (nodes pre : list t_node) acc :
  scanned dist q0 pre acc -> scanned dist q0 (pre ++ nodes) (foldl (GetNN_step dist q0) acc nodes).
Proof.
  revert pre acc. induction nodes as [|n nodes IH]; intros pre acc Hacc; simpl.
  - by rewrite app_nil_r.
  - replace (pre ++ n :: nodes) with ((pre ++ [n]) ++ nodes)
      by (by rewrite <- app_assoc).
    apply IH. by apply GetNN_step_scanned.
Qed.
End Nearest.

(** On a tree that has nodes and a metric, [GetNN] returns the index of a
    node no farther from the target than any other, and only records the
    distance found. *)
Lemma GetNN_nearest (T : SpatialTree) dist q0 :
  _nodes T <> [] -> _distmetricfn T = Some dist ->
  exists k node,
    GetNN T q0 = Return (Z.of_nat k, set_fBestDist T (dist q0 (q node))) /\
    _nodes T !! k = Some node /\
    forall n, n ∈ _nodes T -> (dist q0 (q node) <= dist q0 (q n))%Q.
Proof.
  intros Hne Hd. unfold GetNN. rewrite Hd.
  pose proof (GetNN_scan_scanned dist q0 (_nodes T) [] ((-1)%Z, 0%Q, 0%Z)) as Hs.
  simpl in Hs.
  destruct (foldl (GetNN_step dist q0) ((-1)%Z, 0%Q, 0%Z) (_nodes T))
    as [[ibest fbest] i].
  destruct (_nodes T) as [|n0 ns] eqn:En; [done|].
  destruct Hs as [_ (k & node & -> & Hk & -> & Hmin)]; [done|].
  by exists k, node.
Qed.

Lemma GetNN_empty (T : SpatialTree) q0 :
  _nodes T = [] -> GetNN T q0 = Return ((-1)%Z, T).
Proof. intros E. unfold GetNN. by rewrite E. Qed.

(** ** SpatialTree: [Extend] *)

Section Extension.
Context {CF : CollisionFunctions}.

(** On a tree with nodes, a metric and a live planner, [Extend] enters its
    loop at a nearest node, with only [_fBestDist] changed. *)
Lemma Extend_enters_loop fuel (T : SpatialTree) target bOneStep dist params :
  _nodes T <> [] -> _distmetricfn T = Some dist -> _planner T = Some params ->
  exists k node,
    _nodes T !! k = Some node /\
    (forall n, n ∈ _nodes T -> (dist target (q node) <= dist target (q n))%Q) /\
    Extend fuel T target bOneStep =
    Extend_loop fuel params target bOneStep
                (set_fBestDist T (dist target (q node))) (Z.of_nat k) node false.
Proof.
  intros Hne Hd Hp.
  destruct (GetNN_nearest T dist target Hne Hd) as (k & node & HNN & Hk & Hmin).
  exists k, node. split; [done|]. split; [done|].
  unfold Extend. rewrite HNN. cbn [lift run_bind].
  destruct (Z.ltb_spec (Z.of_nat k) 0); [lia|].
  rewrite Nat2Z.id. cbn [_nodes set_fBestDist _planner].
  by rewrite Hk, Hp.
Qed.

(** C6: if some node of the tree, hence the nearest one, is closer to the
    target than a tenth of the step length, [Extend] returns
    [ET_Connected] and the nodes of the tree are unchanged. The step
    length is taken not to be negative, or else the metric never to be:
    without either a negative "distance" could exceed the step length. *)
Theorem Extend_close_Connected (fuel : nat) (T : SpatialTree) (target : config)
    (bOneStep : bool) dist params (n : t_node) :
  _distmetricfn T = Some dist -> _planner T = Some params ->
  n ∈ _nodes T ->
  (dist target (q n) < (1 # 10) * _fStepLength T)%Q ->
  (0 <= _fStepLength T)%Q \/ (forall a b, 0 <= dist a b)%Q ->
  exists i T',
    Extend (S fuel) T target bOneStep = Some (Return (ET_Connected, i, T')) /\
    _nodes T' = _nodes T.
Proof.
  intros Hd Hp Hn Hclose Hsign.
  assert (Hne : _nodes T <> []) by (intros E; rewrite E in Hn; by apply elem_of_nil in Hn).
  destruct (Extend_enters_loop (S fuel) T target bOneStep dist params Hne Hd Hp)
    as (k & node & Hk & Hmin & ->).
  pose proof (Hmin n Hn) as Hle.
  cbn [Extend_loop _distmetricfn set_fBestDist _fStepLength]. rewrite Hd.
  assert (Hstep : (dist target (q node) <= _fStepLength T)%Q).
  { destruct Hsign as [Hs|Hs]; [lra|]. specialize (Hs target (q node)). lra. }
  apply Qgt_bool_false in Hstep.
  assert (Htenth : (dist target (q node) <= (1 # 10) * _fStepLength T)%Q) by lra.
  apply Qle_bool_iff in Htenth.
  unfold step_scale. rewrite Hstep, Htenth.
  eexists _, _. split; [reflexivity|]. reflexivity.
Qed.

(** A distance farther than a tenth of the step length is not close enough
    for [ET_Connected]. *)
Lemma step_scale_far fStepLength fdist :
  ((1 # 10) * fStepLength < fdist)%Q ->
  exists f, step_scale fStepLength fdist = Some f.
Proof.
  intros Hfar. unfold step_scale.
  destruct (Qgt_bool fdist fStepLength); [eauto|].
  destruct (Qle_bool fdist ((1 # 10) * fStepLength)) eqn:E; [|eauto].
  apply Qle_bool_iff in E. exfalso. by apply (Qlt_not_le _ _ Hfar).
Qed.

(** C7: let [n] be the nearest node, the one [GetNN] returns for the target,
    farther from it than a tenth of the step length. If the collision oracle
    rejects the segment the call queries, from [n] to the candidate
    configuration of the first step (when the projection to the constraints
    lets the step reach the oracle at all), [Extend] returns [ET_Failed]
    and the nodes of the tree are unchanged. No other segment is queried. *)
Theorem Extend_blocked_Failed (fuel : nat) (T : SpatialTree) (target : config)
    (bOneStep : bool) dist params (k : nat) (T1 : SpatialTree) (n : t_node) :
  _distmetricfn T = Some dist -> _planner T = Some params ->
  GetNN T target = Return (Z.of_nat k, T1) -> _nodes T !! k = Some n ->
  ((1 # 10) * _fStepLength T < dist target (q n))%Q ->
  (forall f v,
     step_scale (_fStepLength T) (dist target (q n)) = Some f ->
     candidate params dist (_dof T) (_fStepLength T) target n f = (true, v) ->
     CheckCollision params (q n) v = true) ->
  exists T',
    Extend (S fuel) T target bOneStep = Some (Return (ET_Failed, Z.of_nat k, T')) /\
    _nodes T' = _nodes T.
Proof.
  intros Hd Hp HNN Hk Hfar Hcol.
  assert (Hne : _nodes T <> []) by (intros E; by rewrite E in Hk).
  assert (HT1 : _nodes T1 = _nodes T /\ _planner T1 = _planner T /\
                _distmetricfn T1 = _distmetricfn T /\
                _fStepLength T1 = _fStepLength T /\ _dof T1 = _dof T).
  { destruct (GetNN_nearest T dist target Hne Hd) as (k' & n' & HNN' & _).
    rewrite HNN in HNN'. by simplify_eq. }
  destruct HT1 as (E1 & E2 & E3 & E4 & E5).
  unfold Extend. rewrite HNN. cbn [lift run_bind].
  destruct (Z.ltb_spec (Z.of_nat k) 0); [lia|].
  rewrite Nat2Z.id, E1, Hk, E2, Hp.
  cbn [Extend_loop]. rewrite E3, Hd, E4, E5.
  destruct (step_scale_far _ _ Hfar) as [f Hf]. rewrite Hf.
  specialize (Hcol f).
  destruct (candidate params dist (_dof T) (_fStepLength T) target n f) as [ok v].
  destruct ok; cbn [negb].
  - rewrite (Hcol v Hf eq_refl). eexists. split; [reflexivity|]. exact E1.
  - eexists. split; [reflexivity|]. exact E1.
Qed.

(** In particular when the oracle rejects every segment. *)
Lemma Extend_always_blocked (fuel : nat) (T : SpatialTree) (target : config)
    (bOneStep : bool) dist params :
  _nodes T <> [] ->
  _distmetricfn T = Some dist -> _planner T = Some params ->
  (forall n, n ∈ _nodes T -> ((1 # 10) * _fStepLength T < dist target (q n))%Q) ->
  (forall a b, CheckCollision params a b = true) ->
  exists i T',
    Extend (S fuel) T target bOneStep = Some (Return (ET_Failed, i, T')) /\
    _nodes T' = _nodes T.
Proof.
  intros Hne Hd Hp Hfar Hcol.
  destruct (Extend_enters_loop (S fuel) T target bOneStep dist params Hne Hd Hp)
    as (k & node & Hk & Hmin & ->).
  assert (Hn : node ∈ _nodes T) by (apply list_elem_of_lookup; eauto).
  specialize (Hfar node Hn).
  cbn [Extend_loop _distmetricfn set_fBestDist _fStepLength _dof]. rewrite Hd.
  destruct (step_scale_far _ _ Hfar) as [f ->].
  destruct (candidate _ _ _ _ _ _ _) as [ok v].
  destruct ok; cbn [negb]; [rewrite Hcol|];
    (eexists _, _; split; [reflexivity|reflexivity]).
Qed.

End Extension.

(** ** SpatialTree: the shape of the trees of the planner *)

Lemma tree_shape_nodes root (T T' : SpatialTree) :
  _nodes T' = _nodes T -> tree_shape root T -> tree_shape root T'.
Proof. unfold tree_shape. by intros ->. Qed.

Lemma tree_shape_root root (T : SpatialTree) c :
  _nodes T = [] -> tree_shape root (AddNode T root c).2.
Proof.
  intros E. unfold tree_shape. rewrite AddNode_nodes, E. simpl. split.
  - by exists c.
  - intros i n Hi Hl. destruct i; [lia|]. done.
Qed.

Lemma tree_shape_snoc root (T T' : SpatialTree) p c :
  tree_shape root T ->
  (0 <= p < Z.of_nat (length (_nodes T)))%Z ->
  _nodes T' = _nodes T ++ [mk_t_node p c] ->
  tree_shape root T'.
Proof.
  intros [[c0 Hroot] Hrest] Hp E. unfold tree_shape. rewrite E. split.
  - exists c0. by apply lookup_app_l_Some.
  - intros i n Hi Hl.
    destruct (decide (i < length (_nodes T))) as [Hlt|Hge].
    + rewrite lookup_app_l in Hl by done. by apply Hrest.
    + destruct (decide (i = length (_nodes T))) as [->|Hne].
      * rewrite list_lookup_middle in Hl by done. by simplify_eq/=.
      * rewrite lookup_ge_None_2 in Hl; [done|]. rewrite length_app. simpl. lia.
Qed.

Section Growth.
Context {CF : CollisionFunctions}.

Lemma Extend_loop_shape root fuel :
  forall params target bOneStep (T : SpatialTree) lastindex pnode bHasAdded r i T',
  tree_shape root T ->
  (0 <= lastindex < Z.of_nat (length (_nodes T)))%Z ->
  Extend_loop fuel params target bOneStep T lastindex pnode bHasAdded
    = Some (Return (r, i, T')) ->
  tree_shape root T' /\ (0 <= i < Z.of_nat (length (_nodes T')))%Z.
Proof.
  induction fuel as [|fuel IH]; intros * Hshape Hidx Hrun; [done|].
  cbn [Extend_loop] in Hrun.
  destruct (_distmetricfn T) as [dist|]; [|done].
  destruct (step_scale _ _) as [f|].
  2:{ unfold ret in Hrun. by simplify_eq. }
  destruct (candidate _ _ _ _ _ _ _) as [ok v].
  destruct ok; cbn [negb] in Hrun.
  2:{ unfold ret in Hrun. simplify_eq. done. }
  destruct (CheckCollision params (q pnode) v).
  { unfold ret in Hrun. simplify_eq. done. }
  destruct (AddNode (set_vNewConfig T v) lastindex v) as [j T2] eqn:EA.
  pose proof (AddNode_index (set_vNewConfig T v) lastindex v) as Hj.
  pose proof (AddNode_nodes (set_vNewConfig T v) lastindex v) as HT2.
  rewrite EA in Hj, HT2. cbn [fst snd _nodes set_vNewConfig] in Hj, HT2.
  assert (Hshape2 : tree_shape root T2) by by eapply tree_shape_snoc.
  assert (Hidx2 : (0 <= j < Z.of_nat (length (_nodes T2)))%Z).
  { rewrite HT2, length_app. simpl. lia. }
  destruct (_nodes T2 !! Z.to_nat j) as [pnode2|]; [|done].
  destruct bOneStep.
  - unfold ret in Hrun. by simplify_eq.
  - by eapply IH.
Qed.

Lemma Extend_shape root fuel (T : SpatialTree) target bOneStep r i T' :
  tree_shape root T ->
  Extend fuel T target bOneStep = Some (Return (r, i, T')) ->
  tree_shape root T'.
Proof.
  intros Hshape Hrun.
  assert (Hne : _nodes T <> []).
  { destruct Hshape as [[c Hc] _]. intros E. by rewrite E in Hc. }
  unfold Extend in Hrun.
  destruct (_distmetricfn T) as [dist|] eqn:Hd.
  - destruct (GetNN_nearest T dist target Hne Hd) as (k & node & HNN & Hk & _).
    rewrite HNN in Hrun. cbn [lift run_bind] in Hrun.
    destruct (Z.ltb_spec (Z.of_nat k) 0); [lia|].
    rewrite Nat2Z.id in Hrun. cbn [_nodes set_fBestDist _planner] in Hrun.
    rewrite Hk in Hrun.
    destruct (_planner T) as [params|]; [|done].
    apply (Extend_loop_shape root) in Hrun as [H1 _]; [done|done|].
    cbn [_nodes set_fBestDist]. apply lookup_lt_Some in Hk. lia.
  - unfold GetNN in Hrun. rewrite Hd in Hrun.
    destruct (_nodes T); done.
Qed.

(** In a tree produced by the insertion of one root followed by calls to
    [Extend], the root carries the parent value passed at its insertion
    and every other node's parent is a valid index strictly less than the
    node's own. *)
Lemma grown_tree_shape (root : Z) (T : SpatialTree) :
  grown root T -> tree_shape root T.
Proof.
  induction 1 as [T c E|T fuel target bOneStep r i T' _ IH Hrun].
  - by apply tree_shape_root.
  - by eapply Extend_shape.
Qed.

End Growth.

(** ** The tree planner *)

Lemma run_bind_Return {A B} (m : run A) (k : A -> run B) b :
  run_bind m k = Some (Return b) ->
  exists a, m = Some (Return a) /\ k a = Some (Return b).
Proof.
  destruct m as [[a|e]|]; simpl; [eauto|done|done].
Qed.

(** Inversion of a [do] step that returned. *)
Ltac run_inv H :=
  let x := fresh "x" in
  let Hx := fresh "Hx" in
  apply run_bind_Return in H as (x & Hx & H).

Lemma tree_shape_nonempty root (T : SpatialTree) :
  tree_shape root T -> _nodes T <> [].
Proof. intros [[c Hc] _] E. by rewrite E in Hc. Qed.

Section Planner.
Context {CF : CollisionFunctions}.

Lemma buildTrees_round_inv a b fuel (P : SBLPlanner) start_id goal_id P' continued :
  shapes a b P ->
  buildTrees_round fuel P start_id goal_id = Some (Return (P', continued)) ->
  shapes a b P' /\ l_pathnodes P' = l_pathnodes P /\
  (b_connected P = true -> b_connected P' = true).
Proof.
  intros [Hs Hg] Hrun. unfold buildTrees_round in Hrun.
  run_inv Hrun. rename x into c0.
  run_inv Hrun. destruct x as [[e0 i0] ts0].
  apply Extend_shape with (root := a) in Hx0; [|done].
  run_inv Hrun. destruct x as [[ets i_start_index] ts].
  apply Extend_shape with (root := a) in Hx1; [|done].
  cbn [t_goal t_start set_trees] in Hrun.
  assert (Hfail : forall Q, ret (set_trees P ts (t_goal P), true) = Some (Return Q) ->
                            shapes a b Q.1 /\ l_pathnodes Q.1 = l_pathnodes P /\
                            (b_connected P = true -> b_connected Q.1 = true)).
  { intros Q HQ. unfold ret in HQ. by simplify_eq. }
  assert (Hgo :
    (do c1 <- lift (GetConfig (t_goal P) goal_id);
     do (_, _, tg) <- Extend fuel (t_goal P) c1 false;
     do c2 <- lift (GetConfig ts i_start_index);
     do (etg, _, tg) <- Extend fuel tg c2 false;
     let P := set_trees (set_trees P ts (t_goal P)) ts tg in
     match etg with
     | ET_Connected => ret (set_connected P true, false)
     | _ => ret (P, false)
     end) = Some (Return (P', continued)) ->
    shapes a b P' /\ l_pathnodes P' = l_pathnodes P /\
    (b_connected P = true -> b_connected P' = true)).
  { clear Hrun Hfail. intros Hrun.
    run_inv Hrun. rename x into c1.
    run_inv Hrun. destruct x as [[e1 i1] tg0].
    apply Extend_shape with (root := b) in Hx3; [|done].
    run_inv Hrun. rename x into c2.
    run_inv Hrun. destruct x as [[etg i2] tg].
    apply Extend_shape with (root := b) in Hx5; [|done].
    unfold ret in Hrun. destruct etg; by simplify_eq. }
  destruct ets; [apply (Hfail (P', continued) Hrun)|by apply Hgo..].
Qed.

Lemma buildTrees_inv fuel samples start_id goal_id :
  forall a b (P P' : SBLPlanner),
  shapes a b P ->
  buildTrees fuel samples P start_id goal_id = Some (Return P') ->
  (shapes a b P' \/ shapes b a P') /\
  l_pathnodes P' = l_pathnodes P /\ b_connected P' = true.
Proof.
  induction samples as [|s samples IH]; intros a b P P' Hsh Hrun.
  - simpl in Hrun. destruct (b_connected P) eqn:Hc; [|done].
    unfold ret in Hrun. simplify_eq. auto.
  - cbn [buildTrees] in Hrun. destruct (b_connected P) eqn:Hc.
    { unfold ret in Hrun. simplify_eq. auto. }
    destruct s as [c|].
    + run_inv Hrun. destruct x as [P1 continued].
      apply (buildTrees_round_inv a b) in Hx as (Hsh1 & Hl1 & _);
        [|by destruct Hsh].
      destruct continued.
      * apply (IH a b) in Hrun as (H1 & H2 & H3); [|done].
        split; [done|]. split; [|done]. by rewrite H2, Hl1.
      * apply (IH b a) in Hrun as (H1 & H2 & H3); [|by destruct Hsh1].
        split; [tauto|]. split; [|done].
        rewrite H2. cbn [l_pathnodes swap_trees set_trees]. by rewrite Hl1.
    + apply (IH b a) in Hrun as (H1 & H2 & H3); [|by destruct Hsh].
      split; [tauto|]. by split.
Qed.

Lemma emit_nil dof pt ptraj : emit dof pt [] ptraj = ptraj.
Proof. reflexivity. Qed.

Lemma emit_length dof path : forall pt ptraj,
  length (emit dof pt path ptraj) = length ptraj + length path.
Proof.
  induction path as [|n path IH]; intros pt ptraj; simpl; [lia|].
  rewrite IH, length_app. simpl. lia.
Qed.

(** What a call of [PlanPath] that returns on an initialised planner with
    empty trees leaves: the value true, the connection flag set, the two
    trees with the roots 0 and 1000, the path list as it was, and one
    trajectory point per node of that list. *)
Lemma PlanPath_returns fuel samples (P : SBLPlanner) params ptraj b P' ptraj' :
  p_parameters P = Some params ->
  _nodes (t_start P) = [] -> _nodes (t_goal P) = [] ->
  PlanPath fuel samples P ptraj = Some (Return (b, P'), ptraj') ->
  b = true /\ b_connected P' = true /\
  (shapes 0 1000 P' \/ shapes 1000 0 P') /\
  l_pathnodes P' = l_pathnodes P /\
  ptraj' = emit (GetDOF params) (replicate (Z.to_nat (GetDOF params)) 0%Q)
                (l_pathnodes P) ptraj.
Proof.
  intros Hp Es Eg Hrun. unfold PlanPath in Hrun. rewrite Hp in Hrun.
  destruct (AddNode (t_start P) 0 (vinitialconfig params)) as [s_id ts] eqn:E1.
  destruct (AddNode (t_goal P) 1000 (vgoalconfig params)) as [g_id tg] eqn:E2.
  destruct (buildTrees fuel samples (set_trees P ts tg) s_id g_id)
    as [[P1|e]|] eqn:Eb; [|done..].
  simplify_eq.
  apply (buildTrees_inv _ _ _ _ 0%Z 1000%Z) in Eb as (H1 & H2 & H3).
  - rewrite H2. by cbn [l_pathnodes set_trees].
  - split; cbn [t_start t_goal set_trees].
    + replace ts with (AddNode (t_start P) 0 (vinitialconfig params)).2
        by by rewrite E1.
      by apply tree_shape_root.
    + replace tg with (AddNode (t_goal P) 1000 (vgoalconfig params)).2
        by by rewrite E2.
      by apply tree_shape_root.
Qed.

(** When an exception leaves [PlanPath], or the planner is not
    initialised, the trajectory is the caller's. *)
Lemma PlanPath_Throw fuel samples (P : SBLPlanner) ptraj e ptraj' :
  PlanPath fuel samples P ptraj = Some (Throw e, ptraj') -> ptraj' = ptraj.
Proof.
  unfold PlanPath. destruct (p_parameters P) as [params|]; [|done].
  destruct (AddNode _ _ _) as [s_id ts].
  destruct (AddNode _ _ _) as [g_id tg].
  destruct (buildTrees _ _ _ _ _) as [[P1|e1]|]; [done| |done].
  by intros [= _ ->].
Qed.

Lemma PlanPath_uninitialised fuel samples (P : SBLPlanner) ptraj :
  p_parameters P = None ->
  PlanPath fuel samples P ptraj = Some (Return (false, P), ptraj).
Proof. intros E. unfold PlanPath. by rewrite E. Qed.

End Planner.

(** What [PlanPath] does as the planner is shipped: [InitPlan] leaves both
    trees without a metric and without a planner, so the first call to
    [Extend], on the first successful sample, throws out of [PlanPath]. *)
Lemma PlanPath_as_shipped `{CollisionFunctions} fuel c samples params dof ptraj :
  PlanPath fuel (Some c :: samples) (InitPlan params dof) ptraj
  = Some (Throw bad_function_call, ptraj).
Proof. reflexivity. Qed.

(** C9 (what the code does): [PlanPath] never traces a path. On a planner
    with an empty path list and empty trees, as [InitPlan] leaves it, the
    trajectory is returned as it was received whatever the outcome; and
    when the call returns on an initialised planner, it returns true with
    the trees connected and non-empty, the path list still empty. *)
Theorem PlanPath_emits_no_point `{CollisionFunctions} (fuel : nat)
    (samples : list (option config)) (P : SBLPlanner) (ptraj : list config)
    o (ptraj' : list config) :
  l_pathnodes P = [] -> _nodes (t_start P) = [] -> _nodes (t_goal P) = [] ->
  PlanPath fuel samples P ptraj = Some (o, ptraj') ->
  ptraj' = ptraj /\
  forall b P', o = Return (b, P') -> p_parameters P <> None ->
    b = true /\ b_connected P' = true /\
    _nodes (t_start P') <> [] /\ _nodes (t_goal P') <> [] /\
    l_pathnodes P' = [].
Proof.
  intros Hl Es Eg Hrun. destruct o as [[b P']|e].
  - destruct (p_parameters P) as [params|] eqn:Hp.
    + destruct (PlanPath_returns _ _ _ _ _ _ _ _ Hp Es Eg Hrun)
        as (Hb & Hc & Hsh & Hl' & Ht).
      rewrite Hl in Ht, Hl'. split; [done|].
      intros b0 P0 [= <- <-] _. split; [done|]. split; [done|].
      destruct Hsh as [[H1 H2]|[H1 H2]];
        eauto using tree_shape_nonempty.
    + rewrite PlanPath_uninitialised in Hrun by done. simplify_eq.
      split; [done|]. intros b0 P0 [= <- <-] Hne. done.
  - split; [by eapply PlanPath_Throw|]. intros b P' [=].
Qed.

(** A run on a planner whose trees have been given a metric and a planner:
    the goal is within a tenth of a step of the start, the trees connect in
    the first round and [PlanPath] returns true. The path has two nodes, the
    two roots; no point is appended to the trajectory. The roots carry the
    parent values 0 and 1000 (the trees are swapped at the end of the
    round). *)
Example PlanPath_connected_run :
  match @PlanPath FreeSpace 5 [Some [0%Q]]
          (wired_planner (example_params [0%Q] [(1 # 1000)%Q])) [] with
  | Some (Return (b, P'), ptraj') =>
      b = true /\ b_connected P' = true /\ ptraj' = [] /\
      _nodes (t_start P') = [mk_t_node 1000 [(1 # 1000)%Q]] /\
      _nodes (t_goal P') = [mk_t_node 0 [0%Q]]
  | _ => False
  end.
Proof. vm_compute. repeat split. Qed.

(** C8, as stated, fails. In the trees of the run above the roots carry
    the parent values 1000 and 0, not the sentinel -1; so do the trees right
    after the two insertions of [PlanPath]. And a second call of
    [PlanPath] inserts the two roots again: node 1 of each tree then has
    the parent value 1000, respectively 0, which is not the index of an
    earlier node in the first case, so that no root value gives these
    trees the shape of the claim. *)
Lemma planner_roots_not_sentinel :
  match @PlanPath FreeSpace 5 [Some [0%Q]]
          (wired_planner (example_params [0%Q] [(1 # 1000)%Q])) [] with
  | Some (Return (_, P'), _) =>
      ~ tree_shape (-1) (t_start P') /\ ~ tree_shape (-1) (t_goal P') /\
      match @PlanPath FreeSpace 5 [] P' [] with
      | Some (Return (_, P''), _) =>
          parent <$> _nodes (t_start P'') = [1000%Z; 0%Z] /\
          parent <$> _nodes (t_goal P'') = [0%Z; 1000%Z] /\
          forall root, ~ tree_shape root (t_goal P'')
      | _ => False
      end
  | _ => False
  end /\
  ~ tree_shape (-1) (AddNode SpatialTree_new 0 [0%Q]).2 /\
  ~ tree_shape (-1) (AddNode SpatialTree_new 1000 [0%Q]).2.
Proof.
  split; [|split].
  - cbv -[tree_shape]. split; [|split; [|split; [|split]]].
    + intros [[c Hc] _]; discriminate Hc.
    + intros [[c Hc] _]; discriminate Hc.
    + reflexivity.
    + reflexivity.
    + intros root [_ H]. specialize (H 1 _ (Nat.lt_0_1) eq_refl).
      cbn [parent] in H. lia.
  - intros [[c Hc] _]. discriminate Hc.
  - intros [[c Hc] _]. discriminate Hc.
Qed.

(** ** Graph search: what the maps record *)

(** The queue only yields gray vertices. *)
Lemma top_gray (key : list Z) (color : list Color) u :
  top key color = Some u -> color !! u = Some gray.
Proof.
  unfold top.
  assert (Hgen : forall l best,
    (forall b, best = Some b -> color !! b = Some gray) ->
    foldl (fun best v =>
             match color !! v with
             | Some gray =>
               match best with
               | None => Some v
               | Some b =>
                 if (default 0 (key !! v) <? default 0 (key !! b))%Z
                 then Some v else best
               end
             | _ => best
             end) best l = Some u -> color !! u = Some gray).
  { induction l as [|v l IH]; intros best Hbest Hu; simpl in Hu.
    - by apply Hbest.
    - apply IH in Hu; [done|]. intros b Hb.
      destruct (color !! v) as [[]|] eqn:Ev; try by apply Hbest.
      destruct best as [b0|].
      + destruct (_ <? _)%Z; [by simplify_eq|by apply Hbest].
      + by simplify_eq. }
  apply Hgen. done.
Qed.

Lemma search_inv_init (g : s_graph) n s h_s : search_inv g s (init_maps n s h_s).
Proof.
  split; simpl.
  - intros v c Hv Hc. apply list_lookup_insert_Some in Hv as [(-> & _ & _)|[_ Hv]].
    + apply rtc_refl.
    + apply lookup_replicate in Hv as [-> _]. done.
  - intros v p Hv Hp. apply lookup_seq in Hv as [-> _]. done.
Qed.

Lemma search_inv_set_color g s st v c :
  search_inv g s st -> reachable g s v -> search_inv g s (set_color st v c).
Proof.
  intros [Hc Hp] Hv. split; simpl; [|done].
  intros x cx Hx Hw. apply list_lookup_insert_Some in Hx as [(-> & _ & _)|[_ Hx]].
  - done.
  - by eapply Hc.
Qed.

Lemma search_inv_set_cost g s st v c :
  search_inv g s st -> search_inv g s (set_cost st v c).
Proof. intros [Hc Hp]. by split. Qed.

Lemma search_inv_relax g s st u v w :
  search_inv g s st -> reachable g s v -> search_inv g s (relax u v w st).2.
Proof.
  intros [Hc Hp] Hv. unfold relax. destruct (_ <? _)%Z; [|done].
  split; simpl; [done|].
  intros x px Hx Hne. apply list_lookup_insert_Some in Hx as [(-> & _ & _)|[_ Hx]].
  - done.
  - by eapply Hp.
Qed.

Lemma search_inv_examine_edge g s h u v w st st' :
  search_inv g s st -> reachable g s v ->
  examine_edge h u (v, w) st = Return st' -> search_inv g s st'.
Proof.
  intros Hinv Hv. unfold examine_edge.
  destruct (to_int w <? 0)%Z; [done|].
  pose proof (search_inv_relax g s st u v w Hinv Hv) as Hr.
  destruct (relax u v w st) as [decreased st1]. simpl in Hr.
  assert (Hcost : search_inv g s
            match h with
            | Some h0 => set_cost st1 v (closed_plus (distance_of st1 v) (to_int (h0 v)))
            | None => st1
            end).
  { destruct h; [by apply search_inv_set_cost|done]. }
  destruct (color_of st v).
  - intros [= <-]. apply search_inv_set_color; [|done]. by destruct decreased.
  - intros [= <-]. by destruct decreased.
  - destruct h as [h0|]; intros [= <-]; [|done].
    destruct decreased; [|done]. by apply search_inv_set_color.
Qed.

Lemma search_inv_examine_edges g s h u es : forall st,
  search_inv g s st ->
  (forall v w, (v, w) ∈ es -> reachable g s v) ->
  search_inv g s (examine_edges h u es st).2.
Proof.
  induction es as [|[v w] es IH]; intros st Hinv Hes; cbn [examine_edges]; [done|].
  destruct (examine_edge h u (v, w) st) as [st1|x] eqn:E; [|done].
  apply IH.
  - eapply search_inv_examine_edge; [done| |done]. apply (Hes v w). by left.
  - intros v' w' Hin. apply (Hes v' w'). by right.
Qed.

(** The targets of the out-edges of a reached vertex are reached. *)
Lemma out_edges_reachable (g : s_graph) s u v w :
  reachable g s u -> (v, w) ∈ out_edges u g -> reachable g s v.
Proof.
  intros Hu Hin. eapply rtc_r; [exact Hu|].
  unfold adjacent_vertices. apply list_elem_of_fmap. by exists (v, w).
Qed.

Lemma search_inv_visit g s h u st :
  search_inv g s st -> m_color st !! u = Some gray ->
  search_inv g s (set_color (examine_edges h u (out_edges u g) st).2 u black).
Proof.
  intros Hinv Hu.
  assert (Hru : reachable g s u) by (by eapply (inv_color g s st Hinv)).
  apply search_inv_set_color; [|done].
  apply search_inv_examine_edges; [done|].
  intros v w Hin. by eapply out_edges_reachable.
Qed.

Lemma dijkstra_loop_inv g s fuel : forall st o st',
  search_inv g s st -> dijkstra_loop fuel g st = Some (o, st') ->
  search_inv g s st'.
Proof.
  induction fuel as [|fuel IH]; intros st o st' Hinv Hrun; cbn [dijkstra_loop astar_loop] in Hrun.
  - destruct (top _ _); [done|]. by simplify_eq.
  - destruct (top _ _) as [u|] eqn:Et; [|by simplify_eq].
    apply top_gray in Et.
    pose proof (search_inv_visit g s None u st Hinv Et) as Hv.
    pose proof (search_inv_examine_edges g s None u (out_edges u g) st Hinv) as He.
    destruct (examine_edges None u (out_edges u g) st) as [[x|] st1].
    + simplify_eq. apply He. intros v w Hin.
      eapply out_edges_reachable; [|done]. by eapply (inv_color g s st Hinv).
    + by eapply IH.
Qed.

Lemma astar_loop_inv g s h m_goal fuel : forall st o st',
  search_inv g s st -> astar_loop fuel g h m_goal st = Some (o, st') ->
  search_inv g s st' /\ (o = Some found_goal -> reachable g s m_goal).
Proof.
  induction fuel as [|fuel IH]; intros st o st' Hinv Hrun; cbn [dijkstra_loop astar_loop] in Hrun.
  - destruct (top _ _); [done|]. by simplify_eq.
  - destruct (top _ _) as [u|] eqn:Et; [|by simplify_eq].
    apply top_gray in Et.
    assert (Hru : reachable g s u) by (by eapply (inv_color g s st Hinv)).
    destruct (decide (u = m_goal)) as [->|Hne]; [by simplify_eq|].
    pose proof (search_inv_visit g s (Some h) u st Hinv Et) as Hv.
    pose proof (search_inv_examine_edges g s (Some h) u (out_edges u g) st Hinv) as He.
    destruct (examine_edges (Some h) u (out_edges u g) st) as [[x|] st1] eqn:Ee.
    + simplify_eq. split.
      * apply He. intros v w Hin. by eapply out_edges_reachable.
      * intros [= ->]. exfalso. clear -Ee.
        revert st Ee. induction (out_edges u g) as [|e es IHes]; intros st Ee;
          cbn [examine_edges] in Ee; [done|].
        destruct (examine_edge (Some h) u e st) as [st2|y] eqn:E1.
        -- by eapply IHes.
        -- simplify_eq. unfold examine_edge in E1. destruct e as [v w].
           destruct (to_int w <? 0)%Z; [done|].
           destruct (color_of st' v); destruct (relax u v w st'); done.
    + by eapply IH.
Qed.

Lemma examine_edge_pred_length h u e st st' :
  examine_edge h u e st = Return st' ->
  length (m_predecessor st') = length (m_predecessor st).
Proof.
  unfold examine_edge. destruct e as [v w].
  destruct (to_int w <? 0)%Z; [done|].
  assert (Hr : length (m_predecessor (relax u v w st).2) = length (m_predecessor st)).
  { unfold relax. destruct (_ <? _)%Z; simpl; [by rewrite length_insert|done]. }
  destruct (relax u v w st) as [decreased st1]. simpl in Hr.
  destruct (color_of st v), decreased, h; intros [= <-]; done.
Qed.

Lemma examine_edges_pred_length h u es : forall st,
  length (m_predecessor (examine_edges h u es st).2) = length (m_predecessor st).
Proof.
  induction es as [|e es IH]; intros st; cbn [examine_edges]; [done|].
  destruct (examine_edge h u e st) as [st1|x] eqn:E; [|done].
  rewrite IH. by eapply examine_edge_pred_length.
Qed.

Lemma dijkstra_loop_pred_length g fuel : forall st o st',
  dijkstra_loop fuel g st = Some (o, st') ->
  length (m_predecessor st') = length (m_predecessor st).
Proof.
  induction fuel as [|fuel IH]; intros st o st' Hrun; cbn [dijkstra_loop] in Hrun.
  - destruct (top _ _); [done|]. by simplify_eq.
  - destruct (top _ _) as [u|]; [|by simplify_eq].
    pose proof (examine_edges_pred_length None u (out_edges u g) st) as He.
    destruct (examine_edges None u (out_edges u g) st) as [[x|] st1].
    + by simplify_eq.
    + apply IH in Hrun. by rewrite Hrun.
Qed.

(** After Dijkstra's search a vertex that is not reached from the source is
    its own predecessor. *)
Lemma dijkstra_unreached_pred fuel (g : s_graph) s o st t :
  dijkstra_shortest_paths fuel g s = Some (o, st) ->
  t < num_vertices g -> ~ reachable g s t ->
  pred_of (m_predecessor st) t = t.
Proof.
  unfold dijkstra_shortest_paths. intros Hrun Ht Hun.
  pose proof (dijkstra_loop_pred_length _ _ _ _ _ Hrun) as Hlen.
  apply (dijkstra_loop_inv g s) in Hrun; [|apply search_inv_init].
  simpl in Hlen. rewrite length_seq in Hlen.
  unfold pred_of.
  destruct (m_predecessor st !! t) as [p|] eqn:Ep.
  - simpl. destruct (decide (p = t)) as [|Hne]; [done|].
    exfalso. apply Hun. by eapply (inv_pred g s st Hrun).
  - apply lookup_ge_None in Ep. lia.
Qed.

(** ** Graph search: termination *)

Lemma sum_list_with_insert {A} (f : A -> nat) (l : list A) i x y :
  l !! i = Some y ->
  sum_list_with f (<[i := x]> l) + f y = sum_list_with f l + f x.
Proof.
  revert i. induction l as [|a l IH]; intros i Hi; [done|].
  destruct i as [|i]; simpl in *.
  - simplify_eq. lia.
  - specialize (IH i Hi). lia.
Qed.

Lemma closed_plus_nonneg a b : (0 <= a)%Z -> (0 <= b)%Z -> (0 <= closed_plus a b)%Z.
Proof.
  intros Ha Hb. unfold closed_plus, int_max.
  destruct (a =? _)%Z; [lia|]. destruct (b =? _)%Z; lia.
Qed.

Lemma distance_of_nonneg st v : dist_nonneg st -> (0 <= distance_of st v)%Z.
Proof.
  intros Hst. unfold distance_of.
  destruct (m_distance st !! v) as [d|] eqn:E; simpl; [by eapply Hst|lia].
Qed.

Lemma dist_nonneg_init n s h_s : dist_nonneg (init_maps n s h_s).
Proof.
  intros v d. simpl. intros Hv.
  apply list_lookup_insert_Some in Hv as [(_ & <- & _)|[_ Hv]]; [lia|].
  apply lookup_replicate in Hv as [-> _]. unfold int_max. lia.
Qed.

(** A relaxation keeps the colours; when it decreases a distance the sum of
    the distance weights drops by at least two. *)
Lemma relax_potential u v w st :
  dist_nonneg st -> (0 <= to_int w)%Z ->
  dist_nonneg (relax u v w st).2 /\
  m_color (relax u v w st).2 = m_color st /\
  if (relax u v w st).1
  then sum_list_with distance_weight (m_distance (relax u v w st).2) + 2
       <= sum_list_with distance_weight (m_distance st)
  else (relax u v w st).2 = st.
Proof.
  intros Hst Hw. unfold relax.
  pose proof (closed_plus_nonneg _ _ (distance_of_nonneg st u Hst) Hw) as Hd.
  set (d_uv := closed_plus (distance_of st u) (to_int w)) in *.
  destruct (Z.ltb_spec d_uv (distance_of st v)) as [Hlt|Hge]; simpl; [|done].
  split; [|split; [done|]].
  - intros x d Hx. apply list_lookup_insert_Some in Hx as [(_ & <- & _)|[_ Hx]];
      [done|by eapply Hst].
  - unfold distance_of in Hlt.
    destruct (m_distance st !! v) as [dv|] eqn:Ev; simpl in Hlt; [|lia].
    pose proof (sum_list_with_insert distance_weight _ v d_uv dv Ev) as Hs.
    unfold distance_weight in *. lia.
Qed.

Lemma set_cost_potential st v c :
  potential (set_cost st v c) = potential st /\
  (dist_nonneg st -> dist_nonneg (set_cost st v c)) /\
  m_color (set_cost st v c) = m_color st.
Proof. done. Qed.

(** Recolouring a vertex gray: the weight of the colours grows by at most
    one, and only if the vertex was black. *)
Lemma set_color_gray_weight (colors : list Color) v :
  sum_list_with color_weight (<[v := gray]> colors)
  <= sum_list_with color_weight colors
     + (if decide (colors !! v = Some black) then 1 else 0).
Proof.
  destruct (colors !! v) as [c|] eqn:E.
  - pose proof (sum_list_with_insert color_weight _ v gray c E) as Hs.
    destruct c; simpl in Hs; case_decide; simplify_eq; lia.
  - rewrite list_insert_ge by (by apply lookup_ge_None). lia.
Qed.

Lemma insert_gray_keeps_gray (colors : list Color) v x :
  colors !! x = Some gray -> <[v := gray]> colors !! x = Some gray.
Proof.
  intros Hx. destruct (decide (v = x)) as [->|Hne].
  - rewrite list_lookup_insert_eq; [done|]. by eapply lookup_lt_Some.
  - by rewrite list_lookup_insert_ne.
Qed.

(** Examining an edge does not raise the measure and leaves gray vertices
    gray. *)
Lemma examine_edge_potential h u e st st' :
  dist_nonneg st -> examine_edge h u e st = Return st' ->
  dist_nonneg st' /\ potential st' <= potential st /\
  forall x, m_color st !! x = Some gray -> m_color st' !! x = Some gray.
Proof.
  intros Hst. unfold examine_edge. destruct e as [v w].
  destruct (Z.ltb_spec (to_int w) 0) as [|Hw]; [done|].
  destruct (relax_potential u v w st Hst Hw) as (Hn & Hc & Hp).
  destruct (relax u v w st) as [decreased st1]. cbn [fst snd] in Hn, Hc, Hp.
  set (recost := match h with
                 | Some h0 => set_cost st1 v (closed_plus (distance_of st1 v) (to_int (h0 v)))
                 | None => st1
                 end).
  assert (Hre : potential recost = potential st1 /\ dist_nonneg recost /\
                m_color recost = m_color st1).
  { unfold recost. destruct h; [|done]. by split; [|split]. }
  destruct Hre as (Hre1 & Hre2 & Hre3).
  assert (Hpot1 : decreased = true -> potential st1 + 2 <= potential st).
  { intros ->. unfold potential. rewrite Hc. lia. }
  assert (Hpot0 : decreased = false -> st1 = st) by (by intros ->).
  pose proof (set_color_gray_weight (m_color st) v) as Hg.
  unfold color_of. destruct (m_color st !! v) as [c|] eqn:Ev; simpl.
  - destruct c.
    + intros [= <-]. rewrite decide_False in Hg by done.
      destruct decreased.
      * split; [done|]. split.
        -- unfold potential in *. cbn [set_color m_color m_distance].
           rewrite Hre3, Hc. unfold recost in *. destruct h; simpl in *; lia.
        -- intros x Hx. cbn [set_color m_color]. rewrite Hre3, Hc.
           by apply insert_gray_keeps_gray.
      * rewrite (Hpot0 eq_refl). split; [done|]. split.
        -- unfold potential. cbn [set_color m_color m_distance]. lia.
        -- intros x Hx. cbn [set_color m_color]. by apply insert_gray_keeps_gray.
    + intros [= <-]. destruct decreased.
      * split; [done|]. split; [specialize (Hpot1 eq_refl); lia|].
        intros x Hx. by rewrite Hre3, Hc.
      * by rewrite (Hpot0 eq_refl).
    + destruct h as [h0|]; intros [= <-]; [|done].
      rewrite decide_True in Hg by done.
      destruct decreased; [|by rewrite (Hpot0 eq_refl)].
      split; [done|]. split.
      * specialize (Hpot1 eq_refl). unfold potential in *.
        cbn [set_color m_color m_distance]. rewrite Hre3, Hc.
        unfold recost in *. simpl in *. lia.
      * intros x Hx. cbn [set_color m_color]. rewrite Hre3, Hc.
        by apply insert_gray_keeps_gray.
  - intros [= <-]. rewrite decide_False in Hg by done.
    destruct decreased.
    + split; [done|]. split.
      * specialize (Hpot1 eq_refl). unfold potential in *.
        cbn [set_color m_color m_distance]. rewrite Hre3, Hc.
        unfold recost in *. destruct h; simpl in *; lia.
      * intros x Hx. cbn [set_color m_color]. rewrite Hre3, Hc.
        by apply insert_gray_keeps_gray.
    + rewrite (Hpot0 eq_refl). split; [done|]. split.
      * unfold potential. cbn [set_color m_color m_distance]. lia.
      * intros x Hx. cbn [set_color m_color]. by apply insert_gray_keeps_gray.
Qed.

Lemma examine_edges_potential h u es : forall st,
  dist_nonneg st ->
  dist_nonneg (examine_edges h u es st).2 /\
  potential (examine_edges h u es st).2 <= potential st /\
  forall x, m_color st !! x = Some gray ->
            m_color (examine_edges h u es st).2 !! x = Some gray.
Proof.
  induction es as [|e es IH]; intros st Hst; cbn [examine_edges]; [done|].
  destruct (examine_edge h u e st) as [st1|x] eqn:E; [|done].
  apply examine_edge_potential in E as (H1 & H2 & H3); [|done].
  destruct (IH st1 H1) as (H4 & H5 & H6).
  split; [done|]. split; [lia|]. intros x Hx. by apply H6, H3.
Qed.

(** Blackening a gray vertex lowers the measure by one. *)
Lemma set_color_black_potential st u :
  m_color st !! u = Some gray ->
  potential (set_color st u black) + 1 = potential st /\
  (dist_nonneg st -> dist_nonneg (set_color st u black)).
Proof.
  intros Hu. split; [|done]. unfold potential. cbn [set_color m_color m_distance].
  pose proof (sum_list_with_insert color_weight _ u black gray Hu) as Hs.
  simpl in Hs. lia.
Qed.

(** One round of either search, past the test of the visitor: the maps after
    the out-edges of [u] were examined and [u] was blackened have a measure
    smaller by one at least. *)
Lemma visit_potential h g u st :
  dist_nonneg st -> m_color st !! u = Some gray ->
  let st1 := (examine_edges h u (out_edges u g) st).2 in
  dist_nonneg (set_color st1 u black) /\
  potential (set_color st1 u black) + 1 <= potential st.
Proof.
  intros Hst Hu st1.
  destruct (examine_edges_potential h u (out_edges u g) st Hst) as (H1 & H2 & H3).
  fold st1 in H1, H2, H3.
  destruct (set_color_black_potential st1 u (H3 u Hu)) as [H4 H5].
  split; [by apply H5|lia].
Qed.

(** Dijkstra's loop finishes within as many rounds as the measure. *)
Lemma dijkstra_loop_completes g : forall m st,
  potential st <= m -> dist_nonneg st ->
  exists r, dijkstra_loop m g st = Some r.
Proof.
  induction m as [|m IH]; intros st Hm Hst; cbn [dijkstra_loop].
  - destruct (top _ _) as [u|] eqn:Et; [|eauto].
    apply top_gray in Et.
    destruct (visit_potential None g u st Hst Et) as [_ Hp]. lia.
  - destruct (top _ _) as [u|] eqn:Et; [|eauto].
    apply top_gray in Et.
    destruct (visit_potential None g u st Hst Et) as [Hn Hp].
    destruct (examine_edges None u (out_edges u g) st) as [[x|] st1]; [eauto|].
    apply IH; [|done]. cbn [snd] in Hp. lia.
Qed.

Lemma astar_loop_completes g h m_goal : forall m st,
  potential st <= m -> dist_nonneg st ->
  exists r, astar_loop m g h m_goal st = Some r.
Proof.
  induction m as [|m IH]; intros st Hm Hst; cbn [astar_loop].
  - destruct (top _ _) as [u|] eqn:Et; [|eauto].
    apply top_gray in Et.
    destruct (visit_potential (Some h) g u st Hst Et) as [_ Hp]. lia.
  - destruct (top _ _) as [u|] eqn:Et; [|eauto].
    apply top_gray in Et.
    destruct (decide (u = m_goal)); [eauto|].
    destruct (visit_potential (Some h) g u st Hst Et) as [Hn Hp].
    destruct (examine_edges (Some h) u (out_edges u g) st) as [[x|] st1]; [eauto|].
    apply IH; [|done]. cbn [snd] in Hp. lia.
Qed.

(** More fuel does not change the result of a loop that finished. *)
Lemma dijkstra_loop_more_fuel g : forall m st r k,
  dijkstra_loop m g st = Some r -> dijkstra_loop (m + k) g st = Some r.
Proof.
  induction m as [|m IH]; intros st r k Hrun; cbn [dijkstra_loop] in Hrun.
  - destruct (top _ _) as [u|] eqn:Et; [done|].
    destruct k; cbn [dijkstra_loop Nat.add]; by rewrite Et.
  - cbn [dijkstra_loop Nat.add]. destruct (top _ _) as [u|]; [|done].
    destruct (examine_edges None u (out_edges u g) st) as [[x|] st1]; [done|].
    by apply IH.
Qed.

Lemma astar_loop_more_fuel g h m_goal : forall m st r k,
  astar_loop m g h m_goal st = Some r ->
  astar_loop (m + k) g h m_goal st = Some r.
Proof.
  induction m as [|m IH]; intros st r k Hrun; cbn [astar_loop] in Hrun.
  - destruct (top _ _) as [u|] eqn:Et; [done|].
    destruct k; cbn [astar_loop Nat.add]; by rewrite Et.
  - cbn [astar_loop Nat.add]. destruct (top _ _) as [u|]; [|done].
    destruct (decide (u = m_goal)); [done|].
    destruct (examine_edges (Some h) u (out_edges u g) st) as [[x|] st1]; [done|].
    by apply IH.
Qed.

(** Both searches complete: from some amount of fuel on they yield a
    result, the same for every larger amount. *)
Lemma dijkstra_shortest_paths_completes (g : s_graph) s :
  exists fuel0 r, forall fuel, fuel0 <= fuel ->
    dijkstra_shortest_paths fuel g s = Some r.
Proof.
  unfold dijkstra_shortest_paths.
  set (st := init_maps (num_vertices g) s 0).
  destruct (dijkstra_loop_completes g (potential st) st) as [r Hr];
    [done|apply dist_nonneg_init|].
  exists (potential st), r. intros fuel Hf.
  replace fuel with (potential st + (fuel - potential st)) by lia.
  by apply dijkstra_loop_more_fuel.
Qed.

Lemma astar_search_completes (g : s_graph) s h m_goal :
  exists fuel0 r, forall fuel, fuel0 <= fuel ->
    astar_search fuel g s h m_goal = Some r.
Proof.
  unfold astar_search.
  set (st := init_maps (num_vertices g) s (to_int (h s))).
  destruct (astar_loop_completes g h m_goal (potential st) st) as [r Hr];
    [done|apply dist_nonneg_init|].
  exists (potential st), r. intros fuel Hf.
  replace fuel with (potential st + (fuel - potential st)) by lia.
  by apply astar_loop_more_fuel.
Qed.

(** The only exception the examination of edges raises is [negative_edge]. *)
Lemma examine_edges_throws h u es : forall st x st',
  examine_edges h u es st = (Some x, st') -> x = negative_edge.
Proof.
  induction es as [|[v w] es IH]; intros st x st' Hrun;
    cbn [examine_edges] in Hrun; [done|].
  destruct (examine_edge h u (v, w) st) as [st1|y] eqn:E; [by eapply IH|].
  simplify_eq. unfold examine_edge in E.
  destruct (to_int w <? 0)%Z; [by simplify_eq|].
  destruct (color_of st' v), (relax u v w st'), h; done.
Qed.

Lemma dijkstra_loop_throws g fuel : forall st x st',
  dijkstra_loop fuel g st = Some (Some x, st') -> x = negative_edge.
Proof.
  induction fuel as [|fuel IH]; intros st x st' Hrun; cbn [dijkstra_loop] in Hrun.
  - by destruct (top _ _).
  - destruct (top _ _) as [u|]; [|done].
    destruct (examine_edges None u (out_edges u g) st) as [[y|] st1] eqn:E.
    + simplify_eq. by eapply examine_edges_throws.
    + by eapply IH.
Qed.

Lemma astar_loop_throws g h m_goal fuel : forall st x st',
  astar_loop fuel g h m_goal st = Some (Some x, st') ->
  x = negative_edge \/ x = found_goal.
Proof.
  induction fuel as [|fuel IH]; intros st x st' Hrun; cbn [astar_loop] in Hrun.
  - by destruct (top _ _).
  - destruct (top _ _) as [u|]; [|done].
    destruct (decide (u = m_goal)); [simplify_eq; by right|].
    destruct (examine_edges (Some h) u (out_edges u g) st) as [[y|] st1] eqn:E.
    + simplify_eq. left. by eapply examine_edges_throws.
    + by eapply IH.
Qed.

(** ** SpatialGraph: [findPathDK] and [findPathAS] *)

(** C1 (what the code does): when [to] is a vertex of the graph that is not
    reached from [from], so lies in another connected component, a call of
    [findPathDK] that returns does not return false: the backward walk stops
    at once on [to], its own predecessor, which differs from [from], and the
    call returns true with the two-node list [from, to] put in front of
    [outPath], which is not a path of the graph. *)
Theorem findPathDK_unreachable (fuel : nat) (G : SpatialGraph) (f t : s_node)
    (s_path : list s_node) (r : bool) (s_path' : list s_node) :
  vertex t < num_vertices (p_graph G) ->
  ~ reachable (p_graph G) (vertex f) (vertex t) ->
  findPathDK fuel G f t s_path = Some (Return r, s_path') ->
  r = true /\ s_path' = f :: getNode G (vertex t) :: s_path.
Proof.
  intros Ht Hun Hrun. unfold findPathDK in Hrun.
  destruct (dijkstra_shortest_paths fuel (p_graph G) (vertex f))
    as [[[x|] st]|] eqn:Ed; [done| |done].
  pose proof (dijkstra_unreached_pred _ _ _ _ _ _ Ed Ht Hun) as Hp.
  destruct fuel as [|fuel]; [done|].
  cbn [walkDK] in Hrun. rewrite !Hp in Hrun.
  destruct (decide (vertex t <> vertex t)); [done|].
  destruct (decide (vertex t = vertex f)) as [E|_].
  - exfalso. apply Hun. rewrite E. apply rtc_refl.
  - by simplify_eq.
Qed.

(** The other side of the same test: on the chain [0 - 1 - 2] the goal is
    reached, the walk ends on the source, and [findPathDK] returns false,
    leaving the path without its first node in [outPath]. *)
Example findPathDK_connected_false :
  findPathDK 10 chain (getNode chain 0) (getNode chain 2) []
  = Some (Return false, [getNode chain 1; getNode chain 2]).
Proof. reflexivity. Qed.

(** In that case the call does complete: from some amount of fuel on,
    [findPathDK] yields the outcome above, or [negative_edge] leaves it when
    an edge weight truncates to a negative [int]. *)
Lemma findPathDK_unreachable_completes (G : SpatialGraph) (f t : s_node)
    (s_path : list s_node) :
  vertex t < num_vertices (p_graph G) ->
  ~ reachable (p_graph G) (vertex f) (vertex t) ->
  exists fuel0 r, (forall fuel, fuel0 <= fuel ->
                     findPathDK fuel G f t s_path = Some r) /\
    (r = (Return true, f :: getNode G (vertex t) :: s_path) \/
     r = (Throw negative_edge, s_path)).
Proof.
  intros Ht Hun.
  destruct (dijkstra_shortest_paths_completes (p_graph G) (vertex f))
    as (fuel0 & [o st] & Hd).
  pose proof (Hd fuel0 (Nat.le_refl _)) as Hd0.
  destruct o as [x|].
  - apply dijkstra_loop_throws in Hd0 as Hx. subst x.
    exists fuel0, (Throw negative_edge, s_path). split; [|by right].
    intros fuel Hf. unfold findPathDK. by rewrite (Hd fuel Hf).
  - pose proof (dijkstra_unreached_pred _ _ _ _ _ _ Hd0 Ht Hun) as Hp.
    exists (S fuel0), (Return true, f :: getNode G (vertex t) :: s_path).
    split; [|by left].
    intros fuel Hf. unfold findPathDK. rewrite (Hd fuel) by lia.
    destruct fuel as [|fuel]; [lia|]. cbn [walkDK]. rewrite !Hp.
    destruct (decide (vertex t <> vertex t)); [done|].
    destruct (decide (vertex t = vertex f)) as [E|]; [|done].
    exfalso. apply Hun. rewrite E. apply rtc_refl.
Qed.

Section FindPathAS.
Context {DM : DistMetric}.

Lemma findPathAS_cases fuel (G : SpatialGraph) f t s_path o s_path' :
  findPathAS fuel G f t s_path = Some (o, s_path') ->
  (o = Return true /\
   (s_path' = s_path \/ reachable (p_graph G) (vertex f) (vertex t))) \/
  (exists x, o = Throw x /\ s_path' = s_path).
Proof.
  unfold findPathAS. intros Hrun.
  destruct (astar_search fuel (p_graph G) (vertex f)
              (distance_heuristic (node_list G) (vertex t)) (vertex t))
    as [[[x|] st]|] eqn:Ea; [| |done].
  - assert (Hfound : x = found_goal ->
                     reachable (p_graph G) (vertex f) (vertex t)).
    { intros ->. unfold astar_search in Ea.
      apply (astar_loop_inv _ (vertex f)) in Ea as [_ Hg];
        [by apply Hg|apply search_inv_init]. }
    destruct x; try (right; eexists; by simplify_eq).
    destruct (walkAS fuel G (m_predecessor st) (vertex t) s_path); [|done].
    simplify_eq. left. auto.
  - simplify_eq. left. auto.
Qed.

(** C4: whenever [findPathAS] returns, it returns true; and when no path
    leads from [from] to [to], [outPath] is left as it was, so the value
    returned tells the caller nothing about the existence of a path. *)
Theorem findPathAS_returns_true (fuel : nat) (G : SpatialGraph) (f t : s_node)
    (s_path : list s_node) (r : bool) (s_path' : list s_node) :
  findPathAS fuel G f t s_path = Some (Return r, s_path') ->
  r = true /\
  (~ reachable (p_graph G) (vertex f) (vertex t) -> s_path' = s_path).
Proof.
  intros Hrun. apply findPathAS_cases in Hrun as [[Hr Hp]|(x & Hx & _)];
    [|done].
  split; [by simplify_eq|]. intros Hun. by destruct Hp.
Qed.

(** When no path exists the exploration does complete: from some amount
    of fuel on [findPathAS] returns true with [outPath] as it was, or
    [negative_edge] leaves it when an edge weight truncates to a negative
    [int]. *)
Lemma findPathAS_no_path_completes (G : SpatialGraph) (f t : s_node)
    (s_path : list s_node) :
  ~ reachable (p_graph G) (vertex f) (vertex t) ->
  exists fuel0 o, (forall fuel, fuel0 <= fuel ->
                     findPathAS fuel G f t s_path = Some (o, s_path)) /\
    (o = Return true \/ o = Throw negative_edge).
Proof.
  intros Hun.
  destruct (astar_search_completes (p_graph G) (vertex f)
              (distance_heuristic (node_list G) (vertex t)) (vertex t))
    as (fuel0 & [o st] & Ha).
  pose proof (Ha fuel0 (Nat.le_refl _)) as Ha0.
  destruct o as [x|].
  - pose proof Ha0 as Hinv. unfold astar_search in Hinv.
    apply (astar_loop_inv _ (vertex f)) in Hinv as [_ Hg];
      [|apply search_inv_init].
    apply astar_loop_throws in Ha0 as [->| ->].
    + exists fuel0, (Throw negative_edge). split; [|by right].
      intros fuel Hf. unfold findPathAS. by rewrite (Ha fuel Hf).
    + exfalso. by apply Hun, Hg.
  - exists fuel0, (Return true). split; [|by left].
    intros fuel Hf. unfold findPathAS. by rewrite (Ha fuel Hf).
Qed.

(** The roadmap planner's search therefore never falls back to
    Dijkstra's algorithm, and reports a path whenever A* returns. *)
Lemma findPath_returns_true fuel (G : SpatialGraph) n_start n_goal l o l' :
  findPath fuel G n_start n_goal l = Some (o, l') ->
  findPathAS fuel G n_start n_goal l = Some (o, l') /\
  forall r, o = Return r -> r = true.
Proof.
  unfold findPath. intros Hrun.
  destruct (findPathAS fuel G n_start n_goal l) as [[o1 l1]|] eqn:Ea; [|done].
  pose proof (findPathAS_cases _ _ _ _ _ _ _ Ea) as [[-> _]|(x & -> & _)];
    simplify_eq; split; try done; by intros r [= <-].
Qed.

End FindPathAS.

(** ** Instances of the theorems *)

Lemma two_clusters_unreachable : ~ reachable (p_graph two_clusters) 0 3.
Proof.
  assert (H : forall v, reachable (p_graph two_clusters) 0 v -> v = 0 \/ v = 1).
  { unfold reachable. apply rtc_ind_r; [by left|].
    intros y z _ Hyz [-> | ->]; vm_compute in Hyz;
      apply list_elem_of_singleton in Hyz; auto. }
  intros Hr. apply H in Hr. lia.
Qed.

Lemma findPathDK_unreachable_witness :
  findPathDK 10 two_clusters (getNode two_clusters 0) (getNode two_clusters 3) []
  = Some (Return true, [getNode two_clusters 0; getNode two_clusters 3]) /\
  (true = true /\
   [getNode two_clusters 0; getNode two_clusters 3]
   = getNode two_clusters 0
     :: getNode two_clusters (vertex (getNode two_clusters 3)) :: []).
Proof.
  split; [reflexivity|].
  apply (findPathDK_unreachable 10 two_clusters (getNode two_clusters 0)
           (getNode two_clusters 3) [] true).
  - simpl. lia.
  - exact two_clusters_unreachable.
  - reflexivity.
Defined.


Lemma findPathAS_returns_true_witness :
  @findPathAS L1Metric 10 two_clusters
     (getNode two_clusters 0) (getNode two_clusters 3) []
  = Some (Return true, []) /\
  (true = true /\
   (~ reachable (p_graph two_clusters)
        (vertex (getNode two_clusters 0)) (vertex (getNode two_clusters 3)) ->
    [] = ([] : list s_node))).
Proof.
  split; [reflexivity|].
  apply (@findPathAS_returns_true L1Metric 10 two_clusters
           (getNode two_clusters 0) (getNode two_clusters 3) [] true []).
  reflexivity.
Defined.

Lemma findNN_sized_rejects_stored_witness :
  (@DistMetric_Eval L1Metric [0%Q] [0%Q] <= 5)%Q /\
  let G := (addNodes (SpatialGraph_sized 2 5) [[0%Q]; [0%Q]]).2 in
  stored G 3 /\
  List.filter (@is_neighbor L1Metric G 3) (node_list G) = [mk_s_node [0%Q] 2] /\
  @findNN L1Metric G 3 [] = (0%Z, []).
Proof.
  assert (H : (@DistMetric_Eval L1Metric [0%Q] [0%Q] <= 5)%Q)
    by (apply Qle_bool_iff; reflexivity).
  split; [exact H|].
  exact (@findNN_sized_rejects_stored L1Metric [0%Q] 5%Q H).
Defined.

Lemma Extend_close_Connected_witness :
  (l1_distance [(1 # 1000)%Q] [0%Q] < (1 # 10) * _fStepLength example_tree)%Q /\
  exists i T',
    @Extend FreeSpace 1 example_tree [(1 # 1000)%Q] false
    = Some (Return (ET_Connected, i, T')) /\
    _nodes T' = _nodes example_tree.
Proof.
  assert (H : (l1_distance [(1 # 1000)%Q] [0%Q]
               < (1 # 10) * _fStepLength example_tree)%Q) by reflexivity.
  split; [exact H|].
  apply (@Extend_close_Connected FreeSpace 0 example_tree [(1 # 1000)%Q] false
           l1_distance (example_params [0%Q] [(1 # 1000)%Q]) (mk_t_node 0 [0%Q])).
  - reflexivity.
  - reflexivity.
  - apply list_elem_of_here.
  - exact H.
  - left. discriminate.
Defined.

Lemma Extend_blocked_Failed_witness :
  ((1 # 10) * _fStepLength example_tree < l1_distance [1%Q] [0%Q])%Q /\
  exists T',
    @Extend Blocked 1 example_tree [1%Q] false
    = Some (Return (ET_Failed, 0%Z, T')) /\
    _nodes T' = _nodes example_tree.
Proof.
  assert (H : ((1 # 10) * _fStepLength example_tree < l1_distance [1%Q] [0%Q])%Q)
    by reflexivity.
  split; [exact H|].
  apply (@Extend_blocked_Failed Blocked 0 example_tree [1%Q] false
           l1_distance (example_params [0%Q] [(1 # 1000)%Q]) 0
           (set_fBestDist example_tree (l1_distance [1%Q] [0%Q]))
           (mk_t_node 0 [0%Q])).
  - reflexivity.
  - reflexivity.
  - reflexivity.
  - reflexivity.
  - exact H.
  - reflexivity.
Defined.

Lemma grown_tree_shape_witness :
  exists T, @grown FreeSpace 0 T /\ length (_nodes T) = 2 /\ tree_shape 0 T.
Proof.
  assert (Hg : exists T, @grown FreeSpace 0 T /\ length (_nodes T) = 2).
  { eexists. split.
    - eapply (@grown_Extend FreeSpace 0 example_tree 1 [(1 # 10)%Q] true).
      + apply (@grown_root FreeSpace 0
                 (wired_tree (example_params [0%Q] [(1 # 1000)%Q])) [0%Q]).
        reflexivity.
      + reflexivity.
    - reflexivity. }
  destruct Hg as (T & Hg & Hlen).
  exists T. split; [exact Hg|]. split; [exact Hlen|].
  exact (@grown_tree_shape FreeSpace 0 T Hg).
Defined.

Lemma PlanPath_emits_no_point_witness :
  exists o,
    @PlanPath FreeSpace 5 [Some [0%Q]]
       (wired_planner (example_params [0%Q] [(1 # 1000)%Q])) []
    = Some (o, []) /\
    (exists P', o = Return (true, P')) /\
    ([] = ([] : list config) /\
     forall b P', o = Return (b, P') ->
       p_parameters (wired_planner (example_params [0%Q] [(1 # 1000)%Q])) <> None ->
       b = true /\ b_connected P' = true /\
       _nodes (t_start P') <> [] /\ _nodes (t_goal P') <> [] /\
       l_pathnodes P' = []).
Proof.
  eexists. split; [reflexivity|]. split; [eexists; reflexivity|].
  apply (@PlanPath_emits_no_point FreeSpace 5 [Some [0%Q]]
           (wired_planner (example_params [0%Q] [(1 # 1000)%Q])) []).
  - reflexivity.
  - reflexivity.
  - reflexivity.
  - reflexivity.
Defined.

(** * Further properties *)

(** ** SpatialGraph: nodes *)

Lemma getNode_snoc (G : SpatialGraph) (l : list s_node) it v :
  foldl (fun n it => if decide (vertex it = v) then it else n)
        s_node_default (l ++ [it])
  = if decide (vertex it = v) then it
    else foldl (fun n it => if decide (vertex it = v) then it else n)
               s_node_default l.
Proof. by rewrite foldl_app. Qed.

(** X1: [addNode] and [getNode] round-trip. The handle [addNode] returns
    looks up the node just stored, with the configuration given; the lookup
    of every other handle is unchanged; and the node count grows by one. *)
Theorem addNode_getNode (G : SpatialGraph) (c : config) :
  let r := addNode G c in
  getNode r.2 r.1 = mk_s_node c r.1 /\
  (forall u, u <> r.1 -> getNode r.2 u = getNode G u) /\
  getNodes r.2 = (getNodes G + 1)%Z /\
  stored r.2 r.1.
Proof.
  intros r. subst r. rewrite addNode_handle.
  unfold getNode, getNodes, stored. rewrite addNode_node_list.
  split; [|split; [|split]].
  - rewrite (getNode_snoc G). simpl. by rewrite decide_True.
  - intros u Hu. rewrite (getNode_snoc G). simpl. by rewrite decide_False.
  - rewrite length_app. simpl. lia.
  - rewrite fmap_app, elem_of_app. right. simpl. apply list_elem_of_here.
Qed.

Lemma getNode_unknown (G : SpatialGraph) v :
  ~ stored G v -> getNode G v = s_node_default.
Proof.
  unfold stored, getNode.
  induction (node_list G) as [|it l IH] using rev_ind; [done|].
  intros Hv. rewrite foldl_app. simpl.
  rewrite fmap_app, elem_of_app in Hv.
  destruct (decide (vertex it = v)) as [E|Hne].
  - exfalso. apply Hv. right. simpl. rewrite E. apply list_elem_of_here.
  - apply IH. tauto.
Qed.

(** X2: [getNode] on a handle that is stored returns a stored node that
    carries this handle, the one inserted last if several do; on any other
    handle it returns the default node, with an empty configuration, and
    does not fail. *)
Theorem getNode_spec (G : SpatialGraph) (v : s_vertex) :
  (stored G v ->
   exists l1 l2, node_list G = l1 ++ getNode G v :: l2 /\
                 vertex (getNode G v) = v /\ v ∉ vertex <$> l2) /\
  (~ stored G v -> getNode G v = s_node_default /\ nconfig (getNode G v) = []).
Proof.
  split.
  - unfold stored, getNode.
    induction (node_list G) as [|it l IH] using rev_ind.
    + intros Hv. by apply elem_of_nil in Hv.
    + intros Hv. rewrite foldl_app. simpl.
      destruct (decide (vertex it = v)) as [E|Hne].
      * exists l, []. split; [done|]. split; [done|]. apply not_elem_of_nil.
      * rewrite fmap_app, elem_of_app in Hv. destruct Hv as [Hv|Hv].
        -- destruct (IH Hv) as (l1 & l2 & E1 & E2 & E3).
           exists l1, (l2 ++ [it]). split; [|split; [done|]].
           ++ rewrite E1 at 1. by rewrite <- app_assoc.
           ++ rewrite fmap_app, elem_of_app. simpl.
              rewrite list_elem_of_singleton. intros [?|?]; [done|]. by subst.
        -- simpl in Hv. apply list_elem_of_singleton in Hv. by subst.
  - intros Hv. by rewrite getNode_unknown.
Qed.

(** ** SpatialGraph: what every built graph satisfies *)

Lemma out_edges_add_vertex (g : s_graph) x :
  out_edges x (add_vertex g).2 = out_edges x g.
Proof.
  unfold out_edges, add_vertex. simpl.
  destruct (decide (x < length g)) as [Hx|Hx].
  - by rewrite lookup_app_l.
  - rewrite (lookup_ge_None_2 g) by lia.
    destruct (decide (x = length g)) as [->|Hne].
    + by rewrite list_lookup_middle.
    + rewrite lookup_ge_None_2; [done|]. rewrite length_app. simpl. lia.
Qed.

Lemma handles_in_order_default : handles_in_order SpatialGraph_default.
Proof. split; simpl; [lia|done]. Qed.

Lemma handles_in_order_sized m th : handles_in_order (SpatialGraph_sized m th).
Proof. split; simpl; [lia|done]. Qed.

Lemma handles_in_order_stored (G : SpatialGraph) v :
  handles_in_order G -> stored G v ->
  num_vertices (p_graph G) - length (node_list G) <= v < num_vertices (p_graph G).
Proof.
  intros [Hle Hh] Hv. unfold stored in Hv. rewrite Hh in Hv.
  apply elem_of_seq in Hv. lia.
Qed.

Lemma handles_in_order_addNode (G : SpatialGraph) c :
  handles_in_order G -> handles_in_order (addNode G c).2.
Proof.
  intros [Hle Hh]. unfold handles_in_order.
  rewrite addNode_num_vertices, addNode_node_list, length_app, fmap_app, Hh.
  simpl. split; [lia|].
  replace (S (num_vertices (p_graph G)) - (length (node_list G) + 1))
    with (num_vertices (p_graph G) - length (node_list G)) by lia.
  rewrite seq_app. simpl. do 3 f_equal. lia.
Qed.

Section Built.
Context {DM : DistMetric}.

(** What a call of [addEdge] on two vertices of the graph leaves. *)
Lemma addEdge_result (G : SpatialGraph) u v :
  let dist := DistMetric_Eval (config_of G u) (config_of G v) in
  (addEdge G u v = (false, G)) \/
  (u <> v /\ (u ∉ adjacent_vertices v (p_graph G)) /\
   (dist <= neigh_thresh G)%Q /\
   addEdge G u v =
   (true, {| max_nodes := max_nodes G; neigh_thresh := neigh_thresh G;
             node_list := node_list G;
             p_graph := (add_edge u v dist (p_graph G)).1 |})).
Proof.
  intros dist. rewrite addEdge_cases.
  destruct (edgeExists G u v) eqn:E; [by left|].
  apply edgeExists_false in E as [Hne Hadj].
  fold (config_of G u) (config_of G v). fold dist.
  destruct (Qgt_bool dist (neigh_thresh G)) eqn:Ed; [by left|].
  right. apply Qgt_bool_false in Ed. done.
Qed.

Lemma handles_in_order_addEdge (G : SpatialGraph) u v :
  handles_in_order G -> stored G u -> stored G v ->
  handles_in_order (addEdge G u v).2 /\
  node_list (addEdge G u v).2 = node_list G /\
  num_vertices (p_graph (addEdge G u v).2) = num_vertices (p_graph G) /\
  neigh_thresh (addEdge G u v).2 = neigh_thresh G.
Proof.
  intros HG Hu Hv.
  apply (handles_in_order_stored G u HG) in Hu.
  apply (handles_in_order_stored G v HG) in Hv.
  destruct (addEdge_result G u v) as [->|(_ & _ & _ & ->)]; [done|].
  cbn [snd node_list p_graph neigh_thresh]. unfold handles_in_order.
  cbn [node_list p_graph]. unfold num_vertices in *.
  rewrite add_edge_length by lia. by destruct HG.
Qed.

(** X3: in every graph built from a constructor by [addNode] and by
    [addEdge] on stored handles, the handles of the stored nodes count up,
    in insertion order, from the number of vertices the constructor made
    (0 for the default constructor, [max_nodes] for the other one), each
    node has a handle of its own, the graph has one vertex more per node,
    and the threshold is the constructor's. *)
Theorem built_handles (G0 G : SpatialGraph) :
  node_list G0 = [] -> built G0 G ->
  vertex <$> node_list G
    = seq (num_vertices (p_graph G0)) (length (node_list G)) /\
  num_vertices (p_graph G)
    = num_vertices (p_graph G0) + length (node_list G) /\
  NoDup (vertex <$> node_list G) /\
  neigh_thresh G = neigh_thresh G0.
Proof.
  intros H0 Hb.
  assert (Hinv : handles_in_order G /\
                 num_vertices (p_graph G)
                 = num_vertices (p_graph G0) + length (node_list G) /\
                 neigh_thresh G = neigh_thresh G0).
  { induction Hb as [|G c _ (IH1 & IH2 & IH3)|G u v _ (IH1 & IH2 & IH3) Hu Hv].
    - split; [split; rewrite H0; simpl; [lia|done]|].
      rewrite H0. simpl. split; [lia|done].
    - split; [by apply handles_in_order_addNode|].
      rewrite addNode_num_vertices, addNode_node_list, length_app. simpl.
      split; [lia|done].
    - destruct (handles_in_order_addEdge G u v IH1 Hu Hv) as (H1 & H2 & H3 & H4).
      split; [done|]. rewrite H2, H3, H4. done. }
  destruct Hinv as ([Hle Hh] & Hn & Ht).
  assert (Hseq : vertex <$> node_list G
                 = seq (num_vertices (p_graph G0)) (length (node_list G))).
  { rewrite Hh. f_equal. lia. }
  split; [done|]. split; [done|]. split; [|done].
  rewrite Hseq. apply NoDup_seq.
Qed.

End Built.

Lemma built_handles_witness :
  let G := (@addEdge L1Metric
              (addNode (addNode (SpatialGraph_sized 3 5) [0%Q]).2 [1%Q]).2 3 4).2 in
  @built L1Metric (SpatialGraph_sized 3 5) G /\
  vertex <$> node_list G = [3; 4] /\
  num_vertices (p_graph G) = 5.
Proof.
  intros G.
  assert (Hb : @built L1Metric (SpatialGraph_sized 3 5) G).
  { apply (@built_addEdge L1Metric).
    - apply (@built_addNode L1Metric), (@built_addNode L1Metric), (@built_start L1Metric).
    - unfold stored. rewrite list_elem_of_In. simpl. auto.
    - unfold stored. rewrite list_elem_of_In. simpl. auto. }
  split; [exact Hb|].
  destruct (@built_handles L1Metric (SpatialGraph_sized 3 5) G eq_refl Hb)
    as (H1 & H2 & _ & _).
  split; [exact H1|exact H2].
Defined.

Lemma addNode_p_graph (G : SpatialGraph) c :
  p_graph (addNode G c).2 = (add_vertex (p_graph G)).2.
Proof. reflexivity. Qed.

Lemma stored_addNode (G : SpatialGraph) c v :
  stored G v -> stored (addNode G c).2 v.
Proof.
  unfold stored. rewrite addNode_node_list, fmap_app, elem_of_app. by left.
Qed.

Lemma config_of_addNode (G : SpatialGraph) c v :
  v <> num_vertices (p_graph G) -> config_of (addNode G c).2 v = config_of G v.
Proof.
  intros Hv. unfold config_of, getNode. rewrite addNode_node_list, foldl_app.
  simpl. by rewrite decide_False.
Qed.

Lemma elem_of_adjacent (g : s_graph) u v :
  v ∈ adjacent_vertices u g <-> exists w, (v, w) ∈ out_edges u g.
Proof.
  unfold adjacent_vertices. rewrite list_elem_of_fmap. split.
  - intros ([v' w] & -> & Hin). by exists w.
  - intros [w Hin]. by exists (v, w).
Qed.

Section BuiltEdges.
Context {DM : DistMetric}.

Lemma built_in_order (G0 G : SpatialGraph) :
  node_list G0 = [] -> built G0 G -> handles_in_order G.
Proof.
  intros H0 Hb. induction Hb as [|G c _ IH|G u v _ IH Hu Hv].
  - split; rewrite H0; simpl; [lia|done].
  - by apply handles_in_order_addNode.
  - by apply handles_in_order_addEdge.
Qed.

Lemma edges_ok_addNode (G : SpatialGraph) c :
  handles_in_order G -> edges_ok G -> edges_ok (addNode G c).2.
Proof.
  intros HG [Hs Hl Hsym Ho Hw].
  assert (Hadj : forall x, adjacent_vertices x (p_graph (addNode G c).2)
                           = adjacent_vertices x (p_graph G)).
  { intros x. unfold adjacent_vertices.
    by rewrite addNode_p_graph, out_edges_add_vertex. }
  assert (Hout : forall x, out_edges x (p_graph (addNode G c).2)
                           = out_edges x (p_graph G)).
  { intros x. by rewrite addNode_p_graph, out_edges_add_vertex. }
  split.
  - intros u v Hv. rewrite Hadj in Hv. destruct (Hs u v Hv).
    split; by apply stored_addNode.
  - intros v. rewrite Hadj. apply Hl.
  - intros u v w. rewrite !Hout. apply Hsym.
  - intros u. rewrite Hadj. apply Ho.
  - intros u v w. rewrite Hout. intros Hin.
    destruct (Hw u v w Hin) as [Hle Heq]. split; [done|].
    assert (Huv : stored G u /\ stored G v).
    { apply Hs, elem_of_adjacent. by exists w. }
    destruct Huv as [Hu Hv].
    apply (handles_in_order_stored G u HG) in Hu.
    apply (handles_in_order_stored G v HG) in Hv.
    rewrite !config_of_addNode by lia. done.
Qed.

Lemma edges_ok_addEdge (G : SpatialGraph) u v :
  handles_in_order G -> edges_ok G -> stored G u -> stored G v ->
  edges_ok (addEdge G u v).2.
Proof.
  intros HG [Hs Hl Hsym Ho Hw] Hu Hv.
  pose proof (handles_in_order_stored G u HG Hu) as Hul.
  pose proof (handles_in_order_stored G v HG Hv) as Hvl.
  unfold num_vertices in Hul, Hvl.
  destruct (addEdge_result G u v) as [->|(Hne & Hnadj & Hle & ->)]; [by split|].
  set (dist := DistMetric_Eval (config_of G u) (config_of G v)) in *.
  cbn [snd].
  assert (Hnadj' : v ∉ adjacent_vertices u (p_graph G)).
  { intros Hin. apply elem_of_adjacent in Hin as [w Hin].
    apply Hnadj, elem_of_adjacent. exists w. by apply Hsym. }
  assert (Hout : forall x,
    out_edges x (add_edge u v dist (p_graph G)).1
    = out_edges x (p_graph G)
      ++ (if decide (x = u) then [(v, dist)]
          else if decide (x = v) then [(u, dist)] else [])).
  { intros x. apply out_edges_add_edge; lia. }
  split; cbn [p_graph neigh_thresh].
  - intros a b Hab. apply adjacent_add_edge in Hab; [|lia..|done].
    assert (Hold : forall x, stored G x ->
      stored {| max_nodes := max_nodes G; neigh_thresh := neigh_thresh G;
                node_list := node_list G;
                p_graph := (add_edge u v dist (p_graph G)).1 |} x) by done.
    destruct Hab as [Hab|[[-> ->]|[-> ->]]]; [|by split..].
    destruct (Hs a b Hab). by split.
  - intros x Hx. apply adjacent_add_edge in Hx; [|lia..|done].
    destruct Hx as [Hx|[[-> ?]|[-> ?]]]; [by apply (Hl x)|done..].
  - intros a b w. rewrite !Hout, !elem_of_app. intros [Hin|Hin].
    + left. by apply Hsym.
    + right. destruct (decide (a = u)) as [->|Hau].
      * apply list_elem_of_singleton in Hin. simplify_eq.
        rewrite decide_False by done. rewrite decide_True by done.
        apply list_elem_of_here.
      * destruct (decide (a = v)) as [->|Hav]; [|by apply elem_of_nil in Hin].
        apply list_elem_of_singleton in Hin. simplify_eq.
        rewrite decide_True by done. apply list_elem_of_here.
  - intros a. unfold adjacent_vertices. rewrite Hout, fmap_app.
    apply NoDup_app. split; [apply Ho|]. split.
    + intros x Hx Hx'.
      destruct (decide (a = u)) as [->|Hau]; simpl in Hx'.
      * apply list_elem_of_singleton in Hx'. by subst.
      * destruct (decide (a = v)) as [->|Hav]; simpl in Hx'.
        -- apply list_elem_of_singleton in Hx'. by subst.
        -- by apply elem_of_nil in Hx'.
    + destruct (decide (a = u)); [apply NoDup_singleton|].
      destruct (decide (a = v)); [apply NoDup_singleton|apply NoDup_nil_2].
  - intros a b w. rewrite Hout, elem_of_app.
    change (config_of {| max_nodes := max_nodes G; neigh_thresh := neigh_thresh G;
                         node_list := node_list G;
                         p_graph := (add_edge u v dist (p_graph G)).1 |})
      with (config_of G).
    intros [Hin|Hin]; [by apply Hw|].
    destruct (decide (a = u)) as [->|Hau].
    + apply list_elem_of_singleton in Hin. simplify_eq. split; [done|by left].
    + destruct (decide (a = v)) as [->|Hav]; [|by apply elem_of_nil in Hin].
      apply list_elem_of_singleton in Hin. simplify_eq. split; [done|by right].
Qed.

Lemma built_edges_ok_aux (G0 G : SpatialGraph) :
  node_list G0 = [] -> (forall x, out_edges x (p_graph G0) = []) ->
  built G0 G -> edges_ok G.
Proof.
  intros H0 He Hb.
  pose proof (built_in_order G0 G H0) as Hord.
  induction Hb as [|G c Hb IH|G u v Hb IH Hu Hv].
  - assert (Hadj : forall x y, y ∉ adjacent_vertices x (p_graph G0)).
    { intros x y. unfold adjacent_vertices. rewrite He. apply not_elem_of_nil. }
    split.
    + intros u v Hv. by apply Hadj in Hv.
    + intros v. apply Hadj.
    + intros u v w. rewrite He. intros Hin. by apply elem_of_nil in Hin.
    + intros u. unfold adjacent_vertices. rewrite He. apply NoDup_nil_2.
    + intros u v w. rewrite He. intros Hin. by apply elem_of_nil in Hin.
  - apply edges_ok_addNode.
    + by apply (built_in_order G0).
    + apply IH. intros _. by apply (built_in_order G0).
  - apply edges_ok_addEdge; [| |done|done].
    + by apply (built_in_order G0).
    + apply IH. intros _. by apply (built_in_order G0).
Qed.

(** X4: in every graph built from an edgeless graph without nodes (as both
    constructors make) by [addNode] and by [addEdge] on stored handles,
    every edge joins two distinct stored nodes, appears in the out-edge
    lists of both with the same weight, at most once (no self-loop, no
    parallel edge), and its weight is the distance of the two stored
    configurations, at most the threshold. *)
Theorem built_edges_ok (G0 G : SpatialGraph) :
  node_list G0 = [] -> (forall x, out_edges x (p_graph G0) = []) ->
  built G0 G -> edges_ok G.
Proof. apply built_edges_ok_aux. Qed.

End BuiltEdges.

Lemma built_edges_ok_witness :
  @built L1Metric SpatialGraph_default chain /\ @edges_ok L1Metric chain.
Proof.
  assert (Hb : @built L1Metric SpatialGraph_default chain).
  { unfold chain.
    apply (@built_addEdge L1Metric).
    - apply (@built_addEdge L1Metric).
      + apply (@built_addNode L1Metric _
                 (addNode (addNode SpatialGraph_default [0%Q]).2 [4%Q]).2 [8%Q]).
        apply (@built_addNode L1Metric), (@built_addNode L1Metric),
              (@built_start L1Metric).
      + unfold stored. rewrite list_elem_of_In. simpl. auto.
      + unfold stored. rewrite list_elem_of_In. simpl. auto.
    - unfold stored. rewrite list_elem_of_In. simpl. auto.
    - unfold stored. rewrite list_elem_of_In. simpl. auto. }
  split; [exact Hb|].
  apply (@built_edges_ok L1Metric SpatialGraph_default chain); [reflexivity| |exact Hb].
  intros x. unfold out_edges. simpl. by destruct x.
Defined.

(** ** SpatialGraph: [findNN], continued *)

Section Neighbors.
Context {DM : DistMetric}.

Lemma is_neighbor_true (G : SpatialGraph) n it :
  is_neighbor G n it = true <->
  vertex it <> n /\ (n ∉ adjacent_vertices (vertex it) (p_graph G)) /\
  (DistMetric_Eval (config_of G n) (nconfig it) <= neigh_thresh G)%Q.
Proof.
  unfold is_neighbor, config_of.
  rewrite !andb_true_iff, !negb_true_iff, Qle_bool_iff, Nat.eqb_neq.
  rewrite <- not_true_iff_false, existsb_exists.
  split.
  - intros [[H1 H2] H3]. split; [done|]. split; [|done].
    intros Hin. apply H2. exists n. split; [by apply list_elem_of_In|].
    apply Nat.eqb_refl.
  - intros (H1 & H2 & H3). split; [split; [done|]|done].
    intros (x & Hx & Heq). apply Nat.eqb_eq in Heq. subst x.
    by apply H2, list_elem_of_In.
Qed.

(** The two outcomes of [findNN]: stopped by a guard, or the scan. *)
Lemma findNN_outcomes (G : SpatialGraph) n out :
  (findNN G n out = (0%Z, out) /\
   (length (node_list G) <= 1 \/ length (node_list G) < n)) \/
  (findNN G n out =
     (Z.of_nat (length (List.filter (is_neighbor G n) (node_list G))),
      List.filter (is_neighbor G n) (node_list G)) /\
   1 < length (node_list G) /\ n <= length (node_list G)).
Proof.
  destruct (decide (length (node_list G) <= 1)) as [H1|H1].
  { left. split; [by apply findNN_small|by left]. }
  destruct (decide (length (node_list G) < n)) as [H2|H2].
  { left. split; [by apply findNN_beyond|by right]. }
  right. split; [apply findNN_scan; lia|lia].
Qed.

(** X5: whatever the graph and the handle, [findNN] never returns the query
    node, a node already connected to it, or a node farther than the
    threshold: either a guard stops it, with the count 0 and the list
    untouched, or every node of the list is a stored node, other than [n],
    not adjacent to [n] and within the threshold of the node [getNode]
    yields for [n], and the count is the length of the list. *)
Theorem findNN_sound (G : SpatialGraph) (n : s_vertex) (out : list s_node) :
  findNN G n out = (0%Z, out) \/
  ((findNN G n out).1 = Z.of_nat (length (findNN G n out).2) /\
   forall it, it ∈ (findNN G n out).2 ->
     it ∈ node_list G /\ vertex it <> n /\
     (n ∉ adjacent_vertices (vertex it) (p_graph G)) /\
     (DistMetric_Eval (config_of G n) (nconfig it) <= neigh_thresh G)%Q).
Proof.
  destruct (findNN_outcomes G n out) as [[-> _]|[-> _]]; [by left|right].
  cbn [fst snd]. split; [done|].
  intros it Hit. apply list_elem_of_In, filter_In in Hit as [Hin Hn].
  split; [by apply list_elem_of_In|]. by apply is_neighbor_true.
Qed.

Lemma getNode_unique (G : SpatialGraph) it :
  NoDup (vertex <$> node_list G) -> it ∈ node_list G ->
  getNode G (vertex it) = it.
Proof.
  unfold getNode.
  induction (node_list G) as [|x l IH] using rev_ind.
  - intros _ Hin. by apply elem_of_nil in Hin.
  - intros Hnd Hin. rewrite foldl_app. simpl.
    rewrite fmap_app in Hnd. apply NoDup_app in Hnd as (Hnd & Hdis & _).
    apply elem_of_app in Hin as [Hin|Hin].
    + destruct (decide (vertex x = vertex it)) as [E|_]; [|by apply IH].
      exfalso. apply (Hdis (vertex it)).
      * apply list_elem_of_fmap. by exists it.
      * simpl. rewrite E. apply list_elem_of_here.
    + apply list_elem_of_singleton in Hin. subst. by rewrite decide_True.
Qed.

Lemma built_default_dense (G : SpatialGraph) :
  built SpatialGraph_default G ->
  vertex <$> node_list G = seq 0 (length (node_list G)).
Proof.
  intros Hb. destruct (built_in_order SpatialGraph_default G eq_refl Hb) as [Hle Hh].
  rewrite Hh. f_equal.
  assert (Hn : num_vertices (p_graph G) = length (node_list G)).
  { clear Hle Hh. induction Hb as [|G c _ IH|G u v Hb IH Hu Hv]; [done| |].
    - rewrite addNode_num_vertices, addNode_node_list, length_app. simpl. lia.
    - pose proof (built_in_order SpatialGraph_default G eq_refl Hb) as Ho.
      destruct (handles_in_order_addEdge G u v Ho Hu Hv) as (_ & -> & -> & _).
      done. }
  lia.
Qed.

(** X6: in a graph built from the default constructor that holds at least
    two nodes, [findNN] on the handle of a stored node returns exactly the
    stored nodes other than [n], not joined to [n] by an edge and within the
    threshold of the configuration of [n], in the order of insertion, and
    their number. *)
Theorem findNN_exact (G : SpatialGraph) (n : s_vertex) (out : list s_node) :
  built SpatialGraph_default G -> 1 < length (node_list G) -> stored G n ->
  (findNN G n out).1 = Z.of_nat (length (findNN G n out).2) /\
  (findNN G n out).2 = List.filter (is_neighbor G n) (node_list G) /\
  forall it, it ∈ (findNN G n out).2 <->
    it ∈ node_list G /\ vertex it <> n /\
    ~ has_edge (p_graph G) n (vertex it) /\
    (DistMetric_Eval (config_of G n) (nconfig it) <= neigh_thresh G)%Q.
Proof.
  intros Hb Hlen Hn.
  pose proof (built_default_dense G Hb) as Hd.
  rewrite (findNN_dense G n out Hd Hlen Hn). cbn [fst snd].
  split; [done|]. split; [done|].
  pose proof (built_edges_ok_aux SpatialGraph_default G eq_refl (fun x => eq_refl) Hb)
    as He.
  intros it. rewrite list_elem_of_In, filter_In, <- list_elem_of_In, is_neighbor_true.
  assert (Hedge : has_edge (p_graph G) n (vertex it)
                  <-> n ∈ adjacent_vertices (vertex it) (p_graph G)).
  { unfold has_edge. split; [|by left]. intros [H|H]; [done|].
    apply elem_of_adjacent in H as [w H]. apply elem_of_adjacent. exists w.
    by apply (eo_sym G He). }
  rewrite Hedge. tauto.
Qed.

(** X7: [findNN] and [addEdge] compose. In a graph built from the default
    constructor, for the handle [n] of a stored node, [addEdge] from [n] to
    any node [findNN] returned succeeds: the warning of [buildRoadMap] on a
    failed insertion is not reached for the first neighbour tried. *)
Theorem findNN_addEdge (G : SpatialGraph) (n : s_vertex) (it : s_node) :
  built SpatialGraph_default G -> 1 < length (node_list G) -> stored G n ->
  it ∈ (findNN G n []).2 ->
  (addEdge G n (vertex it)).1 = true.
Proof.
  intros Hb Hlen Hn Hit.
  pose proof (built_default_dense G Hb) as Hd.
  rewrite (findNN_dense G n [] Hd Hlen Hn) in Hit. cbn [snd] in Hit.
  apply list_elem_of_In, filter_In in Hit as [Hin Hnb].
  apply list_elem_of_In in Hin.
  apply is_neighbor_true in Hnb as (Hne & Hadj & Hle).
  assert (Hu : getNode G (vertex it) = it).
  { apply getNode_unique; [|done]. rewrite Hd. apply NoDup_seq. }
  rewrite addEdge_cases.
  assert (E : edgeExists G n (vertex it) = false).
  { apply edgeExists_false. split; [done|done]. }
  rewrite E, Hu. fold (config_of G n).
  apply Qgt_bool_false in Hle. by rewrite Hle.
Qed.

End Neighbors.

Lemma findNN_exact_witness :
  let G := (addNodes SpatialGraph_default [[0%Q]; [4%Q]; [8%Q]]).2 in
  @built L1Metric SpatialGraph_default G /\
  (@findNN L1Metric G 0 []).2 = [mk_s_node [4%Q] 1] /\
  (@findNN L1Metric G 0 []).1 = 1%Z.
Proof.
  intros G.
  assert (Hb : @built L1Metric SpatialGraph_default G).
  { apply (@built_addNode L1Metric _
             (addNode (addNode SpatialGraph_default [0%Q]).2 [4%Q]).2 [8%Q]).
    apply (@built_addNode L1Metric), (@built_addNode L1Metric),
          (@built_start L1Metric). }
  split; [exact Hb|].
  assert (Hs : stored G 0) by (unfold stored; rewrite list_elem_of_In; simpl; auto).
  assert (Hl : 1 < length (node_list G)) by (simpl; lia).
  destruct (@findNN_exact L1Metric G 0 [] Hb Hl Hs) as (H1 & H2 & _).
  split; [rewrite H2; reflexivity|rewrite H1, H2; reflexivity].
Defined.

Lemma findNN_addEdge_witness :
  let G := (addNodes SpatialGraph_default [[0%Q]; [4%Q]; [8%Q]]).2 in
  mk_s_node [4%Q] 1 ∈ (@findNN L1Metric G 0 []).2 /\
  (@addEdge L1Metric G 0 1).1 = true.
Proof.
  intros G.
  assert (Hb : @built L1Metric SpatialGraph_default G).
  { apply (@built_addNode L1Metric _
             (addNode (addNode SpatialGraph_default [0%Q]).2 [4%Q]).2 [8%Q]).
    apply (@built_addNode L1Metric), (@built_addNode L1Metric),
          (@built_start L1Metric). }
  assert (Hs : stored G 0) by (unfold stored; rewrite list_elem_of_In; simpl; auto).
  assert (Hl : 1 < length (node_list G)) by (simpl; lia).
  assert (Hin : mk_s_node [4%Q] 1 ∈ (@findNN L1Metric G 0 []).2)
    by apply list_elem_of_here.
  split; [exact Hin|].
  exact (@findNN_addEdge L1Metric G 0 (mk_s_node [4%Q] 1) Hb Hl Hs Hin).
Defined.

(** ** SpatialTree: [GetNN] and [Extend], continued *)

Lemma GetNN_scan_first dist q0 (nodes : list t_node) : forall pre acc,
  (let '(ibest, fbest, i) := acc in
   i = Z.of_nat (length pre) /\
   match pre with
   | [] => ibest = (-1)%Z
   | _ => exists k node, ibest = Z.of_nat k /\ pre !! k = Some node /\
            fbest = dist q0 (q node) /\ first_nearest dist q0 pre k
   end) ->
  let '(ibest, fbest, i) := foldl (GetNN_step dist q0) acc nodes in
  match pre ++ nodes with
  | [] => ibest = (-1)%Z
  | _ => exists k node, ibest = Z.of_nat k /\ (pre ++ nodes) !! k = Some node /\
           fbest = dist q0 (q node) /\ first_nearest dist q0 (pre ++ nodes) k
  end.
Proof.
  induction nodes as [|x nodes IH]; intros pre [[ibest fbest] i] [Hi Hpre].
  - simpl. by rewrite app_nil_r.
  - cbn [foldl]. replace (pre ++ x :: nodes) with ((pre ++ [x]) ++ nodes)
      by (by rewrite <- app_assoc).
    apply IH. unfold GetNN_step.
    assert (Hlen : (i + 1)%Z = Z.of_nat (length (pre ++ [x]))).
    { rewrite length_app. simpl. lia. }
    destruct pre as [|n0 pre'].
    + subst ibest. simpl in Hi. subst i. simpl. split; [done|].
      exists 0, x. split; [done|]. split; [done|]. split; [done|].
      exists x. split; [done|]. split.
      * intros n Hn. apply list_elem_of_singleton in Hn as ->. apply Qle_refl.
      * intros j n Hj. lia.
    + destruct Hpre as (k & nb & -> & Hk & -> & (nb' & Hk' & Hmin & Hfirst)).
      simplify_eq.
      assert (Hneg : (Z.of_nat k <? 0)%Z = false) by (apply Z.ltb_ge; lia).
      rewrite Hneg. cbn [orb].
      set (pre := n0 :: pre') in *.
      assert (Hne : forall y, pre ++ [y] <> []) by (intros y; by destruct pre).
      destruct (Qgt_bool (dist q0 (q nb)) (dist q0 (q x))) eqn:E.
      * apply Qgt_bool_true in E. split; [done|].
        destruct (pre ++ [x]) eqn:Eapp; [by apply Hne in Eapp|]. rewrite <- Eapp.
        exists (length pre), x. split; [lia|].
        split; [by apply list_lookup_middle|]. split; [done|].
        exists x. split; [by apply list_lookup_middle|]. split.
        -- intros n Hn. apply elem_of_app in Hn as [Hn|Hn].
           ++ apply Qle_trans with (dist q0 (q nb));
                [by apply Qlt_le_weak|by apply Hmin].
           ++ apply list_elem_of_singleton in Hn as ->. apply Qle_refl.
        -- intros j n Hj Hl. rewrite lookup_app_l in Hl by done.
           apply Qlt_le_trans with (dist q0 (q nb)); [done|].
           apply Hmin. apply list_elem_of_lookup. eauto.
      * apply Qgt_bool_false in E. split; [done|].
        destruct (pre ++ [x]) eqn:Eapp; [by apply Hne in Eapp|]. rewrite <- Eapp.
        exists k, nb. split; [done|].
        split; [by apply lookup_app_l_Some|]. split; [done|].
        exists nb. split; [by apply lookup_app_l_Some|]. split.
        -- intros n Hn. apply elem_of_app in Hn as [Hn|Hn]; [by apply Hmin|].
           by apply list_elem_of_singleton in Hn as ->.
        -- intros j n Hj Hl. apply (Hfirst j n Hj).
           apply lookup_lt_Some in Hk. rewrite lookup_app_l in Hl by lia. done.
Qed.

Lemma GetNN_first (T : SpatialTree) dist q0 :
  _nodes T <> [] -> _distmetricfn T = Some dist ->
  exists k node,
    first_nearest dist q0 (_nodes T) k /\ _nodes T !! k = Some node /\
    GetNN T q0 = Return (Z.of_nat k, set_fBestDist T (dist q0 (q node))).
Proof.
  intros Hne Hd. unfold GetNN. rewrite Hd.
  pose proof (GetNN_scan_first dist q0 (_nodes T) [] ((-1)%Z, 0%Q, 0%Z)) as Hs.
  simpl in Hs.
  destruct (foldl (GetNN_step dist q0) ((-1)%Z, 0%Q, 0%Z) (_nodes T))
    as [[ibest fbest] i].
  destruct (_nodes T) as [|n0 ns] eqn:En; [done|].
  destruct Hs as (k & node & -> & Hk & -> & Hf); [done|].
  by exists k, node.
Qed.

(** X8: [GetNN] returns -1 on an empty tree, whether a metric is set or not,
    and leaves the tree as it is; on a tree with nodes it throws
    [bad_function_call] when no metric is set, and otherwise returns the
    index of the first node among those nearest to the target, recording the
    distance of that node in [_fBestDist] and changing nothing else. *)
Theorem GetNN_spec (T : SpatialTree) (q0 : config) :
  (_nodes T = [] -> GetNN T q0 = Return ((-1)%Z, T)) /\
  (_nodes T <> [] -> _distmetricfn T = None ->
   GetNN T q0 = Throw bad_function_call) /\
  (forall dist, _nodes T <> [] -> _distmetricfn T = Some dist ->
   exists k node,
     first_nearest dist q0 (_nodes T) k /\ _nodes T !! k = Some node /\
     GetNN T q0 = Return (Z.of_nat k, set_fBestDist T (dist q0 (q node)))).
Proof.
  split; [|split].
  - intros E. unfold GetNN. by rewrite E.
  - intros Hne Hd. unfold GetNN. rewrite Hd. by destruct (_nodes T).
  - intros dist. apply GetNN_first.
Qed.

Section ExtendMore.
Context {CF : CollisionFunctions}.

(** What a run of the loop of [Extend] that returns has done: it appended
    the nodes [added], a chain hanging from the node [lastindex], each
    joined to the node before by a segment the oracle accepted. *)
Lemma Extend_loop_appends fuel :
  forall params target bOneStep (T : SpatialTree) lastindex pnode bHasAdded r i T',
  (0 <= lastindex < Z.of_nat (length (_nodes T)))%Z ->
  _nodes T !! Z.to_nat lastindex = Some pnode ->
  Extend_loop fuel params target bOneStep T lastindex pnode bHasAdded
    = Some (Return (r, i, T')) ->
  exists added,
    _nodes T' = _nodes T ++ added /\
    (_distmetricfn T' = _distmetricfn T /\ _planner T' = _planner T /\
     _fStepLength T' = _fStepLength T /\ _dof T' = _dof T /\
     _fBestDist T' = _fBestDist T) /\
    (r = ET_Failed -> added = [] /\ bHasAdded = false) /\
    (r = ET_Sucess -> bHasAdded = true \/ added <> []) /\
    (bOneStep = true -> length added <= 1) /\
    i = (match added with
         | [] => lastindex
         | _ => Z.of_nat (length (_nodes T')) - 1
         end)%Z /\
    forall j n, added !! j = Some n ->
      parent n = (match j with
                  | O => lastindex
                  | S j' => Z.of_nat (length (_nodes T) + j')
                  end) /\
      exists pn, (_nodes T ++ added) !! Z.to_nat (parent n) = Some pn /\
                 CheckCollision params (q pn) (q n) = false.
Proof.
  induction fuel as [|fuel IH]; intros * Hidx Hp Hrun; [done|].
  cbn [Extend_loop] in Hrun.
  destruct (_distmetricfn T) as [dist|] eqn:Hd; [|done]. rewrite <- Hd.
  assert (Hstop : forall bH v rr ii TT,
    ret (stopped bH, lastindex, set_vNewConfig T v) = Some (Return (rr, ii, TT)) ->
    bH = bHasAdded ->
    exists added,
      _nodes TT = _nodes T ++ added /\
      (_distmetricfn TT = _distmetricfn T /\ _planner TT = _planner T /\
       _fStepLength TT = _fStepLength T /\ _dof TT = _dof T /\
       _fBestDist TT = _fBestDist T) /\
      (rr = ET_Failed -> added = [] /\ bHasAdded = false) /\
      (rr = ET_Sucess -> bHasAdded = true \/ added <> []) /\
      (bOneStep = true -> length added <= 1) /\
      ii = (match added with
            | [] => lastindex
            | _ => Z.of_nat (length (_nodes TT)) - 1
            end)%Z /\
      forall j n, added !! j = Some n ->
        parent n = (match j with
                    | O => lastindex
                    | S j' => Z.of_nat (length (_nodes T) + j')
                    end) /\
        exists pn, (_nodes T ++ added) !! Z.to_nat (parent n) = Some pn /\
                   CheckCollision params (q pn) (q n) = false).
  { intros bH v rr ii TT Hret ->. unfold ret in Hret. simplify_eq.
    exists []. cbn [_nodes set_vNewConfig _distmetricfn _planner _fStepLength
                     _dof _fBestDist].
    rewrite app_nil_r. split; [done|]. split; [done|].
    split; [by destruct bHasAdded|]. split; [destruct bHasAdded; auto; done|].
    split; [simpl; lia|]. split; [done|]. intros j n Hj. done. }
  destruct (step_scale _ _) as [f|].
  2:{ unfold ret in Hrun. simplify_eq. exists []. rewrite app_nil_r.
      split; [done|]. split; [done|]. split; [done|]. split; [done|].
      split; [simpl; lia|]. split; [done|]. intros j n Hj. done. }
  destruct (candidate _ _ _ _ _ _ _) as [ok v].
  destruct ok; cbn [negb] in Hrun; [|by eapply Hstop].
  destruct (CheckCollision params (q pnode) v) eqn:Hcol; [by eapply Hstop|].
  clear Hstop.
  destruct (AddNode (set_vNewConfig T v) lastindex v) as [j2 T2] eqn:EA.
  pose proof (AddNode_index (set_vNewConfig T v) lastindex v) as Hj.
  pose proof (AddNode_nodes (set_vNewConfig T v) lastindex v) as HT2.
  rewrite EA in Hj, HT2. cbn [fst snd _nodes set_vNewConfig] in Hj, HT2.
  assert (Hfields : _distmetricfn T2 = _distmetricfn T /\ _planner T2 = _planner T /\
                    _fStepLength T2 = _fStepLength T /\ _dof T2 = _dof T /\
                    _fBestDist T2 = _fBestDist T).
  { unfold AddNode in EA. by simplify_eq. }
  set (new := mk_t_node lastindex v) in *.
  assert (Hl2 : _nodes T2 !! Z.to_nat j2 = Some new).
  { rewrite HT2, Hj, Nat2Z.id. by apply list_lookup_middle. }
  rewrite Hl2 in Hrun.
  assert (Hnew : forall pn0, (_nodes T ++ [new]) !! Z.to_nat (parent new) = Some pn0 ->
                             pn0 = pnode).
  { intros pn0. simpl. rewrite lookup_app_l by lia. rewrite Hp. by intros [= <-]. }
  destruct bOneStep.
  - unfold ret in Hrun. simplify_eq. exists [new].
    split; [done|]. split; [done|]. split; [done|].
    split; [intros _; by right|]. split; [simpl; lia|].
    split; [rewrite HT2, length_app; simpl; lia|].
    intros j n Hjn. destruct j as [|j]; [|done]. simpl in Hjn. simplify_eq.
    split; [done|]. exists pnode. split; [|done].
    simpl. by rewrite lookup_app_l by lia.
  - apply IH in Hrun as (added2 & E1 & E2 & E3 & E4 & E5 & E6 & E7).
    2:{ rewrite HT2, length_app. simpl. lia. }
    2:{ done. }
    exists (new :: added2).
    destruct Hfields as (F1 & F2 & F3 & F4 & F5).
    destruct E2 as (G1 & G2 & G3 & G4 & G5).
    split; [rewrite E1, HT2; by rewrite <- app_assoc|].
    split; [by rewrite G1, G2, G3, G4, G5|].
    split; [intros Hr; by destruct (E3 Hr)|].
    split; [intros _; by right|]. split; [done|].
    split.
    { rewrite E6. destruct added2; [|done].
      rewrite E1, app_nil_r, HT2, length_app. simpl. lia. }
    intros j n Hjn. destruct j as [|j].
    + simpl in Hjn. simplify_eq. split; [done|]. exists pnode. split; [|done].
      simpl. by rewrite lookup_app_l by lia.
    + simpl in Hjn. destruct (E7 j n Hjn) as [Hpar (pn & Hpn & Hc)].
      split.
      * rewrite Hpar. destruct j; [lia|]. rewrite HT2, length_app. simpl. lia.
      * exists pn. split; [|done]. rewrite HT2, <- app_assoc in Hpn. done.
Qed.

End ExtendMore.

Section ExtendCalls.
Context {CF : CollisionFunctions}.

Lemma Extend_empty fuel (T : SpatialTree) target bOneStep :
  _nodes T = [] ->
  Extend fuel T target bOneStep = Some (Return (ET_Failed, (-1)%Z, T)).
Proof.
  intros E. unfold Extend, GetNN. by rewrite E.
Qed.

Lemma Extend_enters_first fuel (T : SpatialTree) target bOneStep dist params :
  _nodes T <> [] -> _distmetricfn T = Some dist -> _planner T = Some params ->
  exists k node,
    first_nearest dist target (_nodes T) k /\ _nodes T !! k = Some node /\
    Extend fuel T target bOneStep =
    Extend_loop fuel params target bOneStep
                (set_fBestDist T (dist target (q node))) (Z.of_nat k) node false.
Proof.
  intros Hne Hd Hp.
  destruct (GetNN_first T dist target Hne Hd) as (k & node & Hf & Hk & HNN).
  exists k, node. split; [done|]. split; [done|].
  unfold Extend. rewrite HNN. cbn [lift run_bind].
  destruct (Z.ltb_spec (Z.of_nat k) 0); [lia|].
  rewrite Nat2Z.id. cbn [_nodes set_fBestDist _planner].
  by rewrite Hk, Hp.
Qed.

Lemma Extend_loop_no_throw fuel :
  forall params target bOneStep (T : SpatialTree) lastindex pnode bHasAdded e,
  _distmetricfn T <> None ->
  Extend_loop fuel params target bOneStep T lastindex pnode bHasAdded
    <> Some (Throw e).
Proof.
  induction fuel as [|fuel IH]; intros * Hd Hrun; [done|].
  cbn [Extend_loop] in Hrun.
  destruct (_distmetricfn T) as [dist|] eqn:Ed; [|done].
  destruct (step_scale _ _) as [f|]; [|done].
  destruct (candidate _ _ _ _ _ _ _) as [ok v].
  destruct ok; cbn [negb] in Hrun; [|done].
  destruct (CheckCollision params (q pnode) v); [done|].
  destruct (AddNode (set_vNewConfig T v) lastindex v) as [j2 T2] eqn:EA.
  pose proof (AddNode_index (set_vNewConfig T v) lastindex v) as Hj.
  pose proof (AddNode_nodes (set_vNewConfig T v) lastindex v) as HT2.
  rewrite EA in Hj, HT2. cbn [fst snd _nodes set_vNewConfig] in Hj, HT2.
  assert (Hd2 : _distmetricfn T2 = Some dist).
  { unfold AddNode in EA. simplify_eq. done. }
  rewrite HT2, Hj, Nat2Z.id, list_lookup_middle in Hrun by done.
  destruct bOneStep; [done|].
  eapply IH; [|exact Hrun]. by rewrite Hd2.
Qed.

(** X9: the calls of [Extend] that do not extend. On an empty tree [Extend]
    returns [ET_Failed] with [lastindex] -1 and touches nothing, whatever
    the metric and the planner. On a tree with nodes it throws exactly in
    two cases: [bad_function_call] when no metric is set, and
    [bad_weak_ptr] when a metric is set but the planner is gone; no other
    exception leaves it. *)
Theorem Extend_exceptions (fuel : nat) (T : SpatialTree) (target : config)
    (bOneStep : bool) :
  (_nodes T = [] ->
   Extend fuel T target bOneStep = Some (Return (ET_Failed, (-1)%Z, T))) /\
  (forall e, Extend fuel T target bOneStep = Some (Throw e) <->
     _nodes T <> [] /\
     ((_distmetricfn T = None /\ e = bad_function_call) \/
      (_distmetricfn T <> None /\ _planner T = None /\ e = bad_weak_ptr))).
Proof.
  split; [apply Extend_empty|].
  intros e. destruct (_nodes T) as [|n0 ns] eqn:En.
  { rewrite Extend_empty by done. split; [done|]. by intros [? _]. }
  assert (Hne : _nodes T <> []) by (by rewrite En).
  rewrite <- En. clear En.
  destruct (_distmetricfn T) as [dist|] eqn:Hd.
  - destruct (_planner T) as [params|] eqn:Hp.
    + destruct (Extend_enters_first fuel T target bOneStep dist params Hne Hd Hp)
        as (k & node & _ & _ & ->).
      split.
      * intros Hrun. exfalso.
        eapply Extend_loop_no_throw; [|exact Hrun].
        cbn [_distmetricfn set_fBestDist]. by rewrite Hd.
      * intros (_ & [[? _]|(_ & ? & _)]); done.
    + destruct (GetNN_first T dist target Hne Hd) as (k & node & _ & Hk & HNN).
      unfold Extend. rewrite HNN. cbn [lift run_bind].
      destruct (Z.ltb_spec (Z.of_nat k) 0); [lia|].
      rewrite Nat2Z.id. cbn [_nodes set_fBestDist _planner]. rewrite Hk, Hp.
      unfold throw. split.
      * intros [= <-]. split; [done|]. right. done.
      * intros (_ & [[? _]|(_ & _ & ->)]); done.
  - unfold Extend, GetNN. rewrite Hd.
    destruct (_nodes T) as [|n1 ns1] eqn:En; [done|]. cbn [lift run_bind].
    split.
    + intros [= <-]. split; [done|]. by left.
    + intros (_ & [[_ ->]|(? & _)]); done.
Qed.

Lemma Extend_returns_inv fuel (T : SpatialTree) target bOneStep r i T' :
  Extend fuel T target bOneStep = Some (Return (r, i, T')) ->
  (_nodes T = [] /\ r = ET_Failed /\ i = (-1)%Z /\ T' = T) \/
  (exists dist params k node,
     _distmetricfn T = Some dist /\ _planner T = Some params /\
     first_nearest dist target (_nodes T) k /\ _nodes T !! k = Some node /\
     Extend_loop fuel params target bOneStep
       (set_fBestDist T (dist target (q node))) (Z.of_nat k) node false
     = Some (Return (r, i, T'))).
Proof.
  intros Hrun.
  assert (Hc : _nodes T = [] \/ _nodes T <> []).
  { destruct (_nodes T); [by left|by right]. }
  destruct Hc as [En|Hne].
  { rewrite Extend_empty in Hrun by done. simplify_eq. by left. }
  right.
  destruct (_distmetricfn T) as [dist|] eqn:Hd.
  2:{ unfold Extend, GetNN in Hrun. rewrite Hd in Hrun.
      by destruct (_nodes T). }
  destruct (_planner T) as [params|] eqn:Hp.
  2:{ destruct (GetNN_first T dist target Hne Hd) as (k & node & _ & Hk & HNN).
      unfold Extend in Hrun. rewrite HNN in Hrun. cbn [lift run_bind] in Hrun.
      destruct (Z.ltb_spec (Z.of_nat k) 0); [lia|].
      rewrite Nat2Z.id in Hrun. cbn [_nodes set_fBestDist _planner] in Hrun.
      by rewrite Hk, Hp in Hrun. }
  destruct (Extend_enters_first fuel T target bOneStep dist params Hne Hd Hp)
    as (k & node & Hfirst & Hk & E).
  rewrite E in Hrun. by exists dist, params, k, node.
Qed.

(** X10: a call of [Extend] that returns only appends to the tree. The
    nodes present before keep their index and their content, so
    [GetConfig] answers the same on them; the metric, the planner, the
    step length and the number of degrees of freedom are untouched.
    [ET_Failed] means that no node was added, [ET_Sucess] that at least one
    was, and with [bOneStep] at most one is. On a tree with nodes the
    [lastindex] returned is the index of a node: of the last node added if
    there is one. *)
Theorem Extend_appends (fuel : nat) (T : SpatialTree) (target : config)
    (bOneStep : bool) (r : ExtendType) (i : Z) (T' : SpatialTree) :
  Extend fuel T target bOneStep = Some (Return (r, i, T')) ->
  exists added,
    _nodes T' = _nodes T ++ added /\
    (_distmetricfn T' = _distmetricfn T /\ _planner T' = _planner T /\
     _fStepLength T' = _fStepLength T /\ _dof T' = _dof T) /\
    (forall j c, GetConfig T j = Return c -> GetConfig T' j = Return c) /\
    (r = ET_Failed -> added = []) /\
    (r = ET_Sucess -> added <> []) /\
    (bOneStep = true -> length added <= 1) /\
    (_nodes T = [] -> r = ET_Failed /\ i = (-1)%Z) /\
    (_nodes T <> [] -> (0 <= i < Z.of_nat (length (_nodes T')))%Z) /\
    (added <> [] -> i = (Z.of_nat (length (_nodes T')) - 1)%Z).
Proof.
  intros Hrun.
  assert (Hget : forall added j c, _nodes T' = _nodes T ++ added ->
            GetConfig T j = Return c -> GetConfig T' j = Return c).
  { intros added j c E. unfold GetConfig. rewrite E.
    destruct (j <? 0)%Z; [done|].
    destruct (_nodes T !! Z.to_nat j) as [n|] eqn:El; [|done].
    by rewrite (lookup_app_l_Some _ _ _ _ El). }
  apply Extend_returns_inv in Hrun
    as [(En & -> & -> & ->)|(dist & params & k & node & Hd & Hp & _ & Hk & Hrun)].
  { exists []. rewrite app_nil_r. repeat split; try done. simpl. lia. }
  assert (Hne : _nodes T <> []).
  { intros E. by rewrite E in Hk. }
  apply Extend_loop_appends in Hrun
    as (added & E1 & (F1 & F2 & F3 & F4 & _) & E3 & E4 & E5 & E6 & _).
  2:{ cbn [_nodes set_fBestDist]. apply lookup_lt_Some in Hk. lia. }
  2:{ cbn [_nodes set_fBestDist]. by rewrite Nat2Z.id. }
  cbn [_nodes set_fBestDist _distmetricfn _planner _fStepLength _dof] in *.
  exists added. split; [done|]. split; [by rewrite F1, F2, F3, F4|].
  split; [intros j c; by apply Hget with added|].
  split; [intros Hr; by destruct (E3 Hr)|].
  split.
  { intros Hr. destruct (E4 Hr) as [?|?]; done. }
  split; [done|]. split; [done|]. split.
  - intros _. apply lookup_lt_Some in Hk.
    rewrite E6. destruct added; rewrite E1, length_app; simpl; lia.
  - intros Ha. rewrite E6. by destruct added.
Qed.

Lemma Extend_added_node fuel (T : SpatialTree) target bOneStep r i T' j n :
  Extend fuel T target bOneStep = Some (Return (r, i, T')) ->
  length (_nodes T) <= j -> _nodes T' !! j = Some n ->
  exists dist params k,
    _distmetricfn T = Some dist /\ _planner T = Some params /\
    first_nearest dist target (_nodes T) k /\
    parent n = (if decide (j = length (_nodes T)) then Z.of_nat k
                else Z.of_nat j - 1)%Z /\
    edge_checked params (_nodes T') j n.
Proof.
  intros Hrun Hj Hn.
  apply Extend_returns_inv in Hrun
    as [(En & -> & -> & ->)|(dist & params & k & node & Hd & Hp & Hf & Hk & Hrun)].
  { rewrite En in Hj. apply lookup_lt_Some in Hn. rewrite En in Hn.
    simpl in Hn. lia. }
  apply Extend_loop_appends in Hrun as (added & E1 & _ & _ & _ & _ & _ & E7).
  2:{ cbn [_nodes set_fBestDist]. apply lookup_lt_Some in Hk. lia. }
  2:{ cbn [_nodes set_fBestDist]. by rewrite Nat2Z.id. }
  cbn [_nodes set_fBestDist] in *.
  exists dist, params, k. split; [done|]. split; [done|]. split; [done|].
  rewrite E1 in Hn. rewrite lookup_app_r in Hn by done.
  destruct (E7 _ _ Hn) as (Hpar & pn & Hpn & Hcol).
  apply lookup_lt_Some in Hk as Hklt.
  assert (Hpar' : parent n = (if decide (j = length (_nodes T)) then Z.of_nat k
                              else Z.of_nat j - 1)%Z).
  { rewrite Hpar. destruct (decide _) as [->|Hneq].
    - by rewrite Nat.sub_diag.
    - destruct (j - length (_nodes T)) eqn:Ej; lia. }
  split; [done|].
  exists pn. rewrite E1. split; [|done].
  rewrite Hpar'. destruct (decide _); lia.
Qed.

(** X11: the nodes a call of [Extend] adds form a chain that hangs from the
    first of the nodes nearest to the target: each new node has the node
    added just before it as parent, the first one the nearest node, and the
    collision oracle accepted the segment from the parent to the node. *)
Theorem Extend_edges_checked (fuel : nat) (T : SpatialTree) (target : config)
    (bOneStep : bool) (r : ExtendType) (i : Z) (T' : SpatialTree)
    (j : nat) (n : t_node) :
  Extend fuel T target bOneStep = Some (Return (r, i, T')) ->
  length (_nodes T) <= j -> _nodes T' !! j = Some n ->
  exists dist params,
    _distmetricfn T = Some dist /\ _planner T = Some params /\
    edge_checked params (_nodes T') j n /\
    (j = length (_nodes T) ->
     first_nearest dist target (_nodes T) (Z.to_nat (parent n))) /\
    (length (_nodes T) < j -> parent n = (Z.of_nat j - 1)%Z).
Proof.
  intros Hrun Hj Hn.
  destruct (Extend_added_node _ _ _ _ _ _ _ _ _ Hrun Hj Hn)
    as (dist & params & k & Hd & Hp & Hf & Hpar & Hc).
  exists dist, params. split; [done|]. split; [done|]. split; [done|].
  split.
  - intros Ej. rewrite Hpar. destruct (decide _); [|done].
    by rewrite Nat2Z.id.
  - intros Hlt. rewrite Hpar. destruct (decide _); [lia|done].
Qed.

Lemma Extend_keeps fuel (T : SpatialTree) target bOneStep r i T' :
  Extend fuel T target bOneStep = Some (Return (r, i, T')) ->
  exists added, _nodes T' = _nodes T ++ added /\ _planner T' = _planner T.
Proof.
  intros Hrun.
  apply Extend_returns_inv in Hrun
    as [(En & -> & -> & ->)|(dist & params & k & node & Hd & Hp & _ & Hk & Hrun)].
  { exists []. by rewrite app_nil_r. }
  apply Extend_loop_appends in Hrun as (added & E1 & (_ & F2 & _) & _).
  2:{ cbn [_nodes set_fBestDist]. apply lookup_lt_Some in Hk. lia. }
  2:{ cbn [_nodes set_fBestDist]. by rewrite Nat2Z.id. }
  by exists added.
Qed.

(** X12: in every tree grown from a root by calls to [Extend], each node
    other than the root hangs from an earlier node by a segment that the
    collision oracle accepted when the node was added. *)
Theorem grown_edges_checked (root : Z) (T : SpatialTree)
    (params : PlannerParameters) (j : nat) (n : t_node) :
  grown root T -> _planner T = Some params ->
  0 < j -> _nodes T !! j = Some n ->
  edge_checked params (_nodes T) j n.
Proof.
  intros Hg. revert params j n.
  induction Hg as [T c E|T fuel target bOneStep r i T' Hg IH Hrun];
    intros params j n Hp Hj Hn.
  - rewrite AddNode_nodes, E in Hn. destruct j; [lia|]. done.
  - destruct (Extend_keeps _ _ _ _ _ _ _ Hrun) as (added & E1 & E2).
    destruct (decide (j < length (_nodes T))) as [Hlt|Hge].
    + pose proof Hn as Hn'. rewrite E1, lookup_app_l in Hn' by done.
      rewrite E2 in Hp.
      destruct (IH params j n Hp Hj Hn') as (pn & Hr & Hpn & Hc).
      exists pn. split; [done|]. split; [|done].
      rewrite E1. by apply lookup_app_l_Some.
    + assert (Hj' : length (_nodes T) <= j) by lia.
      destruct (Extend_added_node _ _ _ _ _ _ _ _ _ Hrun Hj' Hn)
        as (dist & params' & k & Hd & Hp' & Hf & Hpar & Hc).
      rewrite E2 in Hp. by simplify_eq.
Qed.

End ExtendCalls.

Lemma Extend_appends_witness :
  exists T',
    @Extend FreeSpace 2 example_tree [1%Q] true
    = Some (Return (ET_Connected, 1%Z, T')) /\
    exists added,
      _nodes T' = _nodes example_tree ++ added /\
      (_distmetricfn T' = _distmetricfn example_tree /\
       _planner T' = _planner example_tree /\
       _fStepLength T' = _fStepLength example_tree /\
       _dof T' = _dof example_tree) /\
      (forall j c, GetConfig example_tree j = Return c ->
                   GetConfig T' j = Return c) /\
      (ET_Connected = ET_Failed -> added = []) /\
      (ET_Connected = ET_Sucess -> added <> []) /\
      (true = true -> length added <= 1) /\
      (_nodes example_tree = [] -> ET_Connected = ET_Failed /\ 1%Z = (-1)%Z) /\
      (_nodes example_tree <> [] -> (0 <= 1 < Z.of_nat (length (_nodes T')))%Z) /\
      (added <> [] -> 1%Z = (Z.of_nat (length (_nodes T')) - 1)%Z).
Proof.
  eexists. split; [reflexivity|].
  apply (@Extend_appends FreeSpace 2 example_tree [1%Q] true ET_Connected 1%Z).
  reflexivity.
Defined.

Lemma Extend_edges_checked_witness :
  exists T',
    @Extend FreeSpace 2 example_tree [1%Q] true
    = Some (Return (ET_Connected, 1%Z, T')) /\
    exists dist params,
      _distmetricfn example_tree = Some dist /\
      _planner example_tree = Some params /\
      @edge_checked FreeSpace params (_nodes T') 1
         (mk_t_node 0 [float_0_04]) /\
      (1 = length (_nodes example_tree) ->
       first_nearest dist [1%Q] (_nodes example_tree)
         (Z.to_nat (parent (mk_t_node 0 [float_0_04])))) /\
      (length (_nodes example_tree) < 1 ->
       parent (mk_t_node 0 [float_0_04]) = (Z.of_nat 1 - 1)%Z).
Proof.
  eexists. split; [reflexivity|].
  apply (@Extend_edges_checked FreeSpace 2 example_tree [1%Q] true
           ET_Connected 1%Z).
  - reflexivity.
  - simpl. lia.
  - reflexivity.
Defined.

Lemma grown_edges_checked_witness :
  exists T',
    @grown FreeSpace 0 T' /\
    @edge_checked FreeSpace (example_params [0%Q] [(1 # 1000)%Q]) (_nodes T') 1
       (mk_t_node 0 [float_0_04]).
Proof.
  eexists. split.
  - apply (@grown_Extend FreeSpace 0 example_tree 2 [1%Q] true ET_Connected 1%Z).
    + by apply (@grown_root FreeSpace 0
                  (wired_tree (example_params [0%Q] [(1 # 1000)%Q])) [0%Q]).
    + reflexivity.
  - apply (@grown_edges_checked FreeSpace 0).
    + apply (@grown_Extend FreeSpace 0 example_tree 2 [1%Q] true ET_Connected 1%Z).
      * by apply (@grown_root FreeSpace 0
                    (wired_tree (example_params [0%Q] [(1 # 1000)%Q])) [0%Q]).
      * reflexivity.
    + reflexivity.
    + lia.
    + reflexivity.
Defined.

(** ** The tree planner, beyond the first sample *)

Section PlannerMore.
Context {CF : CollisionFunctions}.

Lemma run_bind_lift {A B} (a : A) (k : A -> run B) :
  run_bind (lift (Return a)) k = k a.
Proof. reflexivity. Qed.

Lemma Extend_unwired fuel (T : SpatialTree) target bOneStep :
  _nodes T <> [] -> _distmetricfn T = None ->
  Extend fuel T target bOneStep = Some (Throw bad_function_call).
Proof.
  intros Hne Hd. unfold Extend, GetNN. rewrite Hd.
  by destruct (_nodes T).
Qed.

Lemma buildTrees_unwired fuel samples : forall (P : SBLPlanner),
  b_connected P = false ->
  is_Some (_nodes (t_start P) !! 0) -> is_Some (_nodes (t_goal P) !! 0) ->
  _distmetricfn (t_start P) = None -> _distmetricfn (t_goal P) = None ->
  buildTrees fuel samples P 0 0 =
  if bool_decide (Exists is_Some samples)
  then Some (Throw bad_function_call) else None.
Proof.
  induction samples as [|s samples IH]; intros P Hc Hs Hg Hds Hdg.
  - cbn [buildTrees]. rewrite Hc. case_bool_decide as Hex; [|done].
    by apply Exists_nil in Hex.
  - cbn [buildTrees]. rewrite Hc. destruct s as [c|].
    + rewrite bool_decide_eq_true_2 by (left; done).
      destruct Hs as [n Hn].
      assert (E1 : GetConfig (t_start (set_random_config P c)) 0 = Return (q n)).
      { unfold GetConfig. cbn [t_start set_random_config].
        change (Z.to_nat 0) with 0. by rewrite Hn. }
      assert (E2 : Extend fuel (t_start (set_random_config P c)) (q n) false
                   = Some (Throw bad_function_call)).
      { apply Extend_unwired; [|done]. cbn [t_start set_random_config].
        intros E. by rewrite E in Hn. }
      unfold buildTrees_round. rewrite E1, run_bind_lift. cbv beta.
      by rewrite E2.
    + rewrite IH by done.
      assert (E : bool_decide (Exists is_Some samples)
                  = bool_decide (Exists is_Some (None :: samples : list (option config)))).
      { apply bool_decide_ext. rewrite Exists_cons. split; [tauto|].
        intros [H|H]; [by destruct H|done]. }
      by rewrite E.
Qed.

(** X13: the tree planner as shipped never returns from [PlanPath].
    [InitPlan] leaves both trees without a metric, so whatever the sampler
    delivers, the first sample it succeeds on makes [Extend] throw
    [bad_function_call] out of [PlanPath], the trajectory untouched; and as
    long as the sampler fails the loop of [buildTrees] goes on. *)
Theorem PlanPath_shipped_never_returns (fuel : nat)
    (samples : list (option config)) (params : PlannerParameters) (dof : nat)
    (ptraj : list config) :
  PlanPath fuel samples (InitPlan params dof) ptraj =
  if bool_decide (Exists is_Some samples)
  then Some (Throw bad_function_call, ptraj) else None.
Proof.
  unfold PlanPath. cbn [p_parameters InitPlan t_start t_goal].
  unfold AddNode. cbn [_nodes SpatialTree_new length].
  change (Z.of_nat 0) with 0%Z.
  rewrite buildTrees_unwired; [by destruct (bool_decide _)|done| | |done..];
    by eexists.
Qed.

Lemma buildTrees_round_fields fuel (P : SBLPlanner) start_id goal_id P' continued :
  buildTrees_round fuel P start_id goal_id = Some (Return (P', continued)) ->
  p_parameters P' = p_parameters P /\ l_pathnodes P' = l_pathnodes P.
Proof.
  intros Hrun. unfold buildTrees_round in Hrun.
  run_inv Hrun. run_inv Hrun. destruct x0 as [[e0 i0] ts0].
  run_inv Hrun. destruct x0 as [[ets i_start_index] ts].
  destruct ets.
  - unfold ret in Hrun. by simplify_eq.
  - run_inv Hrun. run_inv Hrun. destruct x1 as [[e1 i1] tg0].
    run_inv Hrun. run_inv Hrun. destruct x2 as [[etg i2] tg].
    unfold ret in Hrun. destruct etg; by simplify_eq.
  - run_inv Hrun. run_inv Hrun. destruct x1 as [[e1 i1] tg0].
    run_inv Hrun. run_inv Hrun. destruct x2 as [[etg i2] tg].
    unfold ret in Hrun. destruct etg; by simplify_eq.
Qed.

Lemma buildTrees_fields fuel samples start_id goal_id :
  forall (P P' : SBLPlanner),
  buildTrees fuel samples P start_id goal_id = Some (Return P') ->
  b_connected P' = true /\
  p_parameters P' = p_parameters P /\ l_pathnodes P' = l_pathnodes P.
Proof.
  induction samples as [|s samples IH]; intros P P' Hrun.
  - simpl in Hrun. destruct (b_connected P) eqn:Hc; [|done].
    unfold ret in Hrun. by simplify_eq.
  - cbn [buildTrees] in Hrun. destruct (b_connected P) eqn:Hc.
    { unfold ret in Hrun. by simplify_eq. }
    destruct s as [c|].
    + run_inv Hrun. destruct x as [P1 continued].
      apply buildTrees_round_fields in Hx as [H1 H2].
      apply IH in Hrun as (? & H3 & H4). split; [done|].
      destruct continued; cbn in H3, H4; by rewrite H3, H4, ?H1, ?H2.
    + apply IH in Hrun as (? & H3 & H4). by split.
Qed.

(** X14: the connection flag is never cleared, so a planner on which
    [PlanPath] has returned true answers every later call at once: it takes
    no sample and extends no tree, appends the start configuration with
    parent 0 to the tree that [t_start] now names and the goal
    configuration with parent 1000 to the other, and returns true again. *)
Theorem PlanPath_again (fuel : nat) (samples : list (option config))
    (P : SBLPlanner) (ptraj : list config) (P' : SBLPlanner)
    (ptraj' : list config) :
  PlanPath fuel samples P ptraj = Some (Return (true, P'), ptraj') ->
  exists params,
    p_parameters P = Some params /\
    forall fuel2 samples2 ptraj2,
      PlanPath fuel2 samples2 P' ptraj2 =
      Some (Return (true,
              set_trees P'
                (AddNode (t_start P') 0 (vinitialconfig params)).2
                (AddNode (t_goal P') 1000 (vgoalconfig params)).2),
            emit (GetDOF params) (replicate (Z.to_nat (GetDOF params)) 0%Q)
                 (l_pathnodes P) ptraj2).
Proof.
  intros Hrun. unfold PlanPath in Hrun.
  destruct (p_parameters P) as [params|] eqn:Hp; [|by simplify_eq].
  exists params. split; [done|].
  destruct (AddNode (t_start P) 0 (vinitialconfig params)) as [s_id ts].
  destruct (AddNode (t_goal P) 1000 (vgoalconfig params)) as [g_id tg].
  destruct (buildTrees fuel samples (set_trees P ts tg) s_id g_id)
    as [[P1|e]|] eqn:Eb; [|done..].
  apply buildTrees_fields in Eb as (Hc & Hp1 & Hl1).
  cbn [p_parameters l_pathnodes set_trees] in Hp1, Hl1.
  simplify_eq.
  intros fuel2 samples2 ptraj2. unfold PlanPath.
  rewrite Hp1, Hp.
  destruct (AddNode (t_start P') 0 (vinitialconfig params)) as [s_id2 ts2].
  destruct (AddNode (t_goal P') 1000 (vgoalconfig params)) as [g_id2 tg2].
  cbn [snd].
  assert (E : forall s g, buildTrees fuel2 samples2 (set_trees P' ts2 tg2) s g
              = Some (Return (set_trees P' ts2 tg2))).
  { intros s g. destruct samples2; cbn [buildTrees b_connected set_trees];
      by rewrite Hc. }
  rewrite E. cbn [l_pathnodes set_trees]. by rewrite Hl1.
Qed.

End PlannerMore.

Lemma PlanPath_again_witness :
  exists P',
    @PlanPath FreeSpace 5 [Some [0%Q]]
       (wired_planner (example_params [0%Q] [(1 # 1000)%Q])) []
    = Some (Return (true, P'), []) /\
    exists params,
      p_parameters (wired_planner (example_params [0%Q] [(1 # 1000)%Q]))
      = Some params /\
      forall fuel2 samples2 ptraj2,
        @PlanPath FreeSpace fuel2 samples2 P' ptraj2 =
        Some (Return (true,
                set_trees P'
                  (AddNode (t_start P') 0 (vinitialconfig params)).2
                  (AddNode (t_goal P') 1000 (vgoalconfig params)).2),
              emit (GetDOF params) (replicate (Z.to_nat (GetDOF params)) 0%Q)
                   (l_pathnodes
                      (wired_planner (example_params [0%Q] [(1 # 1000)%Q])))
                   ptraj2).
Proof.
  eexists. split; [reflexivity|].
  apply (@PlanPath_again FreeSpace 5 [Some [0%Q]]
           (wired_planner (example_params [0%Q] [(1 # 1000)%Q])) [] _ []).
  reflexivity.
Defined.

(** ** The trajectory written from a path *)

Lemma fill_point_prefix (c pt : config) (k : nat) :
  k <= length pt -> k <= length c ->
  foldl (fun pt i => <[i := at0 c i]> pt) pt (seq 0 k) = take k c ++ drop k pt.
Proof.
  induction k as [|k IH]; intros Hp Hc.
  - done.
  - rewrite seq_S, foldl_app, IH by lia. cbn [foldl Nat.add].
    destruct (lookup_lt_is_Some_2 c k) as [x Hx]; [lia|].
    unfold at0. rewrite Hx. simpl.
    rewrite (take_S_r _ _ _ Hx).
    rewrite insert_app_r_alt by (rewrite length_take; lia).
    rewrite length_take, Nat.min_l, Nat.sub_diag by lia.
    destruct (drop k pt) as [|y l] eqn:Ed.
    { apply (f_equal length) in Ed. rewrite length_drop in Ed. simpl in Ed. lia. }
    simpl. rewrite <- app_assoc. simpl. do 2 f_equal.
    change (S k) with (1 + k). by rewrite Nat.add_comm, <- drop_drop, Ed.
Qed.

(** X15: the trajectory both planners write from a path. When every node
    of the path has at least [GetDOF()] coordinates, the loop appends one
    point per node, in the order of the list: the first [GetDOF()]
    coordinates of the node; the points already in the trajectory stay. *)
Theorem emit_spec (dof : Z) (pt : config) (path : list s_node)
    (ptraj : list config) :
  length pt = Z.to_nat dof ->
  (forall n, n ∈ path -> Z.to_nat dof <= length (nconfig n)) ->
  emit dof pt path ptraj =
  ptraj ++ ((fun n => take (Z.to_nat dof) (nconfig n)) <$> path).
Proof.
  revert pt ptraj. induction path as [|n path IH]; intros pt ptraj Hpt Hpath.
  - simpl. by rewrite app_nil_r.
  - cbn [emit]. 
    assert (E : fill_point dof pt n = take (Z.to_nat dof) (nconfig n)).
    { unfold fill_point. rewrite fill_point_prefix.
      - rewrite drop_ge by lia. by rewrite app_nil_r.
      - lia.
      - apply Hpath. by left. }
    rewrite E, IH.
    + by rewrite <- app_assoc.
    + rewrite length_take. pose proof (Hpath n). 
      assert (Z.to_nat dof <= length (nconfig n)) by (apply Hpath; by left).
      lia.
    + intros m Hm. apply Hpath. by right.
Qed.

Lemma emit_spec_witness :
  emit 1 [0%Q] [mk_s_node [5%Q; 7%Q] 0; mk_s_node [6%Q] 1] [[9%Q]] =
  [[9%Q]] ++ ((fun n => take (Z.to_nat 1) (nconfig n))
              <$> [mk_s_node [5%Q; 7%Q] 0; mk_s_node [6%Q] 1]).
Proof.
  apply (emit_spec 1 [0%Q] [mk_s_node [5%Q; 7%Q] 0; mk_s_node [6%Q] 1] [[9%Q]]).
  - reflexivity.
  - intros n Hn. rewrite list_elem_of_In in Hn. simpl in Hn.
    destruct Hn as [<-|[<-|[]]]; simpl; lia.
Defined.

(** ** The roadmap planner *)

Section Roadmap.
Context {DM : DistMetric}.

Lemma findPath_is_findPathAS_aux (fuel : nat) (G : SpatialGraph)
    (ns ng : s_node) (l : list s_node) :
  findPath fuel G ns ng l = findPathAS fuel G ns ng l.
Proof.
  unfold findPath.
  destruct (findPathAS fuel G ns ng l) as [[o l']|] eqn:Ea; [|done].
  destruct (findPathAS_cases _ _ _ _ _ _ _ Ea) as [[-> _]|(x & -> & _)]; done.
Qed.

(** X16: the roadmap planner's [findPath] is [findPathAS]: A* never
    returns false, so the fall-back on Dijkstra's algorithm is never run,
    and [findPath] returns, throws or goes on exactly as [findPathAS]
    does, with the same path list. *)
Theorem findPath_is_findPathAS (fuel : nat) (G : SpatialGraph)
    (ns ng : s_node) (l : list s_node) :
  findPath fuel G ns ng l = findPathAS fuel G ns ng l.
Proof. apply findPath_is_findPathAS_aux. Qed.

End Roadmap.

Lemma gen_samples_spec_aux (samples : list (option config)) (missing : nat)
    (vv : list config) (v_random : config) :
  match ClassicPRM.gen_samples samples missing vv v_random with
  | Some (vv', v_random', rest) =>
    exists used,
      samples = used ++ rest /\
      vv' = vv ++ omap id used /\
      length (omap id used) = missing
  | None => True
  end.
Proof.
  revert missing vv v_random.
  induction samples as [|s samples IH]; intros missing vv v_random.
  - destruct missing as [|m]; simpl; [|done].
    exists []. simpl. by rewrite app_nil_r.
  - destruct missing as [|m].
    { simpl. exists []. simpl. by rewrite app_nil_r. }
    destruct s as [c|]; cbn [ClassicPRM.gen_samples].
    + specialize (IH m (vv ++ [c]) []).
      destruct (ClassicPRM.gen_samples samples m (vv ++ [c]) [])
        as [[[vv' v'] rest]|]; [|done].
      destruct IH as (used & -> & -> & Hl).
      exists (Some c :: used). split; [done|]. split.
      { simpl. by rewrite <- app_assoc. }
      change (omap id (Some c :: used)) with (c :: omap id used).
      simpl. by rewrite Hl.
    + specialize (IH (S m) vv v_random).
      destruct (ClassicPRM.gen_samples samples (S m) vv v_random)
        as [[[vv' v'] rest]|]; [|done].
      destruct IH as (used & -> & -> & Hl).
      by exists (None :: used).
Qed.

(** X17: the sampling loop of [buildRoadMap]. When it ends, it has consumed
    a prefix of the sampler's answers that holds exactly the requested
    number of successes and ends on one; the successes are appended to the
    sample set in order and the failures are skipped; [v_random_config] is
    left empty as soon as one sample was drawn. It goes on only as long as
    the sampler has not delivered the requested number of samples. *)
Theorem gen_samples_spec (samples : list (option config)) (missing : nat)
    (vv : list config) (v_random : config) :
  match ClassicPRM.gen_samples samples missing vv v_random with
  | Some (vv', v_random', rest) =>
    exists used,
      samples = used ++ rest /\
      vv' = vv ++ omap id used /\
      length (omap id used) = missing /\
      ((used = [] /\ v_random' = v_random) \/
       (exists u c, used = u ++ [Some c]) /\ v_random' = [])
  | None => length (omap id samples) < missing
  end.
Proof.
  revert missing vv v_random.
  induction samples as [|s samples IH]; intros missing vv v_random.
  - destruct missing as [|m]; simpl; [|lia].
    exists []. simpl. rewrite app_nil_r. intuition.
  - destruct missing as [|m].
    { simpl. exists []. simpl. rewrite app_nil_r. intuition. }
    destruct s as [c|]; cbn [ClassicPRM.gen_samples].
    + specialize (IH m (vv ++ [c]) []).
      destruct (ClassicPRM.gen_samples samples m (vv ++ [c]) [])
        as [[[vv' v'] rest]|].
      * destruct IH as (used & -> & -> & Hl & Hv).
        exists (Some c :: used). split; [done|]. split.
        { simpl. by rewrite <- app_assoc. }
        split.
        { change (omap id (Some c :: used)) with (c :: omap id used).
          simpl. by rewrite Hl. }
        right.
        destruct Hv as [[-> ->]|[(u & c' & ->) ->]].
        -- split; [|done]. by exists [], c.
        -- split; [|done]. by exists (Some c :: u), c'.
      * change (omap id (Some c :: samples)) with (c :: omap id samples).
        simpl. lia.
    + specialize (IH (S m) vv v_random).
      destruct (ClassicPRM.gen_samples samples (S m) vv v_random)
        as [[[vv' v'] rest]|].
      * destruct IH as (used & -> & -> & Hl & Hv).
        exists (None :: used). split; [done|]. split; [done|].
        split; [done|]. right.
        destruct Hv as [[-> ->]|[(u & c' & ->) ->]]; [done|].
        split; [|done]. by exists (None :: u), c'.
      * done.
Qed.

Section Budget.
Context {DM : DistMetric} {IC : ICollision}.

Lemma findNN_offset (G : SpatialGraph) c out :
  2 + length (node_list G) <= num_vertices (p_graph G) ->
  findNN (addNode G c).2 (addNode G c).1 out = (0%Z, out).
Proof.
  intros Hoff. rewrite addNode_handle.
  destruct (decide (length (node_list G) = 0)) as [E|E].
  - apply findNN_small. rewrite addNode_node_list, length_app. simpl. lia.
  - apply findNN_beyond. rewrite addNode_node_list, length_app. simpl. lia.
Qed.

Lemma connect_sample_offset params (G : SpatialGraph) c :
  2 + length (node_list G) <= num_vertices (p_graph G) ->
  ClassicPRM.connect_sample params G c = (addNode G c).2.
Proof.
  intros Hoff. unfold ClassicPRM.connect_sample.
  pose proof (findNN_offset G c [] Hoff) as E.
  destruct (addNode G c) as [vs G1]. cbn [fst snd] in *. by rewrite E.
Qed.

Lemma addNode_offset (G : SpatialGraph) c :
  2 + length (node_list G) <= num_vertices (p_graph G) ->
  2 + length (node_list (addNode G c).2)
  <= num_vertices (p_graph (addNode G c).2).
Proof.
  intros Hoff. rewrite addNode_num_vertices, addNode_node_list, length_app.
  simpl. lia.
Qed.

Lemma addNodes_snd_cons (G : SpatialGraph) c confs :
  (addNodes G (c :: confs)).2 = (addNodes (addNode G c).2 confs).2.
Proof.
  cbn [addNodes]. destruct (addNode G c) as [v G1]. cbn [snd].
  by destruct (addNodes G1 confs).
Qed.

Lemma connect_samples_offset params confs : forall G : SpatialGraph,
  2 + length (node_list G) <= num_vertices (p_graph G) ->
  foldl (ClassicPRM.connect_sample params) G confs = (addNodes G confs).2.
Proof.
  induction confs as [|c confs IH]; intros G Hoff; [done|].
  cbn [foldl]. rewrite connect_sample_offset, addNodes_snd_cons by done.
  apply IH. by apply addNode_offset.
Qed.

Lemma addNodes_offset confs : forall G : SpatialGraph,
  2 + length (node_list G) <= num_vertices (p_graph G) ->
  2 + length (node_list (addNodes G confs).2)
  <= num_vertices (p_graph (addNodes G confs).2).
Proof.
  induction confs as [|c confs IH]; intros G Hoff; [done|].
  rewrite addNodes_snd_cons. apply IH. by apply addNode_offset.
Qed.

Lemma addNodes_out_edges confs v : forall G : SpatialGraph,
  out_edges v (p_graph (addNodes G confs).2) = out_edges v (p_graph G).
Proof.
  induction confs as [|c confs IH]; intros G; [done|].
  rewrite addNodes_snd_cons, IH, addNode_p_graph.
  apply out_edges_add_vertex.
Qed.

Lemma SpatialGraph_sized_offset m_nodes n_thresh :
  (2 <= to_unsigned m_nodes)%Z ->
  2 + length (node_list (SpatialGraph_sized m_nodes n_thresh))
  <= num_vertices (p_graph (SpatialGraph_sized m_nodes n_thresh)).
Proof.
  intros Hm. unfold SpatialGraph_sized, num_vertices. simpl.
  rewrite length_replicate. lia.
Qed.

Lemma to_unsigned_small (n : Z) :
  (2 <= n < 2 ^ 31)%Z -> to_unsigned n = n.
Proof. intros Hn. unfold to_unsigned. apply Z.mod_small. lia. Qed.

Lemma InitPlan_inv (P : ClassicPRM.planner) dof pparams samples b P' rest :
  ClassicPRM.InitPlan P dof pparams samples = Some (b, P', rest) ->
  exists used,
    samples = used ++ rest /\
    b = true /\
    ClassicPRM.robot_dof P' = dof /\
    ClassicPRM.p_parameters P' = Some pparams /\
    ClassicPRM.vv_cs_samples P' = ClassicPRM.vv_cs_samples P ++ omap id used /\
    length (omap id used) = Z.to_nat (i_nnodes pparams) /\
    ClassicPRM.l_pathnodes P' = ClassicPRM.l_pathnodes P /\
    ClassicPRM.n_start P' = ClassicPRM.n_start P /\
    ClassicPRM.n_goal P' = ClassicPRM.n_goal P /\
    ClassicPRM.g_roadmap P' =
      foldl (ClassicPRM.connect_sample pparams)
            (SpatialGraph_sized (i_nnodes pparams) (f_neigh_thresh pparams))
            (ClassicPRM.vv_cs_samples P').
Proof.
  unfold ClassicPRM.InitPlan, ClassicPRM.buildRoadMap.
  cbn [ClassicPRM.vv_cs_samples ClassicPRM.v_random_config
       ClassicPRM.g_roadmap ClassicPRM.robot_dof ClassicPRM.p_parameters
       ClassicPRM.l_pathnodes ClassicPRM.n_start ClassicPRM.n_goal].
  match goal with
  | |- context [ClassicPRM.gen_samples ?s ?m ?vv ?v] =>
    pose proof (gen_samples_spec_aux s m vv v) as Hg;
    destruct (ClassicPRM.gen_samples s m vv v) as [[[vv' v'] rest']|]; [|done]
  end.
  intros [= <- <- <-].
  destruct Hg as (used & -> & -> & Hl).
  exists used. cbn. by repeat split.
Qed.

(** X18: with a node budget of 2 or more the roadmap [InitPlan] builds has
    no edge at all. The graph is constructed with as many
    vertices as the budget, so the handles of the samples start at the
    budget and [findNN] answers 0 for each of them: the samples are stored
    in order under the handles that follow the budget, and no vertex has
    an out-edge. *)
Theorem InitPlan_roadmap_unconnected (P : ClassicPRM.planner) (dof : Z)
    (pparams : PRMParams) (samples : list (option config)) (b : bool)
    (P' : ClassicPRM.planner) (rest : list (option config)) :
  (2 <= i_nnodes pparams < 2 ^ 31)%Z ->
  ClassicPRM.InitPlan P dof pparams samples = Some (b, P', rest) ->
  b = true /\
  ClassicPRM.g_roadmap P' =
    (addNodes (SpatialGraph_sized (i_nnodes pparams) (f_neigh_thresh pparams))
              (ClassicPRM.vv_cs_samples P')).2 /\
  length (ClassicPRM.vv_cs_samples P')
  = length (ClassicPRM.vv_cs_samples P) + Z.to_nat (i_nnodes pparams) /\
  vertex <$> node_list (ClassicPRM.g_roadmap P') =
    seq (Z.to_nat (i_nnodes pparams))
        (length (ClassicPRM.vv_cs_samples P')) /\
  (forall v, out_edges v (p_graph (ClassicPRM.g_roadmap P')) = []).
Proof.
  intros Hm0 Hrun.
  pose proof (to_unsigned_small _ Hm0) as Hu.
  assert (Hm : (2 <= to_unsigned (i_nnodes pparams))%Z) by lia.
  apply InitPlan_inv in Hrun
    as (used & _ & -> & _ & _ & Hvv & Hl & _ & _ & _ & HG).
  rewrite connect_samples_offset in HG by by apply SpatialGraph_sized_offset.
  split; [done|]. split; [done|]. split.
  { by rewrite Hvv, length_app, Hl. }
  split.
  - rewrite HG.
    destruct (addNodes_handles (ClassicPRM.vv_cs_samples P')
                (SpatialGraph_sized (i_nnodes pparams) (f_neigh_thresh pparams)))
      as [_ H2].
    rewrite H2. cbn [SpatialGraph_sized node_list p_graph fmap list_fmap app].
    unfold num_vertices. by rewrite length_replicate, Hu.
  - intros v. rewrite HG, addNodes_out_edges.
    unfold out_edges, SpatialGraph_sized. cbn [p_graph].
    destruct (replicate _ _ !! v) as [es|] eqn:E; [|done].
    by apply lookup_replicate in E as [-> _].
Qed.

Lemma addConfig_offset params dof (G : SpatialGraph) conf n_old :
  2 + length (node_list G) <= num_vertices (p_graph G) ->
  exists G', ClassicPRM.addConfig params dof G conf n_old = (false, G', n_old).
Proof.
  intros Hoff. unfold ClassicPRM.addConfig.
  destruct (negb _); [by eexists|].
  pose proof (findNN_offset G conf [] Hoff) as E.
  destruct (addNode G conf) as [st G1]. cbn [fst snd] in E. rewrite E.
  by eexists.
Qed.

(** X19: with a node budget of 2 or more the roadmap planner cannot
    plan. After [InitPlan], every call of [PlanPath] returns false on the
    start configuration, which finds no neighbour, and leaves the
    trajectory, the path list and the start and goal nodes as they
    were. *)
Theorem PlanPath_budget_fails (P : ClassicPRM.planner) (dof : Z)
    (pparams : PRMParams) (samples : list (option config)) (b : bool)
    (P' : ClassicPRM.planner) (rest : list (option config))
    (fuel : nat) (ptraj : list config) :
  (2 <= i_nnodes pparams < 2 ^ 31)%Z ->
  ClassicPRM.InitPlan P dof pparams samples = Some (b, P', rest) ->
  exists P'',
    ClassicPRM.PlanPath fuel P' ptraj = Some (Return (false, P''), ptraj) /\
    ClassicPRM.l_pathnodes P'' = ClassicPRM.l_pathnodes P' /\
    ClassicPRM.n_start P'' = ClassicPRM.n_start P' /\
    ClassicPRM.n_goal P'' = ClassicPRM.n_goal P'.
Proof.
  intros Hm0 Hrun.
  pose proof (to_unsigned_small _ Hm0) as Hu.
  assert (Hm : (2 <= to_unsigned (i_nnodes pparams))%Z) by lia.
  apply InitPlan_inv in Hrun
    as (used & _ & -> & _ & Hp & Hvv & Hl & _ & _ & _ & HG).
  rewrite connect_samples_offset in HG by by apply SpatialGraph_sized_offset.
  assert (Hoff : 2 + length (node_list (ClassicPRM.g_roadmap P'))
                 <= num_vertices (p_graph (ClassicPRM.g_roadmap P'))).
  { rewrite HG. apply addNodes_offset. by apply SpatialGraph_sized_offset. }
  unfold ClassicPRM.PlanPath. rewrite Hp. unfold ClassicPRM.addStartConfig.
  destruct (addConfig_offset pparams (ClassicPRM.robot_dof P')
              (ClassicPRM.g_roadmap P')
              (vinitialconfig (base_params pparams))
              (ClassicPRM.n_start P') Hoff) as [G' ->].
  cbn [negb]. by eexists.
Qed.

End Budget.

Lemma InitPlan_roadmap_unconnected_witness :
  exists P',
    @ClassicPRM.InitPlan L1Metric FreeRoad (ClassicPRM.create 1 0 0) 1
      (example_prm 2) [Some [0%Q]; None; Some [1%Q]] = Some (true, P', []) /\
    (true = true /\
     ClassicPRM.g_roadmap P' =
       (addNodes (SpatialGraph_sized (i_nnodes (example_prm 2))
                    (f_neigh_thresh (example_prm 2)))
                 (ClassicPRM.vv_cs_samples P')).2 /\
     length (ClassicPRM.vv_cs_samples P')
     = length (ClassicPRM.vv_cs_samples (ClassicPRM.create 1 0 0))
       + Z.to_nat (i_nnodes (example_prm 2)) /\
     vertex <$> node_list (ClassicPRM.g_roadmap P') =
       seq (Z.to_nat (i_nnodes (example_prm 2)))
           (length (ClassicPRM.vv_cs_samples P')) /\
     (forall v, out_edges v (p_graph (ClassicPRM.g_roadmap P')) = [])).
Proof.
  eexists. split; [reflexivity|].
  apply (@InitPlan_roadmap_unconnected L1Metric FreeRoad
           (ClassicPRM.create 1 0 0) 1 (example_prm 2)
           [Some [0%Q]; None; Some [1%Q]] true _ []).
  - simpl. lia.
  - reflexivity.
Defined.

Lemma PlanPath_budget_fails_witness :
  exists P' P'',
    @ClassicPRM.InitPlan L1Metric FreeRoad (ClassicPRM.create 1 0 0) 1
      (example_prm 2) [Some [0%Q]; None; Some [1%Q]] = Some (true, P', []) /\
    @ClassicPRM.PlanPath L1Metric FreeRoad 10 P' []
    = Some (Return (false, P''), []) /\
    ClassicPRM.l_pathnodes P'' = ClassicPRM.l_pathnodes P' /\
    ClassicPRM.n_start P'' = ClassicPRM.n_start P' /\
    ClassicPRM.n_goal P'' = ClassicPRM.n_goal P'.
Proof.
  eexists. 
  assert (H : (2 <= i_nnodes (example_prm 2) < 2 ^ 31)%Z) by (simpl; lia).
  destruct (@PlanPath_budget_fails L1Metric FreeRoad
              (ClassicPRM.create 1 0 0) 1 (example_prm 2)
              [Some [0%Q]; None; Some [1%Q]] true _ [] 10 [] H eq_refl)
    as (P'' & HP).
  exists P''. split; [reflexivity|exact HP].
Defined.

Section StartAndGoal.
Context {DM : DistMetric} {IC : ICollision}.

Lemma addEdge_refused (G : SpatialGraph) u v G' :
  addEdge G u v = (false, G') -> G' = G.
Proof.
  destruct (addEdge_result G u v) as [E|(_ & _ & _ & E)];
    rewrite E; by intros [= <-].
Qed.

Lemma connect_near_cases params st n_old nearsamples :
  forall (G G' : SpatialGraph) n,
  ClassicPRM.connect_near params G st n_old nearsamples = (G', n) ->
  (G' = G /\ n = n_old) \/
  (n = getNode G st /\
   exists it, it ∈ nearsamples /\
     ICollision_CheckCollision params (nconfig it) (nconfig (getNode G st))
     = false /\
     addEdge G (vertex it) st = (true, G')).
Proof.
  induction nearsamples as [|it near IH]; intros G G' n Hrun.
  - simpl in Hrun. simplify_eq. by left.
  - cbn [ClassicPRM.connect_near] in Hrun.
    destruct (ICollision_CheckCollision params (nconfig it)
                (nconfig (getNode G st))) eqn:Ec; cbn [negb] in Hrun.
    + apply IH in Hrun as [?|(-> & it' & Hin & Hc & Ha)]; [by left|].
      right. split; [done|]. exists it'. split; [by right|done].
    + destruct (addEdge G (vertex it) st) as [[] G1] eqn:Ea.
      * simplify_eq. right. split; [done|]. exists it.
        split; [by left|done].
      * apply addEdge_refused in Ea as ->.
        apply IH in Hrun as [?|(-> & it' & Hin & Hc & Ha)]; [by left|].
        right. split; [done|]. exists it'. split; [by right|done].
Qed.

Lemma connect_near_blocked params st n_old nearsamples (G : SpatialGraph) :
  (forall a b, ICollision_CheckCollision params a b = true) ->
  ClassicPRM.connect_near params G st n_old nearsamples = (G, n_old).
Proof.
  intros Hb. induction nearsamples as [|it near IH]; [done|].
  cbn [ClassicPRM.connect_near]. by rewrite Hb.
Qed.

Lemma getNode_addNode (G : SpatialGraph) c :
  getNode (addNode G c).2 (num_vertices (p_graph G))
  = mk_s_node c (num_vertices (p_graph G)).
Proof.
  unfold getNode. rewrite addNode_node_list, foldl_app. simpl.
  by rewrite decide_True.
Qed.

Lemma findNN_members (G : SpatialGraph) n it :
  it ∈ (findNN G n []).2 -> it ∈ node_list G /\ vertex it <> n.
Proof.
  destruct (findNN_outcomes G n []) as [[-> _]|[-> _]]; cbn [snd].
  - by intros ?%elem_of_nil.
  - intros Hit. apply list_elem_of_In, filter_In in Hit as [Hin Hn].
    split; [by apply list_elem_of_In|].
    by apply is_neighbor_true in Hn as [? _].
Qed.

Lemma addAddEdge_node_list (G : SpatialGraph) u v G' :
  addEdge G u v = (true, G') -> node_list G' = node_list G.
Proof.
  destruct (addEdge_result G u v) as [E|(_ & _ & _ & E)];
    rewrite E; by intros [= <-].
Qed.

Lemma addConfig_cases (params : PRMParams) (dof : Z) (G : SpatialGraph)
    (conf : config) (n_old : s_node) (ok : bool) (G' : SpatialGraph)
    (n : s_node) :
  ClassicPRM.addConfig params dof G conf n_old = (ok, G', n) ->
  let st := num_vertices (p_graph G) in
  let G1 := (addNode G conf).2 in
  (Z.of_nat (length conf) <> dof /\ ok = false /\ G' = G /\ n = n_old) \/
  (Z.of_nat (length conf) = dof /\
   node_list G' = node_list G ++ [mk_s_node conf st] /\
   (((findNN G1 st []).1 = 0%Z /\ ok = false /\ G' = G1 /\ n = n_old) \/
    ((findNN G1 st []).1 <> 0%Z /\
     ok = (Z.of_nat (vertex n) <=? 2 * (getNodes G + 1))%Z /\
     ((G' = G1 /\ n = n_old) \/
      (n = mk_s_node conf st /\
       exists it, it ∈ node_list G /\ vertex it <> st /\
         ICollision_CheckCollision params (nconfig it) conf = false /\
         addEdge G1 (vertex it) st = (true, G')))))).
Proof.
  intros Hrun. cbv zeta. unfold ClassicPRM.addConfig in Hrun.
  destruct (Z.of_nat (length conf) =? dof)%Z eqn:Hd; cbn [negb] in Hrun.
  2:{ apply Z.eqb_neq in Hd. left. by simplify_eq. }
  apply Z.eqb_eq in Hd.
  right. split; [done|].
  pose proof (addNode_handle G conf) as Hst.
  pose proof (addNode_node_list G conf) as Hnl.
  destruct (addNode G conf) as [st' G1'] eqn:Ea.
  cbn [fst snd] in Hst, Hnl. subst st'. cbn [snd].
  set (st := num_vertices (p_graph G)) in *.
  pose proof (findNN_members G1' st) as Hmem.
  destruct (findNN G1' st []) as [neis nearsamples] eqn:En.
  cbn [fst snd] in *.
  destruct (neis =? 0)%Z eqn:Hz.
  { apply Z.eqb_eq in Hz. simplify_eq. split; [done|]. left. done. }

  apply Z.eqb_neq in Hz.
  destruct (ClassicPRM.connect_near params G1' st n_old nearsamples)
    as [G2 n2] eqn:Ec.
  assert (Hok : forall G3, node_list G3 = node_list G ++ [mk_s_node conf st] ->
            (if (2 * getNodes G3 <? Z.of_nat (vertex n2))%Z
             then (false, G3, n2) else (true, G3, n2)) = (ok, G', n) ->
            ok = (Z.of_nat (vertex n) <=? 2 * (getNodes G + 1))%Z /\
            G' = G3 /\ n = n2).
  { intros G3 H3 H. unfold getNodes in *. rewrite H3, length_app in H.
    simpl in H.
    replace (Z.of_nat (length (node_list G) + 1))
      with (Z.of_nat (length (node_list G)) + 1)%Z in H by lia.
    destruct (Z.ltb_spec (2 * (Z.of_nat (length (node_list G)) + 1))
                         (Z.of_nat (vertex n2))) as [Hlt|Hge];
      simplify_eq; (split; [|done]); symmetry.
    - apply Z.leb_gt. lia.
    - apply Z.leb_le. lia. }
  apply connect_near_cases in Ec as [[-> ->]|(-> & it & Hin & Hc & Hadd)].
  - apply Hok in Hrun as (-> & -> & ->); [|done].
    split; [done|]. right. split; [done|]. split; [done|]. by left.
  - pose proof (addAddEdge_node_list _ _ _ _ Hadd) as Hnl2.
    rewrite Hnl in Hnl2.
    apply Hok in Hrun as (-> & -> & ->); [|done].
    split; [done|]. right. split; [done|]. split; [done|]. right.
    assert (Eg : getNode G1' st = mk_s_node conf st).
    { pose proof (getNode_addNode G conf) as H. by rewrite Ea in H. }
    rewrite Eg in *. split; [done|].
    exists it. destruct (Hmem it Hin) as [Hin' Hne].
    rewrite Hnl, elem_of_app in Hin'. destruct Hin' as [Hin'|Hin'].
    + done.
    + apply list_elem_of_singleton in Hin'. subst it. done.
Qed.

(** X20: what [addStartConfig] and [addGoalConfig] do to the roadmap. A
    configuration whose size is not the robot's is refused and nothing
    changes. Otherwise the configuration is stored as a node in every
    case, also when the call then fails for want of a neighbour. When
    there are neighbours, at most one edge is added: to the first
    neighbour whose segment the oracle accepts and whose edge [addEdge]
    accepts, and the new node then becomes the designated node; when no
    neighbour qualifies the designated node is left as it was found, and
    in both cases the value returned only compares its handle with twice
    the node count. *)
Theorem addConfig_spec (params : PRMParams) (dof : Z) (G : SpatialGraph)
    (conf : config) (n_old : s_node) (ok : bool) (G' : SpatialGraph)
    (n : s_node) :
  ClassicPRM.addConfig params dof G conf n_old = (ok, G', n) ->
  let st := num_vertices (p_graph G) in
  let G1 := (addNode G conf).2 in
  (Z.of_nat (length conf) <> dof /\ ok = false /\ G' = G /\ n = n_old) \/
  (Z.of_nat (length conf) = dof /\
   node_list G' = node_list G ++ [mk_s_node conf st] /\
   (((findNN G1 st []).1 = 0%Z /\ ok = false /\ G' = G1 /\ n = n_old) \/
    ((findNN G1 st []).1 <> 0%Z /\
     ok = (Z.of_nat (vertex n) <=? 2 * (getNodes G + 1))%Z /\
     ((G' = G1 /\ n = n_old) \/
      (n = mk_s_node conf st /\
       exists it, it ∈ node_list G /\ vertex it <> st /\
         ICollision_CheckCollision params (nconfig it) conf = false /\
         addEdge G1 (vertex it) st = (true, G')))))).
Proof. apply addConfig_cases. Qed.

(** X21: the value returned by [addStartConfig] and [addGoalConfig] does
    not tell whether the configuration was connected. When the oracle
    rejects every segment no edge is added and the designated node is left
    as it was found, yet the call returns true as soon as [findNN] found a
    neighbour, provided the handle of the stale designated node is at
    most twice the node count. *)
Theorem addConfig_blocked (params : PRMParams) (dof : Z) (G : SpatialGraph)
    (conf : config) (n_old : s_node) :
  (forall a b, ICollision_CheckCollision params a b = true) ->
  Z.of_nat (length conf) = dof ->
  (findNN (addNode G conf).2 (addNode G conf).1 []).1 <> 0%Z ->
  ClassicPRM.addConfig params dof G conf n_old =
  ((Z.of_nat (vertex n_old) <=? 2 * (getNodes G + 1))%Z,
   (addNode G conf).2, n_old).
Proof.
  intros Hb Hd Hnn. unfold ClassicPRM.addConfig.
  rewrite (proj2 (Z.eqb_eq _ _) Hd). cbn [negb].
  pose proof (addNode_node_list G conf) as Hnl.
  destruct (addNode G conf) as [st G1]. cbn [fst snd] in *.
  destruct (findNN G1 st []) as [neis near]. cbn [fst] in Hnn.
  rewrite (proj2 (Z.eqb_neq _ _) Hnn).
  rewrite connect_near_blocked by done.
  unfold getNodes. rewrite Hnl, length_app. simpl.
  replace (Z.of_nat (length (node_list G) + 1))
    with (Z.of_nat (length (node_list G)) + 1)%Z by lia.
  destruct (Z.ltb_spec (2 * (Z.of_nat (length (node_list G)) + 1))
                       (Z.of_nat (vertex n_old))) as [Hlt|Hge].
  - by rewrite (proj2 (Z.leb_gt _ _)) by lia.
  - by rewrite (proj2 (Z.leb_le _ _)) by lia.
Qed.

End StartAndGoal.

Lemma addConfig_spec_witness :
  exists G',
    @ClassicPRM.addConfig L1Metric FreeRoad (example_prm 1) 1 two_nodes [2%Q]
       s_node_default = (true, G', mk_s_node [2%Q] 2) /\
    let st := num_vertices (p_graph two_nodes) in
    let G1 := (addNode two_nodes [2%Q]).2 in
    (Z.of_nat (length [2%Q]) <> 1%Z /\ true = false /\ G' = two_nodes /\
     mk_s_node [2%Q] 2 = s_node_default) \/
    (Z.of_nat (length [2%Q]) = 1%Z /\
     node_list G' = node_list two_nodes ++ [mk_s_node [2%Q] st] /\
     (((@findNN L1Metric G1 st []).1 = 0%Z /\ true = false /\ G' = G1 /\
       mk_s_node [2%Q] 2 = s_node_default) \/
      ((@findNN L1Metric G1 st []).1 <> 0%Z /\
       true = (Z.of_nat (vertex (mk_s_node [2%Q] 2)) <=? 2 * (getNodes two_nodes + 1))%Z /\
       ((G' = G1 /\ mk_s_node [2%Q] 2 = s_node_default) \/
        (mk_s_node [2%Q] 2 = mk_s_node [2%Q] st /\
         exists it, it ∈ node_list two_nodes /\ vertex it <> st /\
           @ICollision_CheckCollision FreeRoad (example_prm 1) (nconfig it) [2%Q]
           = false /\
           @addEdge L1Metric G1 (vertex it) st = (true, G')))))).
Proof.
  eexists. split; [reflexivity|].
  apply (@addConfig_spec L1Metric FreeRoad (example_prm 1) 1 two_nodes [2%Q]
           s_node_default true _ (mk_s_node [2%Q] 2)).
  reflexivity.
Defined.

Lemma addConfig_blocked_witness :
  @ClassicPRM.addConfig L1Metric BlockedRoad (example_prm 1) 1 two_nodes [2%Q]
     s_node_default =
  ((Z.of_nat (vertex s_node_default) <=? 2 * (getNodes two_nodes + 1))%Z,
   (addNode two_nodes [2%Q]).2, s_node_default).
Proof.
  apply (@addConfig_blocked L1Metric BlockedRoad (example_prm 1) 1 two_nodes [2%Q]
           s_node_default).
  - reflexivity.
  - reflexivity.
  - by vm_compute.
Defined.

(** ** The path traced by [findPathAS] *)

Lemma closed_plus_ge (a b : Z) :
  (a <= int_max)%Z -> (0 <= b)%Z -> (a <= closed_plus a b)%Z.
Proof.
  intros Ha Hb. unfold closed_plus.
  destruct (Z.eqb_spec a int_max); [lia|].
  destruct (Z.eqb_spec b int_max); lia.
Qed.

Lemma discovered_set_color st u v c :
  discovered st u -> c <> white -> discovered (set_color st v c) u.
Proof.
  intros (cu & Hu & Hw) Hc. unfold discovered. cbn [m_color set_color].
  destruct (decide (u = v)) as [->|Hne].
  - exists c. split; [|done]. apply list_lookup_insert_eq.
    by apply lookup_lt_Some in Hu.
  - exists cu. by rewrite list_lookup_insert_ne.
Qed.

Lemma pred_inv_init (g : s_graph) n s h_s : pred_inv g s (init_maps n s h_s).
Proof.
  split; cbn [init_maps m_predecessor m_color m_distance].
  - by rewrite length_seq, length_insert, length_replicate.
  - intros v u Hv Hne. apply lookup_seq in Hv as [-> _]. done.
  - intros v Hv. apply lookup_seq in Hv as [_ Hv].
    destruct (decide (v = s)) as [->|Hne]; [by left|right].
    rewrite list_lookup_insert_ne by done. by apply lookup_replicate.
  - intros v d Hv. apply list_lookup_insert_Some in Hv as [(_ & <- & _)|[_ Hv]].
    + done.
    + apply lookup_replicate in Hv as [-> _]. done.
Qed.

Lemma pred_inv_set_color g s st v c :
  pred_inv g s st -> c <> white -> pred_inv g s (set_color st v c).
Proof.
  intros [H1 H2 H3 H4] Hc. split; cbn [set_color m_predecessor m_color m_distance].
  - by rewrite length_insert.
  - intros x u Hx Hne. destruct (H2 x u Hx Hne) as [Ha Hd].
    split; [done|]. by apply discovered_set_color.
  - done.
  - done.
Qed.

Lemma pred_inv_set_cost g s st v c :
  pred_inv g s st -> pred_inv g s (set_cost st v c).
Proof. intros [H1 H2 H3 H4]. by split. Qed.

Lemma pred_inv_relax g s st u v w :
  pred_inv g s st -> (0 <= to_int w)%Z ->
  v ∈ adjacent_vertices u g -> discovered st u ->
  pred_inv g s (relax u v w st).2.
Proof.
  intros [H1 H2 H3 H4] Hw Hadj Hu. unfold relax.
  destruct (Z.ltb_spec (closed_plus (distance_of st u) (to_int w))
                       (distance_of st v)) as [Hlt|Hge]; [|done].
  cbn [snd]. split; cbn [m_predecessor m_color m_distance].
  - by rewrite length_insert.
  - intros x y Hx Hne.
    apply list_lookup_insert_Some in Hx as [(-> & -> & _)|[_ Hx]].
    + done.
    + destruct (H2 x y Hx Hne) as [Ha Hd]. done.
  - intros x Hx.
    apply list_lookup_insert_Some in Hx as [(-> & -> & _)|[Hne Hx]].
    + exfalso.
      assert (Hd : (distance_of st x <= int_max)%Z).
      { unfold distance_of. destruct (m_distance st !! x) as [d|] eqn:Ed.
        - by apply (H4 x).
        - done. }
      pose proof (closed_plus_ge _ _ Hd Hw). lia.
    + rewrite list_lookup_insert_ne by done. by apply H3.
  - intros x d Hx.
    apply list_lookup_insert_Some in Hx as [(-> & <- & Hr)|[_ Hx]].
    + destruct (lookup_lt_is_Some_2 _ _ Hr) as [d Hd].
      pose proof (H4 _ _ Hd) as Hle.
      assert (E : distance_of st x = d) by (unfold distance_of; by rewrite Hd).
      rewrite E in Hlt. lia.
    + by apply (H4 x).
Qed.

Lemma discovered_relax st u v w x :
  discovered st x -> discovered (relax u v w st).2 x.
Proof. unfold relax. by destruct (_ <? _)%Z. Qed.

Lemma examine_edge_pred_inv g s h u v w st st' :
  pred_inv g s st -> v ∈ adjacent_vertices u g -> discovered st u ->
  examine_edge h u (v, w) st = Return st' ->
  pred_inv g s st' /\ discovered st' u.
Proof.
  intros Hinv Hadj Hu. unfold examine_edge.
  destruct (Z.ltb_spec (to_int w) 0) as [|Hw]; [done|].
  pose proof (pred_inv_relax g s st u v w Hinv Hw Hadj Hu) as Hr.
  pose proof (discovered_relax st u v w u Hu) as Hur.
  destruct (relax u v w st) as [decreased st1]. cbn [snd] in Hr, Hur.
  set (st2 := match h with
              | Some h0 => set_cost st1 v (closed_plus (distance_of st1 v) (to_int (h0 v)))
              | None => st1
              end).
  assert (Hcost : pred_inv g s st2 /\ discovered st2 u).
  { subst st2. destruct h; [|done]. split; [by apply pred_inv_set_cost|done]. }
  destruct Hcost as [Hc1 Hc2].
  destruct (color_of st v).
  - intros [= <-]. destruct decreased.
    + split; [by apply pred_inv_set_color|by apply discovered_set_color].
    + split; [by apply pred_inv_set_color|by apply discovered_set_color].
  - intros [= <-]. by destruct decreased.
  - destruct h as [h0|]; intros [= <-]; [|done].
    destruct decreased; [|done].
    split; [by apply pred_inv_set_color|by apply discovered_set_color].
Qed.

Lemma examine_edges_pred_inv g s h u es : forall st,
  pred_inv g s st -> discovered st u ->
  (forall v w, (v, w) ∈ es -> v ∈ adjacent_vertices u g) ->
  pred_inv g s (examine_edges h u es st).2
  /\ discovered (examine_edges h u es st).2 u.
Proof.
  induction es as [|[v w] es IH]; intros st Hinv Hu Hes; cbn [examine_edges];
    [done|].
  destruct (examine_edge h u (v, w) st) as [st1|x] eqn:E; [|done].
  eapply examine_edge_pred_inv in E as [H1 H2]; [|done| |done].
  - apply IH; [done..|]. intros v' w' Hin. apply (Hes v' w'). by right.
  - apply (Hes v w). by left.
Qed.

Lemma astar_loop_pred_inv g s h m_goal fuel : forall st o st',
  pred_inv g s st -> astar_loop fuel g h m_goal st = Some (o, st') ->
  pred_inv g s st' /\ (o = Some found_goal -> discovered st' m_goal).
Proof.
  induction fuel as [|fuel IH]; intros st o st' Hinv Hrun;
    cbn [astar_loop] in Hrun.
  - destruct (top _ _); [done|]. by simplify_eq.
  - destruct (top _ _) as [u|] eqn:Et; [|by simplify_eq].
    apply top_gray in Et.
    assert (Hu : discovered st u) by (by exists gray).
    destruct (decide (u = m_goal)) as [->|Hne]; [by simplify_eq|].
    assert (Hes : forall v w, (v, w) ∈ out_edges u g -> v ∈ adjacent_vertices u g).
    { intros v w Hin. unfold adjacent_vertices. apply list_elem_of_fmap.
      by exists (v, w). }
    pose proof (examine_edges_pred_inv g s (Some h) u (out_edges u g) st Hinv Hu Hes)
      as [He1 He2].
    destruct (examine_edges (Some h) u (out_edges u g) st) as [[x|] st1] eqn:Ee.
    + simplify_eq. split; [done|].
      intros [= ->]. exfalso. clear -Ee.
      revert st Ee. induction (out_edges u g) as [|e es IHes]; intros st Ee;
        cbn [examine_edges] in Ee; [done|].
      destruct (examine_edge (Some h) u e st) as [st2|y] eqn:E1.
      * by eapply IHes.
      * simplify_eq. unfold examine_edge in E1. destruct e as [v w].
        destruct (to_int w <? 0)%Z; [done|].
        destruct (color_of st' v); destruct (relax u v w st'); done.
    + eapply IH; [|done]. by apply pred_inv_set_color.
Qed.

Lemma walkAS_chain (G : SpatialGraph) (p : list nat) fuel :
  forall v acc s_path',
  walkAS fuel G p v acc = Some s_path' ->
  exists v0 vs,
    s_path' = (getNode G <$> (v0 :: vs)) ++ acc /\
    last (v0 :: vs) = Some v /\
    pred_of p v0 = v0 /\
    (forall i a b, (v0 :: vs) !! i = Some a -> (v0 :: vs) !! S i = Some b ->
                   pred_of p b = a /\ a <> b).
Proof.
  induction fuel as [|fuel IH]; intros v acc s_path' Hrun; [done|].
  cbn [walkAS] in Hrun.
  destruct (decide (pred_of p v = v)) as [E|Hne].
  - simplify_eq. exists v, []. split; [done|]. split; [done|]. split; [done|].
    intros i a b Ha Hb. by destruct i.
  - apply IH in Hrun as (v0 & vs & -> & Hlast & Hfix & Hchain).
    exists v0, (vs ++ [v]). split.
    { rewrite (app_comm_cons vs [v] v0), fmap_app, <- app_assoc. done. }
    split.
    { rewrite (app_comm_cons vs [v] v0). by rewrite last_snoc. }
    split; [done|].
    intros i a b Ha Hb. rewrite (app_comm_cons vs [v] v0) in Ha, Hb.
    destruct (decide (S i < length (v0 :: vs))) as [Hlt|Hge].
    + rewrite lookup_app_l in Ha by lia. rewrite lookup_app_l in Hb by lia.
      by apply (Hchain i).
    + apply lookup_lt_Some in Hb as Hb'. rewrite length_app in Hb'.
      simpl in Hb'.
      assert (Ei : S i = length (v0 :: vs)) by (simpl in *; lia).
      rewrite Ei, list_lookup_middle in Hb by done. simplify_eq.
      rewrite lookup_app_l in Ha by (simpl in *; lia).
      rewrite last_lookup in Hlast.
      replace (Init.Nat.pred (length (v0 :: vs))) with i in Hlast
        by (simpl in *; lia).
      rewrite Ha in Hlast. simplify_eq. done.
Qed.

Lemma pred_of_lookup (p : list nat) v :
  v < length p -> p !! v = Some (pred_of p v).
Proof.
  intros Hv. unfold pred_of.
  destruct (lookup_lt_is_Some_2 p v Hv) as [u ->]. done.
Qed.

(** The colours change in one direction only: a discovered vertex stays
    discovered, no vertex turns black while the out-edges of a vertex are
    examined, and the target of an examined edge is discovered. *)
Lemma relax_color u v w st : m_color (relax u v w st).2 = m_color st.
Proof. unfold relax. by destruct (_ <? _)%Z. Qed.

Lemma discovered_insert_gray st x v :
  discovered st x -> discovered (set_color st v gray) x.
Proof. intros H. by apply discovered_set_color. Qed.

Lemma examine_edge_colors h u v w st st' :
  examine_edge h u (v, w) st = Return st' ->
  length (m_color st') = length (m_color st) /\
  (forall x, discovered st x -> discovered st' x) /\
  (forall x, m_color st' !! x = Some black -> m_color st !! x = Some black) /\
  (v < length (m_color st) -> discovered st' v).
Proof.
  unfold examine_edge. destruct (to_int w <? 0)%Z; [done|].
  pose proof (relax_color u v w st) as Hr.
  destruct (relax u v w st) as [decreased st1]. cbn [snd] in Hr.
  set (st2 := match h with
              | Some h0 => set_cost st1 v (closed_plus (distance_of st1 v) (to_int (h0 v)))
              | None => st1
              end).
  assert (Hc2 : m_color st2 = m_color st).
  { subst st2. by destruct h. }
  assert (Hgray : forall sx, m_color sx = m_color st ->
            length (m_color (set_color sx v gray)) = length (m_color st) /\
            (forall x, discovered st x -> discovered (set_color sx v gray) x) /\
            (forall x, m_color (set_color sx v gray) !! x = Some black ->
                       m_color st !! x = Some black) /\
            (v < length (m_color st) -> discovered (set_color sx v gray) v)).
  { intros sx Hsx. unfold discovered. cbn [m_color set_color]. rewrite Hsx.
    split; [by rewrite length_insert|]. split; [|split].
    - intros x (c & Hx & Hw). destruct (decide (x = v)) as [->|Hne].
      + exists gray. split; [|done]. apply list_lookup_insert_eq.
        by apply lookup_lt_Some in Hx.
      + exists c. by rewrite list_lookup_insert_ne.
    - intros x Hx.
      apply list_lookup_insert_Some in Hx as [(_ & ? & _)|[_ Hx]]; done.
    - intros Hv. exists gray. split; [|done]. by apply list_lookup_insert_eq. }
  assert (Hsame : forall sx, m_color sx = m_color st ->
            (exists c, m_color st !! v = Some c /\ c <> white) ->
            length (m_color sx) = length (m_color st) /\
            (forall x, discovered st x -> discovered sx x) /\
            (forall x, m_color sx !! x = Some black ->
                       m_color st !! x = Some black) /\
            (v < length (m_color st) -> discovered sx v)).
  { intros sx Hsx Hv. unfold discovered. rewrite Hsx. done. }
  unfold color_of.
  destruct (m_color st !! v) as [c|] eqn:Ev; cbn [default].
  - destruct c.
    + intros [= <-]. destruct decreased; by apply Hgray.
    + intros [= <-]. destruct decreased; (apply Hsame; [done|by exists gray]).
    + destruct h as [h0|]; intros [= <-].
      * destruct decreased; [by apply Hgray|].
        apply Hsame; [done|by exists black].
      * apply Hsame; [done|by exists black].
  - intros [= <-]. destruct decreased; by apply Hgray.
Qed.

Lemma examine_edges_colors h u es : forall st,
  length (m_color (examine_edges h u es st).2) = length (m_color st) /\
  (forall x, discovered st x -> discovered (examine_edges h u es st).2 x) /\
  (forall x, m_color (examine_edges h u es st).2 !! x = Some black ->
             m_color st !! x = Some black) /\
  ((examine_edges h u es st).1 = None ->
   forall v w, (v, w) ∈ es -> v < length (m_color st) ->
               discovered (examine_edges h u es st).2 v).
Proof.
  induction es as [|[v w] es IH]; intros st; cbn [examine_edges].
  - split; [done|]. split; [done|]. split; [done|].
    intros _ v w Hin. by apply elem_of_nil in Hin.
  - destruct (examine_edge h u (v, w) st) as [st1|x] eqn:E.
    + apply examine_edge_colors in E as (L1 & D1 & B1 & V1).
      destruct (IH st1) as (L2 & D2 & B2 & V2).
      split; [by rewrite L2|]. split; [auto|]. split; [auto|].
      intros Hnone v' w' Hin Hv'.
      apply elem_of_cons in Hin as [[= -> ->]|Hin].
      * apply D2. by apply V1.
      * apply (V2 Hnone v' w' Hin). by rewrite L1.
    + split; [done|]. split; [done|]. split; [done|]. done.
Qed.

(** An empty queue: no vertex is gray. *)
Lemma top_None (key : list Z) (color : list Color) v :
  top key color = None -> color !! v <> Some gray.
Proof.
  unfold top. intros Htop Hv.
  assert (Hgen : forall l best,
    foldl (fun best v =>
             match color !! v with
             | Some gray =>
               match best with
               | None => Some v
               | Some b =>
                 if (default 0 (key !! v) <? default 0 (key !! b))%Z
                 then Some v else best
               end
             | _ => best
             end) best l = None ->
    best = None /\ forall x, x ∈ l -> color !! x <> Some gray).
  { induction l as [|x l IH]; intros best Hf; cbn [foldl] in Hf.
    - split; [done|]. intros x Hx. by apply elem_of_nil in Hx.
    - apply IH in Hf as [Hb Hl].
      destruct (color !! x) as [[]|] eqn:Ex.
      + split; [done|]. intros y Hy.
        apply elem_of_cons in Hy as [->|Hy]; [by rewrite Ex|by apply Hl].
      + exfalso. destruct best as [b|]; [|done].
        by destruct (_ <? _)%Z.
      + split; [done|]. intros y Hy.
        apply elem_of_cons in Hy as [->|Hy]; [by rewrite Ex|by apply Hl].
      + split; [done|]. intros y Hy.
        apply elem_of_cons in Hy as [->|Hy]; [by rewrite Ex|by apply Hl]. }
  apply Hgen in Htop as [_ Hl]. apply (Hl v); [|done].
  apply elem_of_seq. apply lookup_lt_Some in Hv. lia.
Qed.

(** A* explores all that can be reached: when it ends without having
    taken the goal from the queue, the black vertices are closed under
    the out-edges, no vertex is gray and the goal is not black. *)
Lemma astar_loop_closed g h m_goal fuel :
  (forall u v, v ∈ adjacent_vertices u g -> v < length g) ->
  forall st st',
  length (m_color st) = length g ->
  black_closed g st -> m_color st !! m_goal <> Some black ->
  astar_loop fuel g h m_goal st = Some (None, st') ->
  black_closed g st' /\ m_color st' !! m_goal <> Some black /\
  (forall v, m_color st' !! v <> Some gray) /\
  (forall x, discovered st x -> discovered st' x).
Proof.
  intros Htgt.
  induction fuel as [|fuel IH]; intros st st' Hlen Hcl Hgoal Hrun;
    cbn [astar_loop] in Hrun.
  - destruct (top _ _) eqn:Et; [done|]. simplify_eq.
    split; [done|]. split; [done|]. split; [|done].
    intros v. by apply (top_None _ _ v Et).
  - destruct (top _ _) as [u|] eqn:Et.
    2:{ simplify_eq. split; [done|]. split; [done|]. split; [|done].
        intros v. by apply (top_None _ _ v Et). }
    destruct (decide (u = m_goal)) as [->|Hne]; [done|].
    destruct (examine_edges_colors (Some h) u (out_edges u g) st)
      as (L1 & D1 & B1 & V1).
    destruct (examine_edges (Some h) u (out_edges u g) st) as [[x|] st1] eqn:Ee;
      [done|]. cbn [fst snd] in *.
    apply IH in Hrun as (H1 & H2 & H3 & H4).
    + split; [done|]. split; [done|]. split; [done|].
      intros x Hx. apply H4. apply discovered_set_color; [|done]. by apply D1.
    + cbn [m_color set_color]. by rewrite length_insert, L1.
    + intros a b Ha Hb. apply discovered_set_color; [|done].
      cbn [m_color set_color] in Ha.
      apply list_lookup_insert_Some in Ha as [(<- & _ & _)|[_ Ha]].
      * unfold adjacent_vertices in Hb.
        apply list_elem_of_fmap in Hb as ([b' w] & -> & Hin).
        apply (V1 eq_refl b' w Hin). rewrite Hlen. apply (Htgt u).
        unfold adjacent_vertices. apply list_elem_of_fmap. by exists (b', w).
      * apply D1. apply (Hcl a b); [by apply B1|done].
    + cbn [m_color set_color]. rewrite list_lookup_insert_ne by done.
      intros Hb. apply Hgoal. by apply B1.
Qed.

Lemma astar_search_explores fuel (g : s_graph) s h m_goal st :
  s < length g ->
  (forall u v, v ∈ adjacent_vertices u g -> v < length g) ->
  astar_search fuel g s h m_goal = Some (None, st) ->
  ~ reachable g s m_goal.
Proof.
  intros Hs Htgt Hrun Hreach. unfold astar_search in Hrun.
  apply (astar_loop_closed g h m_goal fuel Htgt) in Hrun
    as (Hcl & Hgoal & Hgray & Hmono).
  - assert (Hblack : forall v, reachable g s v -> m_color st !! v = Some black).
    { assert (Hd : forall v, discovered st v -> m_color st !! v = Some black).
      { intros v (c & Hc & Hw). destruct c; [done| |done].
        by apply Hgray in Hc. }
      unfold reachable. apply rtc_ind_r.
      - apply Hd, Hmono. exists gray. split; [|done].
        cbn [init_maps m_color]. apply list_lookup_insert_eq.
        by rewrite length_replicate.
      - intros b c Hab Hbc IHr. apply Hd. by apply (Hcl b c). }
    by apply Hgoal, Hblack.
  - cbn [init_maps m_color]. by rewrite length_insert, length_replicate.
  - intros a b Ha. cbn [init_maps m_color] in Ha.
    apply list_lookup_insert_Some in Ha as [(_ & ? & _)|[_ Ha]]; [done|].
    by apply lookup_replicate in Ha as [? _].
  - cbn [init_maps m_color]. intros Hb.
    apply list_lookup_insert_Some in Hb as [(_ & ? & _)|[_ Hb]]; [done|].
    by apply lookup_replicate in Hb as [? _].
Qed.

Section TracedPath.
Context {DM : DistMetric}.

(** X22: the path [findPathAS] traces. When A* takes the goal from its
    queue, the stored nodes of a chain of vertices are put in front of
    [outPath], in the order of the chain; the chain ends at the goal, each
    of its vertices is the target of an out-edge of the one before, and
    every vertex of it is reached from the start. Its first vertex is the
    start vertex, unless its distance is still the largest [int].
    [outPath] is left as it was only when A* ends without having taken the
    goal from the queue; and when the start is a vertex of the graph and
    the edges lead to vertices of the graph, this happens only if no path
    leads from the start to the goal. *)
Theorem findPathAS_traces_walk (fuel : nat) (G : SpatialGraph) (f t : s_node)
    (s_path s_path' : list s_node) :
  findPathAS fuel G f t s_path = Some (Return true, s_path') ->
  exists o st,
    astar_search fuel (p_graph G) (vertex f)
      (distance_heuristic (node_list G) (vertex t)) (vertex t)
    = Some (o, st) /\
    ((o = None /\ s_path' = s_path /\
      (vertex f < num_vertices (p_graph G) ->
       (forall u v, v ∈ adjacent_vertices u (p_graph G) ->
                    v < num_vertices (p_graph G)) ->
       ~ reachable (p_graph G) (vertex f) (vertex t))) \/
     (o = Some found_goal /\
      exists v0 vs,
        s_path' = (getNode G <$> (v0 :: vs)) ++ s_path /\
        last (v0 :: vs) = Some (vertex t) /\
        is_walk (p_graph G) (v0 :: vs) /\
        (forall v, v ∈ v0 :: vs -> reachable (p_graph G) (vertex f) v) /\
        (v0 = vertex f \/ m_distance st !! v0 = Some int_max))).
Proof.
  unfold findPathAS. intros Hrun.
  destruct (astar_search fuel (p_graph G) (vertex f)
              (distance_heuristic (node_list G) (vertex t)) (vertex t))
    as [[[x|] st]|] eqn:Ea; [| |done].
  2:{ simplify_eq. exists None, st. split; [done|]. left.
      split; [done|]. split; [done|]. intros Hf Htgt.
      by apply (astar_search_explores _ _ _ _ _ _ Hf Htgt Ea). }
  destruct x; try done.
  destruct (walkAS fuel G (m_predecessor st) (vertex t) s_path)
    as [l|] eqn:Ew; [|done].
  simplify_eq. exists (Some found_goal), st. split; [done|]. right.
  split; [done|]. unfold astar_search in Ea.
  pose proof Ea as Ea'.
  apply (astar_loop_pred_inv _ (vertex f)) in Ea as [Hinv Hg];
    [|apply pred_inv_init].
  apply (astar_loop_inv _ (vertex f)) in Ea' as [Hsinv Hreach];
    [|apply search_inv_init].
  specialize (Hg eq_refl). specialize (Hreach eq_refl).
  apply walkAS_chain in Ew as (v0 & vs & -> & Hlast & Hfix & Hchain).
  assert (Hdisc : forall i a, (v0 :: vs) !! i = Some a -> discovered st a).
  { intros i a Ha.
    assert (Hgen : forall k i a, i + k = length vs ->
              (v0 :: vs) !! i = Some a -> discovered st a).
    { clear i a Ha. induction k as [|k IHk]; intros i a Hik Ha.
      - rewrite last_lookup in Hlast. simpl in Hlast.
        replace i with (length vs) in Ha by lia.
        rewrite Ha in Hlast. by simplify_eq.
      - destruct (lookup_lt_is_Some_2 (v0 :: vs) (S i)) as [b Hb];
          [simpl; lia|].
        destruct (Hchain i a b Ha Hb) as [Hp Hne].
        assert (Hbd : discovered st b) by (apply (IHk (S i)); [lia|done]).
        destruct Hbd as (cb & Hcb & _).
        apply lookup_lt_Some in Hcb. rewrite <- (pi_len _ _ _ Hinv) in Hcb.
        apply pred_of_lookup in Hcb. rewrite Hp in Hcb.
        by destruct (pi_adj _ _ _ Hinv b a Hcb Hne). }
    apply lookup_lt_Some in Ha as Hi. simpl in Hi.
    apply (Hgen (length vs - i) i); [lia|done]. }
  assert (Hp0 : m_predecessor st !! v0 = Some v0).
  { destruct (Hdisc 0 v0 eq_refl) as (c & Hc & _).
    apply lookup_lt_Some in Hc. rewrite <- (pi_len _ _ _ Hinv) in Hc.
    apply pred_of_lookup in Hc. by rewrite Hfix in Hc. }
  exists v0, vs. split; [done|]. split; [done|].
  split; [|split].
  - intros i a b Ha Hb. destruct (Hchain i a b Ha Hb) as [Hp Hne].
    destruct (Hdisc (S i) b Hb) as (cb & Hcb & _).
    apply lookup_lt_Some in Hcb. rewrite <- (pi_len _ _ _ Hinv) in Hcb.
    apply pred_of_lookup in Hcb. rewrite Hp in Hcb.
    by destruct (pi_adj _ _ _ Hinv b a Hcb Hne).
  - intros v Hv. apply list_elem_of_lookup in Hv as [i Hi].
    destruct (Hdisc i v Hi) as (c & Hc & Hw).
    by apply (inv_color _ _ _ Hsinv v c).
  - by apply (pi_fix _ _ _ Hinv).
Qed.

End TracedPath.

Lemma findPathAS_traces_walk_witness :
  @findPathAS L1Metric 5 chain (mk_s_node [0%Q] 0) (mk_s_node [8%Q] 2) []
  = Some (Return true,
          [mk_s_node [0%Q] 0; mk_s_node [4%Q] 1; mk_s_node [8%Q] 2]) /\
  exists o st,
    astar_search 5 (p_graph chain) 0
      (@distance_heuristic L1Metric (node_list chain) 2) 2
    = Some (o, st) /\
    ((o = None /\
      [mk_s_node [0%Q] 0; mk_s_node [4%Q] 1; mk_s_node [8%Q] 2] = [] /\
      (0 < num_vertices (p_graph chain) ->
       (forall u v, v ∈ adjacent_vertices u (p_graph chain) ->
                    v < num_vertices (p_graph chain)) ->
       ~ reachable (p_graph chain) 0 2)) \/
     (o = Some found_goal /\
      exists v0 vs,
        [mk_s_node [0%Q] 0; mk_s_node [4%Q] 1; mk_s_node [8%Q] 2]
        = (getNode chain <$> (v0 :: vs)) ++ [] /\
        last (v0 :: vs) = Some 2 /\
        is_walk (p_graph chain) (v0 :: vs) /\
        (forall v, v ∈ v0 :: vs -> reachable (p_graph chain) 0 v) /\
        (v0 = 0 \/ m_distance st !! v0 = Some int_max))).
Proof.
  split; [reflexivity|].
  apply (@findPathAS_traces_walk L1Metric 5 chain
           (mk_s_node [0%Q] 0) (mk_s_node [8%Q] 2) []).
  reflexivity.
Defined.

Section RoadmapPlan.
Context {DM : DistMetric} {IC : ICollision}.

Lemma findPathAS_prepends fuel (G : SpatialGraph) f t l o l' :
  findPathAS fuel G f t l = Some (o, l') -> exists new, l' = new ++ l.
Proof.
  unfold findPathAS. intros Hrun.
  destruct (astar_search fuel (p_graph G) (vertex f)
              (distance_heuristic (node_list G) (vertex t)) (vertex t))
    as [[[x|] st]|]; [| |done].
  - destruct x; try (exists []; by simplify_eq).
    destruct (walkAS fuel G (m_predecessor st) (vertex t) l) as [l1|] eqn:Ew;
      [|done].
    apply walkAS_chain in Ew as (v0 & vs & -> & _). simplify_eq.
    by eexists.
  - exists []. by simplify_eq.
Qed.

Lemma addConfig_accepts params dof (G : SpatialGraph) conf n_old G' n :
  ClassicPRM.addConfig params dof G conf n_old = (true, G', n) ->
  Z.of_nat (length conf) = dof /\
  length (node_list G') = S (length (node_list G)).
Proof.
  intros Hrun. apply addConfig_cases in Hrun. cbv zeta in Hrun.
  destruct Hrun as [(_ & ? & _)|(Hd & Hnl & _)]; [done|].
  split; [done|]. rewrite Hnl, length_app. simpl. lia.
Qed.

(** X23: the outcomes of the roadmap planner's [PlanPath]. When the call
    returns false or throws, the trajectory and the path list are as they
    were. When it returns true, the start and goal configurations have
    the robot's size and were both stored in the roadmap; the path list,
    which is never cleared, has gained nodes at its front only; and the
    trajectory has gained one point for every node of the whole list,
    those of earlier calls included. *)
Theorem PlanPath_outcomes (fuel : nat) (P : ClassicPRM.planner)
    (ptraj : list config) (o : outcome (bool * ClassicPRM.planner))
    (ptraj' : list config) :
  ClassicPRM.PlanPath fuel P ptraj = Some (o, ptraj') ->
  match o with
  | Throw _ => ptraj' = ptraj
  | Return (false, P') =>
    ptraj' = ptraj /\ ClassicPRM.l_pathnodes P' = ClassicPRM.l_pathnodes P
  | Return (true, P') =>
    exists params new,
      ClassicPRM.p_parameters P = Some params /\
      Z.of_nat (length (vinitialconfig (base_params params)))
      = ClassicPRM.robot_dof P /\
      Z.of_nat (length (vgoalconfig (base_params params)))
      = ClassicPRM.robot_dof P /\
      length (node_list (ClassicPRM.g_roadmap P'))
      = 2 + length (node_list (ClassicPRM.g_roadmap P)) /\
      ClassicPRM.l_pathnodes P' = new ++ ClassicPRM.l_pathnodes P /\
      ptraj' = emit (GetDOF (base_params params))
                    (replicate (Z.to_nat (GetDOF (base_params params))) 0%Q)
                    (ClassicPRM.l_pathnodes P') ptraj /\
      length ptraj' = length ptraj + length (ClassicPRM.l_pathnodes P')
  end.
Proof.
  unfold ClassicPRM.PlanPath. intros Hrun.
  destruct (ClassicPRM.p_parameters P) as [params|] eqn:Hp.
  2:{ by simplify_eq. }
  unfold ClassicPRM.addStartConfig in Hrun.
  destruct (ClassicPRM.addConfig params (ClassicPRM.robot_dof P)
              (ClassicPRM.g_roadmap P)
              (vinitialconfig (base_params params)) (ClassicPRM.n_start P))
    as [[ok1 G1] n1] eqn:E1.
  destruct ok1; cbn [negb] in Hrun.
  2:{ by simplify_eq. }
  unfold ClassicPRM.addGoalConfig in Hrun.
  cbn [ClassicPRM.robot_dof ClassicPRM.g_roadmap ClassicPRM.n_goal
       ClassicPRM.n_start ClassicPRM.set_roadmap] in Hrun.
  destruct (ClassicPRM.addConfig params (ClassicPRM.robot_dof P) G1
              (vgoalconfig (base_params params)) (ClassicPRM.n_goal P))
    as [[ok2 G2] n2] eqn:E2.
  destruct ok2; cbn [negb] in Hrun.
  2:{ by simplify_eq. }
  cbn [ClassicPRM.robot_dof ClassicPRM.g_roadmap ClassicPRM.n_goal
       ClassicPRM.n_start ClassicPRM.set_roadmap ClassicPRM.l_pathnodes] in Hrun.
  rewrite findPath_is_findPathAS_aux in Hrun.
  destruct (findPathAS fuel G2 n1 n2 (ClassicPRM.l_pathnodes P))
    as [[o1 l1]|] eqn:Ef; [|done].
  pose proof (findPathAS_prepends _ _ _ _ _ _ _ Ef) as [new ->].
  pose proof (findPathAS_cases _ _ _ _ _ _ _ Ef) as [[-> _]|(x & -> & _)].
  2:{ by simplify_eq. }
  simplify_eq. exists params, new.
  apply addConfig_accepts in E1 as [Hd1 Hl1].
  apply addConfig_accepts in E2 as [Hd2 Hl2].
  cbn [ClassicPRM.l_pathnodes ClassicPRM.set_pathnodes ClassicPRM.g_roadmap
       ClassicPRM.set_roadmap].
  split; [done|]. split; [done|]. split; [done|].
  split; [lia|]. split; [done|]. split; [done|].
  apply emit_length.
Qed.

End RoadmapPlan.

Lemma PlanPath_outcomes_witness :
  (exists P1,
     @ClassicPRM.InitPlan L1Metric FreeRoad (ClassicPRM.create 1 0 0) 1
       (example_prm 2) [Some [0%Q]; Some [1%Q]] = Some (true, P1, []) /\
     @ClassicPRM.InitPlan L1Metric FreeRoad P1 1 (example_prm 0) []
     = Some (true, replanned, [])) /\
  exists P',
    @ClassicPRM.PlanPath L1Metric FreeRoad 10 replanned [[7%Q]]
    = Some (Return (true, P'), [[7%Q]; [0%Q]; [0%Q]; [1%Q]]) /\
    ClassicPRM.l_pathnodes P'
    = [mk_s_node [0%Q] 2; mk_s_node [0%Q] 0; mk_s_node [1%Q] 3] /\
    exists params new,
      ClassicPRM.p_parameters replanned = Some params /\
      Z.of_nat (length (vinitialconfig (base_params params)))
      = ClassicPRM.robot_dof replanned /\
      Z.of_nat (length (vgoalconfig (base_params params)))
      = ClassicPRM.robot_dof replanned /\
      length (node_list (ClassicPRM.g_roadmap P'))
      = 2 + length (node_list (ClassicPRM.g_roadmap replanned)) /\
      ClassicPRM.l_pathnodes P' = new ++ ClassicPRM.l_pathnodes replanned /\
      [[7%Q]; [0%Q]; [0%Q]; [1%Q]]
      = emit (GetDOF (base_params params))
             (replicate (Z.to_nat (GetDOF (base_params params))) 0%Q)
             (ClassicPRM.l_pathnodes P') [[7%Q]] /\
      length [[7%Q]; [0%Q]; [0%Q]; [1%Q]]
      = length [[7%Q]] + length (ClassicPRM.l_pathnodes P').
Proof.
  split.
  { eexists. split; [reflexivity|]. vm_compute. reflexivity. }
  eexists. split; [lazy; reflexivity|]. split; [reflexivity|].
  apply (@PlanPath_outcomes L1Metric FreeRoad 10 replanned [[7%Q]]
           (Return (true, _)) [[7%Q]; [0%Q]; [0%Q]; [1%Q]]).
  lazy. reflexivity.
Defined.

(** ** The path traced by [findPathDK] *)

Lemma dijkstra_loop_pred_inv g s fuel : forall st o st',
  pred_inv g s st -> dijkstra_loop fuel g st = Some (o, st') ->
  pred_inv g s st'.
Proof.
  induction fuel as [|fuel IH]; intros st o st' Hinv Hrun;
    cbn [dijkstra_loop] in Hrun.
  - destruct (top _ _); [done|]. by simplify_eq.
  - destruct (top _ _) as [u|] eqn:Et; [|by simplify_eq].
    apply top_gray in Et.
    assert (Hu : discovered st u) by (by exists gray).
    assert (Hes : forall v w, (v, w) ∈ out_edges u g -> v ∈ adjacent_vertices u g).
    { intros v w Hin. unfold adjacent_vertices. apply list_elem_of_fmap.
      by exists (v, w). }
    pose proof (examine_edges_pred_inv g s None u (out_edges u g) st Hinv Hu Hes)
      as [He1 He2].
    destruct (examine_edges None u (out_edges u g) st) as [[x|] st1] eqn:Ee.
    + by simplify_eq.
    + eapply IH; [|done]. by apply pred_inv_set_color.
Qed.

Lemma walkDK_chain (G : SpatialGraph) (p : list nat) fuel :
  forall v acc child s_path',
  walkDK fuel G p v acc = Some (child, s_path') ->
  exists v1 vs,
    s_path' = (getNode G <$> (v1 :: vs)) ++ acc /\
    last (v1 :: vs) = Some v /\
    pred_of p v1 = child /\ pred_of p child = child /\
    (forall i a b, (v1 :: vs) !! i = Some a -> (v1 :: vs) !! S i = Some b ->
                   pred_of p b = a /\ pred_of p a <> a).
Proof.
  induction fuel as [|fuel IH]; intros v acc child s_path' Hrun; [done|].
  cbn [walkDK] in Hrun.
  destruct (decide (pred_of p v <> pred_of p (pred_of p v))) as [Hne|E].
  - apply IH in Hrun as (v1 & vs & -> & Hlast & Hh & Hfix & Hchain).
    exists v1, (vs ++ [v]). split.
    { rewrite (app_comm_cons vs [v] v1), fmap_app, <- app_assoc. done. }
    split.
    { rewrite (app_comm_cons vs [v] v1). by rewrite last_snoc. }
    split; [done|]. split; [done|].
    intros i a b Ha Hb. rewrite (app_comm_cons vs [v] v1) in Ha, Hb.
    destruct (decide (S i < length (v1 :: vs))) as [Hlt|Hge].
    + rewrite lookup_app_l in Ha by lia. rewrite lookup_app_l in Hb by lia.
      by apply (Hchain i).
    + apply lookup_lt_Some in Hb as Hb'. rewrite length_app in Hb'.
      simpl in Hb'.
      assert (Ei : S i = length (v1 :: vs)) by (simpl in *; lia).
      rewrite Ei, list_lookup_middle in Hb by done. simplify_eq.
      rewrite lookup_app_l in Ha by (simpl in *; lia).
      rewrite last_lookup in Hlast.
      replace (Init.Nat.pred (length (v1 :: vs))) with i in Hlast
        by (simpl in *; lia).
      rewrite Ha in Hlast. simplify_eq. split; [done|]. congruence.
  - simplify_eq. exists v, []. split; [done|]. split; [done|].
    split; [done|]. split.
    { destruct (decide (pred_of p (pred_of p v) = pred_of p v)); [done|].
      exfalso. apply E. congruence. }
    intros i a b Ha Hb. by destruct i.
Qed.

(** X24: what [findPathDK] traces. Its backward walk from the goal stops
    at a vertex that is its own predecessor; the nodes walked before it
    are put in front of [outPath] and form a walk of the graph that ends
    at the goal. The call returns false exactly when the walk stopped at
    the start vertex, which is then not part of the path; it returns true,
    with [from] put in front, only when the walk stopped at another
    vertex, whose distance is still the largest [int]. *)
Theorem findPathDK_traces_walk (fuel : nat) (G : SpatialGraph) (f t : s_node)
    (s_path : list s_node) (r : bool) (s_path' : list s_node) :
  vertex t < num_vertices (p_graph G) ->
  findPathDK fuel G f t s_path = Some (Return r, s_path') ->
  exists st child v1 vs,
    dijkstra_shortest_paths fuel (p_graph G) (vertex f) = Some (None, st) /\
    s_path' = (if r then [f] else []) ++ (getNode G <$> (v1 :: vs)) ++ s_path /\
    last (v1 :: vs) = Some (vertex t) /\
    is_walk (p_graph G) (v1 :: vs) /\
    pred_of (m_predecessor st) v1 = child /\
    pred_of (m_predecessor st) child = child /\
    (child = v1 \/ v1 ∈ adjacent_vertices child (p_graph G)) /\
    (if r then child <> vertex f /\ m_distance st !! child = Some int_max
     else child = vertex f).
Proof.
  intros Ht Hrun. unfold findPathDK in Hrun.
  destruct (dijkstra_shortest_paths fuel (p_graph G) (vertex f))
    as [[[x|] st]|] eqn:Ed; [done| |done].
  destruct (walkDK fuel G (m_predecessor st) (vertex t) s_path)
    as [[child l]|] eqn:Ew; [|done].
  unfold dijkstra_shortest_paths in Ed.
  pose proof (dijkstra_loop_pred_length _ _ _ _ _ Ed) as Hlen.
  cbn [init_maps m_predecessor] in Hlen. rewrite length_seq in Hlen.
  apply (dijkstra_loop_pred_inv _ (vertex f)) in Ed as Hinv;
    [|apply pred_inv_init].
  apply walkDK_chain in Ew as (v1 & vs & -> & Hlast & Hh & Hfix & Hchain).
  assert (Hrange : forall i a, (v1 :: vs) !! i = Some a ->
            a < length (m_predecessor st)).
  { assert (Hgen : forall k i a, i + k = length vs ->
              (v1 :: vs) !! i = Some a -> a < length (m_predecessor st)).
    { induction k as [|k IHk]; intros i a Hik Ha.
      - rewrite last_lookup in Hlast. simpl in Hlast.
        replace i with (length vs) in Ha by lia.
        rewrite Ha in Hlast. injection Hlast as ->. by rewrite Hlen.
      - destruct (lookup_lt_is_Some_2 (v1 :: vs) (S i)) as [b Hb];
          [simpl; lia|].
        destruct (Hchain i a b Ha Hb) as [Hp Hne].
        assert (Hbr : b < length (m_predecessor st))
          by (apply (IHk (S i)); [lia|done]).
        apply pred_of_lookup in Hbr. rewrite Hp in Hbr.
        assert (Hab : a <> b) by congruence.
        destruct (pi_adj _ _ _ Hinv b a Hbr Hab) as [_ (c & Hc & _)].
        apply lookup_lt_Some in Hc. by rewrite (pi_len _ _ _ Hinv). }
    intros i a Ha. apply lookup_lt_Some in Ha as Hi. simpl in Hi.
    apply (Hgen (length vs - i) i); [lia|done]. }
  assert (Hwalk : is_walk (p_graph G) (v1 :: vs)).
  { intros i a b Ha Hb. destruct (Hchain i a b Ha Hb) as [Hp Hne].
    pose proof (Hrange _ _ Hb) as Hbr.
    apply pred_of_lookup in Hbr. rewrite Hp in Hbr.
    assert (Hab : a <> b) by congruence.
    by destruct (pi_adj _ _ _ Hinv b a Hbr Hab). }
  pose proof (Hrange 0 v1 eq_refl) as Hv1.
  apply pred_of_lookup in Hv1. rewrite Hh in Hv1.
  assert (Hadj : child = v1 \/ v1 ∈ adjacent_vertices child (p_graph G)).
  { destruct (decide (child = v1)) as [|Hne]; [by left|right].
    by destruct (pi_adj _ _ _ Hinv v1 child Hv1 Hne). }
  assert (Hchild : child < length (m_predecessor st)).
  { destruct (decide (child = v1)) as [->|Hne].
    - by apply lookup_lt_Some in Hv1.
    - destruct (pi_adj _ _ _ Hinv v1 child Hv1 Hne) as [_ (c & Hc & _)].
      apply lookup_lt_Some in Hc. by rewrite (pi_len _ _ _ Hinv). }
  apply pred_of_lookup in Hchild. rewrite Hfix in Hchild.
  exists st, child, v1, vs. split; [done|].
  destruct (decide (child = vertex f)) as [Hc|Hc]; simplify_eq.
  - done.
  - split; [done|]. split; [done|]. split; [done|]. split; [done|].
    split; [done|]. split; [done|]. split; [done|].
    by destruct (pi_fix _ _ _ Hinv _ Hchild).
Qed.

Lemma findPathDK_traces_walk_witness :
  exists st child v1 vs,
    dijkstra_shortest_paths 5 (p_graph chain) 0 = Some (None, st) /\
    [mk_s_node [4%Q] 1; mk_s_node [8%Q] 2]
    = [] ++ (getNode chain <$> (v1 :: vs)) ++ [] /\
    last (v1 :: vs) = Some 2 /\
    is_walk (p_graph chain) (v1 :: vs) /\
    pred_of (m_predecessor st) v1 = child /\
    pred_of (m_predecessor st) child = child /\
    (child = v1 \/ v1 ∈ adjacent_vertices child (p_graph chain)) /\
    child = 0.
Proof.
  apply (findPathDK_traces_walk 5 chain (mk_s_node [0%Q] 0) (mk_s_node [8%Q] 2)
           [] false [mk_s_node [4%Q] 1; mk_s_node [8%Q] 2]).
  - vm_compute. lia.
  - reflexivity.
Defined.

(** ** When [Extend] reports a connection *)

Section Connected.
Context {CF : CollisionFunctions}.

Lemma step_scale_None (step fdist : dReal) :
  (0 <= step)%Q ->
  step_scale step fdist = None <-> (fdist <= (1 # 10) * step)%Q.
Proof.
  intros Hs. unfold step_scale.
  destruct (Qgt_bool fdist step) eqn:Eg.
  - apply Qgt_bool_true in Eg. split; [done|]. intros Hle. exfalso.
    assert ((1 # 10) * step <= step)%Q by nra. 
    apply (Qlt_irrefl step). eapply Qlt_le_trans; [exact Eg|].
    by eapply Qle_trans.
  - destruct (Qle_bool fdist ((1 # 10) * step)) eqn:El.
    + apply Qle_bool_iff in El. done.
    + split; [done|]. intros Hle. apply Qle_bool_iff in Hle. congruence.
Qed.

Lemma Extend_loop_Connected fuel dist :
  forall params target (T : SpatialTree) lastindex pnode bHasAdded r i T',
  (0 <= _fStepLength T)%Q -> _distmetricfn T = Some dist ->
  (0 <= lastindex)%Z -> _nodes T !! Z.to_nat lastindex = Some pnode ->
  Extend_loop fuel params target false T lastindex pnode bHasAdded
    = Some (Return (r, i, T')) ->
  exists n, (0 <= i)%Z /\ _nodes T' !! Z.to_nat i = Some n /\
    (r = ET_Connected <->
     (dist target (q n) <= (1 # 10) * _fStepLength T)%Q).
Proof.
  induction fuel as [|fuel IH]; intros * Hs Hd Hi Hp Hrun; [done|].
  cbn [Extend_loop] in Hrun. rewrite Hd in Hrun.
  pose proof (step_scale_None (_fStepLength T) (dist target (q pnode)) Hs) as Hsc.
  destruct (step_scale _ _) as [f|].
  2:{ unfold ret in Hrun. simplify_eq. exists pnode.
      split; [done|]. split; [done|]. split; [intros _; by apply Hsc|done]. }
  assert (Hfar : ~ (dist target (q pnode) <= (1 # 10) * _fStepLength T)%Q).
  { intros Hle. by apply Hsc in Hle. }
  assert (Hstop : forall v,
    ret (stopped bHasAdded, lastindex, set_vNewConfig T v)
    = Some (Return (r, i, T')) ->
    exists n, (0 <= i)%Z /\ _nodes T' !! Z.to_nat i = Some n /\
      (r = ET_Connected <->
       (dist target (q n) <= (1 # 10) * _fStepLength T)%Q)).
  { intros v Hret. unfold ret in Hret. simplify_eq. exists pnode.
    split; [done|]. split; [done|]. split; [by destruct bHasAdded|done]. }
  destruct (candidate _ _ _ _ _ _ _) as [ok v].
  destruct ok; cbn [negb] in Hrun; [|by apply (Hstop v)].
  destruct (CheckCollision params (q pnode) v); [by apply (Hstop v)|].
  destruct (AddNode (set_vNewConfig T v) lastindex v) as [j2 T2] eqn:EA.
  pose proof (AddNode_index (set_vNewConfig T v) lastindex v) as Hj.
  pose proof (AddNode_nodes (set_vNewConfig T v) lastindex v) as HT2.
  rewrite EA in Hj, HT2. cbn [fst snd _nodes set_vNewConfig] in Hj, HT2.
  assert (Hf2 : _distmetricfn T2 = Some dist /\ _fStepLength T2 = _fStepLength T).
  { unfold AddNode in EA. by simplify_eq. }
  destruct Hf2 as [Hd2 Hs2].
  rewrite HT2, Hj, Nat2Z.id, list_lookup_middle in Hrun by done.
  cbv beta iota in Hrun. rewrite <- Hj in Hrun.
  assert (Hs' : (0 <= _fStepLength T2)%Q) by (by rewrite Hs2).
  assert (Hi' : (0 <= j2)%Z) by lia.
  assert (Hp' : _nodes T2 !! Z.to_nat j2 = Some (mk_t_node lastindex v)).
  { by rewrite HT2, Hj, Nat2Z.id, list_lookup_middle. }
  destruct (IH _ _ _ _ _ _ _ _ _ Hs' Hd2 Hi' Hp' Hrun) as (n & H1 & H2 & H3).
  exists n. rewrite Hs2 in H3. done.
Qed.

Lemma Extend_Connected_aux (fuel : nat) (T : SpatialTree)
    (target : config) (r : ExtendType) (i : Z) (T' : SpatialTree) :
  (0 <= _fStepLength T)%Q -> _nodes T <> [] ->
  Extend fuel T target false = Some (Return (r, i, T')) ->
  exists dist n,
    _distmetricfn T = Some dist /\ (0 <= i)%Z /\
    _nodes T' !! Z.to_nat i = Some n /\
    (r = ET_Connected <->
     (dist target (q n) <= (1 # 10) * _fStepLength T)%Q).
Proof.
  intros Hs Hne Hrun.
  apply Extend_returns_inv in Hrun
    as [(En & _)|(dist & params & k & node & Hd & Hp & _ & Hk & Hrun)];
    [done|].
  exists dist.
  apply (Extend_loop_Connected _ dist) in Hrun as (n & H1 & H2 & H3).
  - exists n. done.
  - done.
  - done.
  - lia.
  - cbn [_nodes set_fBestDist]. by rewrite Nat2Z.id.
Qed.

(** X25: what [ET_Connected] means. On a tree with nodes and a step length
    that is not negative, a call of [Extend] without [bOneStep] returns
    [ET_Connected] exactly when the node it leaves in [lastindex] lies
    within a tenth of the step length of the target; the calls that stop
    on a collision or on the constraints leave [lastindex] on a node that
    is farther. *)
Theorem Extend_Connected_iff_close (fuel : nat) (T : SpatialTree)
    (target : config) (r : ExtendType) (i : Z) (T' : SpatialTree) :
  (0 <= _fStepLength T)%Q -> _nodes T <> [] ->
  Extend fuel T target false = Some (Return (r, i, T')) ->
  exists dist n,
    _distmetricfn T = Some dist /\ (0 <= i)%Z /\
    _nodes T' !! Z.to_nat i = Some n /\
    (r = ET_Connected <->
     (dist target (q n) <= (1 # 10) * _fStepLength T)%Q).
Proof. apply Extend_Connected_aux. Qed.

End Connected.

Lemma Extend_Connected_iff_close_witness :
  exists T' dist n,
    @Extend Blocked 1 example_tree [1%Q] false
    = Some (Return (ET_Failed, 0%Z, T')) /\
    _distmetricfn example_tree = Some dist /\ (0 <= 0)%Z /\
    _nodes T' !! Z.to_nat 0 = Some n /\
    (ET_Failed = ET_Connected <->
     (dist [1%Q] (q n) <= (1 # 10) * _fStepLength example_tree)%Q).
Proof.
  eexists.
  assert (H0 : (0 <= _fStepLength example_tree)%Q) by (by vm_compute).
  assert (H1 : _nodes example_tree <> []) by done.
  destruct (@Extend_Connected_iff_close Blocked 1 example_tree [1%Q]
              ET_Failed 0%Z _ H0 H1 eq_refl) as (dist & n & H).
  exists dist, n. split; [reflexivity|exact H].
Defined.

(** ** Resetting a tree *)

(** X26: [cReset] empties the tree and installs the planner, whatever the
    tree held. Afterwards no index is valid for [GetConfig], [Extend]
    fails with [lastindex] -1 without touching the tree, and the next
    [AddNode] returns the index 0, where its configuration is found. A
    positive [dof] is recorded and [_vNewConfig] resized to it; any other
    value leaves both as they were. The metric is kept. *)
Theorem cReset_spec `{CollisionFunctions} (T : SpatialTree)
    (planner : option PlannerParameters) (dof : Z) :
  let T' := cReset T planner dof in
  _nodes T' = [] /\ _planner T' = planner /\
  _distmetricfn T' = _distmetricfn T /\
  (forall i, GetConfig T' i = Throw out_of_range) /\
  (forall fuel target bOneStep,
     Extend fuel T' target bOneStep = Some (Return (ET_Failed, (-1)%Z, T'))) /\
  (forall p c, (AddNode T' p c).1 = 0%Z /\
               GetConfig (AddNode T' p c).2 0 = Return c) /\
  (if (0 <? dof)%Z
   then _dof T' = dof /\ length (_vNewConfig T') = Z.to_nat dof
   else _dof T' = _dof T /\ _vNewConfig T' = _vNewConfig T).
Proof.
  intros T'. subst T'. split; [done|]. split; [done|]. split; [done|].
  split.
  { intros i. unfold GetConfig. cbn [_nodes cReset].
    by destruct (i <? 0)%Z. }
  split.
  { intros fuel target bOneStep. by apply Extend_empty. }
  split.
  { intros p c. split; [done|]. unfold GetConfig, AddNode.
    cbn [_nodes cReset snd]. done. }
  unfold cReset. cbn [_dof _vNewConfig].
  destruct (Z.ltb_spec 0 dof) as [Hd|Hd]; [|done].
  split; [done|].
  rewrite length_app, length_take, length_replicate. lia.
Qed.

(** ** What [InitPlan] stores *)

Section Stored.
Context {DM : DistMetric} {IC : ICollision}.

Lemma addEdge_node_list (G : SpatialGraph) u v :
  node_list (addEdge G u v).2 = node_list G.
Proof.
  destruct (addEdge_result G u v) as [E|(_ & _ & _ & E)]; by rewrite E.
Qed.

Lemma connect_sample_node_list params (G : SpatialGraph) c :
  node_list (ClassicPRM.connect_sample params G c) =
  node_list G ++ [mk_s_node c (num_vertices (p_graph G))].
Proof.
  unfold ClassicPRM.connect_sample.
  pose proof (addNode_node_list G c) as Hnl.
  destruct (addNode G c) as [vs G1]. cbn [snd] in Hnl.
  destruct (findNN G1 vs []) as [nns neighbors].
  destruct (nns =? 0)%Z; [done|].
  rewrite <- Hnl. clear Hnl. revert G1.
  induction neighbors as [|itt l IH]; intros G1; [done|].
  cbn [foldl].
  destruct (negb (ICollision_CheckCollision params c (nconfig itt))).
  - rewrite IH. apply addEdge_node_list.
  - apply IH.
Qed.

Lemma connect_samples_configs params confs : forall G : SpatialGraph,
  nconfig <$> node_list (foldl (ClassicPRM.connect_sample params) G confs)
  = (nconfig <$> node_list G) ++ confs.
Proof.
  induction confs as [|c confs IH]; intros G.
  - simpl. by rewrite app_nil_r.
  - cbn [foldl]. rewrite IH, connect_sample_node_list, fmap_app.
    by rewrite <- app_assoc.
Qed.

(** X27: what [InitPlan] leaves, whatever the budget. It returns true as
    soon as the sampler has delivered as many samples as the budget
    asks; the samples drawn are added to the sample set, after those an
    earlier [InitPlan] left there, and the new roadmap stores the
    configurations of the whole set, in order; the path list and the
    start and goal nodes are not touched. *)
Theorem InitPlan_stores_samples (P : ClassicPRM.planner) (dof : Z)
    (pparams : PRMParams) (samples : list (option config)) (b : bool)
    (P' : ClassicPRM.planner) (rest : list (option config)) :
  ClassicPRM.InitPlan P dof pparams samples = Some (b, P', rest) ->
  exists used,
    samples = used ++ rest /\ b = true /\
    ClassicPRM.p_parameters P' = Some pparams /\
    ClassicPRM.robot_dof P' = dof /\
    ClassicPRM.vv_cs_samples P' = ClassicPRM.vv_cs_samples P ++ omap id used /\
    length (omap id used) = Z.to_nat (i_nnodes pparams) /\
    nconfig <$> node_list (ClassicPRM.g_roadmap P')
    = ClassicPRM.vv_cs_samples P' /\
    ClassicPRM.l_pathnodes P' = ClassicPRM.l_pathnodes P /\
    ClassicPRM.n_start P' = ClassicPRM.n_start P /\
    ClassicPRM.n_goal P' = ClassicPRM.n_goal P.
Proof.
  intros Hrun.
  apply InitPlan_inv in Hrun
    as (used & Hs & -> & Hdof & Hp & Hvv & Hl & Hpath & Hns & Hng & HG).
  exists used. split; [done|]. split; [done|]. split; [done|].
  split; [done|]. split; [done|]. split; [done|]. split; [|done].
  by rewrite HG, connect_samples_configs.
Qed.

End Stored.

Lemma InitPlan_stores_samples_witness :
  exists P' used,
    @ClassicPRM.InitPlan L1Metric FreeRoad (ClassicPRM.create 1 0 0) 1
      (example_prm 1) [None; Some [3%Q]; Some [4%Q]]
    = Some (true, P', [Some [4%Q]]) /\
    [None; Some [3%Q]; Some [4%Q]] = used ++ [Some [4%Q]] /\ true = true /\
    ClassicPRM.p_parameters P' = Some (example_prm 1) /\
    ClassicPRM.robot_dof P' = 1%Z /\
    ClassicPRM.vv_cs_samples P'
    = ClassicPRM.vv_cs_samples (ClassicPRM.create 1 0 0) ++ omap id used /\
    length (omap id used) = Z.to_nat (i_nnodes (example_prm 1)) /\
    nconfig <$> node_list (ClassicPRM.g_roadmap P')
    = ClassicPRM.vv_cs_samples P' /\
    ClassicPRM.l_pathnodes P'
    = ClassicPRM.l_pathnodes (ClassicPRM.create 1 0 0) /\
    ClassicPRM.n_start P' = ClassicPRM.n_start (ClassicPRM.create 1 0 0) /\
    ClassicPRM.n_goal P' = ClassicPRM.n_goal (ClassicPRM.create 1 0 0).
Proof.
  eexists.
  destruct (@InitPlan_stores_samples L1Metric FreeRoad
              (ClassicPRM.create 1 0 0) 1 (example_prm 1)
              [None; Some [3%Q]; Some [4%Q]] true _ [Some [4%Q]] eq_refl)
    as (used & H).
  exists used. split; [reflexivity|exact H].
Defined.

(** ** What the connection of the two trees means *)

Section Connection.
Context {CF : CollisionFunctions}.

Lemma Extend_fields fuel (T : SpatialTree) target bOneStep r i T' :
  Extend fuel T target bOneStep = Some (Return (r, i, T')) ->
  _distmetricfn T' = _distmetricfn T /\ _fStepLength T' = _fStepLength T /\
  (_nodes T = [] -> r = ET_Failed).
Proof.
  intros Hrun.
  apply Extend_returns_inv in Hrun
    as [(En & -> & -> & ->)|(dist & params & k & node & Hd & Hp & _ & Hk & Hrun)].
  { done. }
  apply Extend_loop_appends in Hrun as (added & _ & (F1 & _ & F3 & _) & _).
  2:{ cbn [_nodes set_fBestDist]. apply lookup_lt_Some in Hk. lia. }
  2:{ cbn [_nodes set_fBestDist]. by rewrite Nat2Z.id. }
  cbn [_distmetricfn _fStepLength set_fBestDist] in F1, F3.
  split; [done|]. split; [done|]. intros E. by rewrite E in Hk.
Qed.

(** The trees of [P] are close: a node of the tree [t_start] lies within
    a tenth of that tree's step length of a node of the tree [t_goal]. *)
Lemma buildTrees_round_close fuel (P : SBLPlanner) start_id goal_id P' continued :
  b_connected P = false ->
  (0 <= _fStepLength (t_start P))%Q -> (0 <= _fStepLength (t_goal P))%Q ->
  buildTrees_round fuel P start_id goal_id = Some (Return (P', continued)) ->
  (0 <= _fStepLength (t_start P'))%Q /\ (0 <= _fStepLength (t_goal P'))%Q /\
  (b_connected P' = true ->
   continued = false /\
   exists dist na nb,
     _distmetricfn (t_goal P') = Some dist /\
     na ∈ _nodes (t_start P') /\ nb ∈ _nodes (t_goal P') /\
     (dist (q na) (q nb) <= (1 # 10) * _fStepLength (t_goal P'))%Q).
Proof.
  intros Hc Hs Hg Hrun. unfold buildTrees_round in Hrun.
  run_inv Hrun. rename x into c0.
  run_inv Hrun. destruct x as [[e0 i0] ts0].
  pose proof (Extend_fields _ _ _ _ _ _ _ Hx0) as (_ & Hs0 & _).
  run_inv Hrun. destruct x as [[ets i_start_index] ts].
  pose proof (Extend_fields _ _ _ _ _ _ _ Hx1) as (_ & Hs1 & _).
  cbn [t_goal t_start set_trees] in Hrun.
  assert (Hts : (0 <= _fStepLength ts)%Q) by (by rewrite Hs1, Hs0).
  assert (Hfail : forall Q,
            ret (set_trees P ts (t_goal P), true) = Some (Return Q) ->
            Q = (P', continued) ->
            (0 <= _fStepLength (t_start P'))%Q /\
            (0 <= _fStepLength (t_goal P'))%Q /\
            (b_connected P' = true ->
             continued = false /\
             exists dist na nb,
               _distmetricfn (t_goal P') = Some dist /\
               na ∈ _nodes (t_start P') /\ nb ∈ _nodes (t_goal P') /\
               (dist (q na) (q nb) <= (1 # 10) * _fStepLength (t_goal P'))%Q)).
  { intros Q HQ ->. unfold ret in HQ. simplify_eq.
    cbn [t_start t_goal set_trees b_connected].
    split; [done|]. split; [done|]. intros Hb. congruence. }
  assert (Hgo :
    (do c1 <- lift (GetConfig (t_goal P) goal_id);
     do (_, _, tg) <- Extend fuel (t_goal P) c1 false;
     do c2 <- lift (GetConfig ts i_start_index);
     do (etg, _, tg) <- Extend fuel tg c2 false;
     let P := set_trees (set_trees P ts (t_goal P)) ts tg in
     match etg with
     | ET_Connected => ret (set_connected P true, false)
     | _ => ret (P, false)
     end) = Some (Return (P', continued)) ->
    (0 <= _fStepLength (t_start P'))%Q /\ (0 <= _fStepLength (t_goal P'))%Q /\
    (b_connected P' = true ->
     continued = false /\
     exists dist na nb,
       _distmetricfn (t_goal P') = Some dist /\
       na ∈ _nodes (t_start P') /\ nb ∈ _nodes (t_goal P') /\
       (dist (q na) (q nb) <= (1 # 10) * _fStepLength (t_goal P'))%Q)).
  { clear Hrun Hfail. intros Hrun.
    run_inv Hrun. rename x into c1.
    run_inv Hrun. destruct x as [[e1 i1] tg0].
    pose proof (Extend_fields _ _ _ _ _ _ _ Hx3) as (_ & Hg0 & _).
    run_inv Hrun. rename x into c2.
    run_inv Hrun. destruct x as [[etg i2] tg].
    pose proof (Extend_fields _ _ _ _ _ _ _ Hx5) as (_ & Hg1 & Hemp).
    assert (Htg0 : (0 <= _fStepLength tg0)%Q) by (by rewrite Hg0).
    assert (Htg : (0 <= _fStepLength tg)%Q) by (by rewrite Hg1).
    assert (Hother : forall Q,
              Q = set_trees (set_trees P ts (t_goal P)) ts tg ->
              (P', continued) = (Q, false) ->
              (0 <= _fStepLength (t_start P'))%Q /\
              (0 <= _fStepLength (t_goal P'))%Q /\
              (b_connected P' = true ->
               continued = false /\
               exists dist na nb,
                 _distmetricfn (t_goal P') = Some dist /\
                 na ∈ _nodes (t_start P') /\ nb ∈ _nodes (t_goal P') /\
                 (dist (q na) (q nb) <= (1 # 10) * _fStepLength (t_goal P'))%Q)).
    { intros Q -> [= -> ->]. cbn [t_start t_goal set_trees b_connected].
      split; [done|]. split; [done|]. intros Hb. congruence. }
    unfold ret in Hrun.
    destruct etg; try (simplify_eq; by apply (Hother _ eq_refl)).
    simplify_eq.
    cbn [t_start t_goal set_trees set_connected b_connected].
    split; [done|]. split; [done|]. intros _. split; [done|].
    assert (Hne : _nodes tg0 <> []).
    { intros E. by specialize (Hemp E). }
    destruct (Extend_Connected_aux _ _ _ _ _ _ Htg0 Hne Hx5)
      as (dist & n & Hd & Hi & Hn & Hclose).
    pose proof (Extend_fields _ _ _ _ _ _ _ Hx5) as (Hd1 & _ & _).
    unfold GetConfig in Hx4. unfold lift in Hx4.
    destruct (i_start_index <? 0)%Z; [done|].
    destruct (_nodes ts !! Z.to_nat i_start_index) as [na|] eqn:Ena; [|done].
    simplify_eq.
    exists dist, na, n. split; [by rewrite Hd1|].
    split; [by eapply list_elem_of_lookup_2|].
    split; [by eapply list_elem_of_lookup_2|].
    rewrite Hg1. by apply Hclose. }
  destruct ets; [by apply (Hfail _ Hrun)|by apply Hgo..].
Qed.

Lemma buildTrees_close fuel samples start_id goal_id :
  forall (P P' : SBLPlanner),
  b_connected P = false ->
  (0 <= _fStepLength (t_start P))%Q -> (0 <= _fStepLength (t_goal P))%Q ->
  buildTrees fuel samples P start_id goal_id = Some (Return P') ->
  b_connected P' = true /\
  exists dist na nb,
    _distmetricfn (t_start P') = Some dist /\
    na ∈ _nodes (t_goal P') /\ nb ∈ _nodes (t_start P') /\
    (dist (q na) (q nb) <= (1 # 10) * _fStepLength (t_start P'))%Q.
Proof.
  induction samples as [|s samples IH]; intros P P' Hc Hs Hg Hrun.
  - simpl in Hrun. by rewrite Hc in Hrun.
  - cbn [buildTrees] in Hrun. rewrite Hc in Hrun.
    destruct s as [c|].
    + run_inv Hrun. destruct x as [P1 continued].
      apply buildTrees_round_close in Hx as (Hs1 & Hg1 & Hcon); [|done..].
      destruct (b_connected P1) eqn:Hc1.
      * destruct (Hcon eq_refl) as (-> & dist & na & nb & Hd & Ha & Hb & Hle).
        destruct samples; cbn [buildTrees swap_trees set_trees b_connected] in Hrun;
          rewrite Hc1 in Hrun; unfold ret in Hrun; simplify_eq;
          (split; [done|]); by exists dist, na, nb.
      * destruct continued.
        -- by apply IH in Hrun.
        -- by apply IH in Hrun.
    + by apply IH in Hrun.
Qed.

(** X28: what the connection of the two trees means. When [PlanPath]
    returns true on a planner that was not connected yet and whose trees
    have step lengths that are not negative, a node of one tree lies
    within a tenth of the step length of a node of the other: the last
    call of [Extend] returned [ET_Connected] on the tree that [t_start]
    names after the final swap, towards a node of the other tree. *)
Theorem PlanPath_connected_close (fuel : nat) (samples : list (option config))
    (P : SBLPlanner) (ptraj : list config) (P' : SBLPlanner)
    (ptraj' : list config) :
  b_connected P = false ->
  (0 <= _fStepLength (t_start P))%Q -> (0 <= _fStepLength (t_goal P))%Q ->
  PlanPath fuel samples P ptraj = Some (Return (true, P'), ptraj') ->
  b_connected P' = true /\
  exists dist na nb,
    _distmetricfn (t_start P') = Some dist /\
    na ∈ _nodes (t_goal P') /\ nb ∈ _nodes (t_start P') /\
    (dist (q na) (q nb) <= (1 # 10) * _fStepLength (t_start P'))%Q.
Proof.
  intros Hc Hs Hg Hrun. unfold PlanPath in Hrun.
  destruct (p_parameters P) as [params|]; [|by simplify_eq].
  destruct (AddNode (t_start P) 0 (vinitialconfig params)) as [s_id ts] eqn:E1.
  destruct (AddNode (t_goal P) 1000 (vgoalconfig params)) as [g_id tg] eqn:E2.
  destruct (buildTrees fuel samples (set_trees P ts tg) s_id g_id)
    as [[P1|e]|] eqn:Eb; [|done..].
  simplify_eq.
  apply buildTrees_close in Eb; [done|done|..].
  - cbn [t_start set_trees]. unfold AddNode in E1. by simplify_eq.
  - cbn [t_goal set_trees]. unfold AddNode in E2. by simplify_eq.
Qed.

End Connection.

Lemma PlanPath_connected_close_witness :
  exists P',
    @PlanPath FreeSpace 5 [Some [0%Q]]
       (wired_planner (example_params [0%Q] [(1 # 1000)%Q])) []
    = Some (Return (true, P'), []) /\
    b_connected P' = true /\
    exists dist na nb,
      _distmetricfn (t_start P') = Some dist /\
      na ∈ _nodes (t_goal P') /\ nb ∈ _nodes (t_start P') /\
      (dist (q na) (q nb) <= (1 # 10) * _fStepLength (t_start P'))%Q.
Proof.
  eexists. split; [reflexivity|].
  apply (@PlanPath_connected_close FreeSpace 5 [Some [0%Q]]
           (wired_planner (example_params [0%Q] [(1 # 1000)%Q])) [] _ []).
  - reflexivity.
  - by vm_compute.
  - by vm_compute.
  - reflexivity.
Defined.

(** ** Edges of the roadmap *)

Section RoadmapEdges.
Context {DM : DistMetric}.

Lemma built_graph_inv (G0 G : SpatialGraph) :
  graph_inv G0 -> built G0 G -> graph_inv G.
Proof.
  intros H0 Hb. induction Hb as [|G c _ IH|G u v _ IH Hu Hv].
  - done.
  - by apply graph_inv_addNode.
  - by apply graph_inv_addEdge.
Qed.

(** X29: [edgeExists] on the graphs a caller can build. It answers true
    for a handle and itself, whether stored or not; for two different
    handles it answers true exactly when an edge joins them, and the
    order of the two arguments does not matter. *)
Theorem edgeExists_built (G0 G : SpatialGraph) (u v : s_vertex) :
  graph_inv G0 -> built G0 G ->
  edgeExists G u u = true /\
  edgeExists G u v = edgeExists G v u /\
  (edgeExists G u v = true <-> u = v \/ has_edge (p_graph G) u v).
Proof.
  intros H0 Hb. pose proof (built_graph_inv G0 G H0 Hb) as HG.
  split; [apply edgeExists_true; by left|].
  split.
  - apply eq_true_iff_eq. rewrite !edgeExists_true.
    split; (intros [->|H]; [by left|right; by apply (inv_sym G HG)]).
  - rewrite edgeExists_true, has_edge_adjacent by done. done.
Qed.

Context {IC : ICollision}.

Lemma connect_fold_edges params it vs (l : list s_node) :
  forall G1 : SpatialGraph,
  graph_inv G1 -> stored G1 vs ->
  (forall itt, itt ∈ l -> itt ∈ node_list G1) ->
  let G' := foldl (fun G itt =>
                     if negb (ICollision_CheckCollision params it (nconfig itt))
                     then (addEdge G vs (vertex itt)).2
                     else G) G1 l in
  graph_inv G' /\
  forall x y,
    (y ∈ adjacent_vertices x (p_graph G1) ->
     y ∈ adjacent_vertices x (p_graph G')) /\
    (y ∈ adjacent_vertices x (p_graph G') ->
     y ∈ adjacent_vertices x (p_graph G1) \/
     exists itt, itt ∈ l /\
       ICollision_CheckCollision params it (nconfig itt) = false /\
       ((x = vs /\ y = vertex itt) \/ (x = vertex itt /\ y = vs))).
Proof.
  induction l as [|itt l IH]; intros G1 HG Hvs Hl; cbn [foldl].
  - split; [done|]. intros x y. split; [done|]. by left.
  - assert (Hitt : stored G1 (vertex itt)).
    { unfold stored. apply list_elem_of_fmap. exists itt. split; [done|].
      apply Hl. by left. }
    destruct (ICollision_CheckCollision params it (nconfig itt)) eqn:Ec;
      cbn [negb].
    + destruct (IH G1 HG Hvs) as [HG' Hadj].
      { intros i Hi. apply Hl. by right. }
      split; [done|]. intros x y. destruct (Hadj x y) as [H1 H2].
      split; [done|]. intros Hy.
      destruct (H2 Hy) as [?|(i & Hi & Hc & Hxy)]; [by left|right].
      exists i. split; [by right|done].
    + set (G2 := (addEdge G1 vs (vertex itt)).2).
      assert (HG2 : graph_inv G2) by (by apply graph_inv_addEdge).
      assert (Hnl : node_list G2 = node_list G1) by apply addEdge_node_list.
      assert (Hstep : forall x y,
                (y ∈ adjacent_vertices x (p_graph G1) ->
                 y ∈ adjacent_vertices x (p_graph G2)) /\
                (y ∈ adjacent_vertices x (p_graph G2) ->
                 y ∈ adjacent_vertices x (p_graph G1) \/
                 (x = vs /\ y = vertex itt) \/ (x = vertex itt /\ y = vs))).
      { intros x y. subst G2.
        destruct (addEdge_result G1 vs (vertex itt)) as [E|(Hne & _ & _ & E)];
          rewrite E; cbn [snd p_graph].
        - split; [done|]. by left.
        - pose proof (inv_stored G1 HG _ Hvs) as Hv1.
          pose proof (inv_stored G1 HG _ Hitt) as Hv2.
          unfold num_vertices in Hv1, Hv2.
          rewrite adjacent_add_edge by done. split; [by left|done]. }
      destruct (IH G2 HG2) as [HG' Hadj].
      { unfold stored. by rewrite Hnl. }
      { intros i Hi. rewrite Hnl. apply Hl. by right. }
      split; [done|]. intros x y.
      destruct (Hadj x y) as [H1 H2]. destruct (Hstep x y) as [S1 S2].
      split; [auto|]. intros Hy.
      destruct (H2 Hy) as [Hy2|(i & Hi & Hc & Hxy)].
      * destruct (S2 Hy2) as [?|Hxy]; [by left|right].
        exists itt. split; [by left|done].
      * right. exists i. split; [by right|done].
Qed.

(** X30: the edges [buildRoadMap] adds for a sample. On a graph whose
    edges join vertices of the graph, the body of its second loop keeps
    every edge, and every edge it adds joins the new node to a node that
    was stored before, for which the oracle accepted the segment from the
    sample to that node's configuration. *)
Theorem connect_sample_edges (params : PRMParams) (G : SpatialGraph)
    (it : config) (x y : s_vertex) :
  graph_inv G ->
  let G' := ClassicPRM.connect_sample params G it in
  let vs := num_vertices (p_graph G) in
  graph_inv G' /\
  (y ∈ adjacent_vertices x (p_graph G) ->
   y ∈ adjacent_vertices x (p_graph G')) /\
  (y ∈ adjacent_vertices x (p_graph G') ->
   y ∈ adjacent_vertices x (p_graph G) \/
   exists itt, itt ∈ node_list G /\
     ICollision_CheckCollision params it (nconfig itt) = false /\
     ((x = vs /\ y = vertex itt) \/ (x = vertex itt /\ y = vs))).
Proof.
  intros HG. cbv zeta. unfold ClassicPRM.connect_sample.
  pose proof (graph_inv_addNode G it HG) as HG1.
  pose proof (addNode_handle G it) as Hvs.
  pose proof (addNode_node_list G it) as Hnl.
  pose proof (addNode_p_graph G it) as Hpg.
  destruct (addNode G it) as [vs G1]. cbn [fst snd] in *. subst vs.
  set (vs := num_vertices (p_graph G)) in *.
  assert (Hadd : forall a b, b ∈ adjacent_vertices a (p_graph G1)
                             <-> b ∈ adjacent_vertices a (p_graph G)).
  { intros a b. rewrite Hpg. apply adjacent_add_vertex. }
  pose proof (findNN_members G1 vs) as Hmem.
  destruct (findNN G1 vs []) as [nns neighbors]. cbn [snd] in Hmem.
  destruct (nns =? 0)%Z.
  { split; [done|]. split; [by intros ?%Hadd|]. intros ?%Hadd. by left. }
  assert (Hst : stored G1 vs).
  { unfold stored. rewrite Hnl, fmap_app, elem_of_app. right.
    apply list_elem_of_singleton. done. }
  destruct (connect_fold_edges params it vs neighbors G1 HG1 Hst)
    as [HG' Hadj].
  { intros itt Hin. by destruct (Hmem itt Hin). }
  split; [done|]. destruct (Hadj x y) as [H1 H2].
  split; [intros ?%Hadd; auto|].
  intros Hy. destruct (H2 Hy) as [?%Hadd|(itt & Hin & Hc & Hxy)]; [by left|].
  right. exists itt. split; [|done].
  destruct (Hmem itt Hin) as [Hin1 Hne].
  rewrite Hnl, elem_of_app in Hin1. destruct Hin1 as [?|Hin1]; [done|].
  apply list_elem_of_singleton in Hin1. by subst itt.
Qed.

End RoadmapEdges.

Lemma edgeExists_built_witness :
  (@built L1Metric SpatialGraph_default chain /\
   has_edge (p_graph chain) 0 1 /\ ~ has_edge (p_graph chain) 0 2) /\
  (@edgeExists chain 0 0 = true /\
   @edgeExists chain 0 1 = @edgeExists chain 1 0 /\
   (@edgeExists chain 0 1 = true <->
    0 = 1 \/ has_edge (p_graph chain) 0 1)) /\
  (@edgeExists chain 2 2 = true /\
   @edgeExists chain 2 0 = @edgeExists chain 0 2 /\
   (@edgeExists chain 2 0 = true <->
    2 = 0 \/ has_edge (p_graph chain) 2 0)).
Proof.
  assert (Hs : forall v, v < 3 ->
            stored (addNodes SpatialGraph_default [[0%Q]; [4%Q]; [8%Q]]).2 v).
  { intros v Hv. unfold stored. rewrite list_elem_of_In. simpl. lia. }
  assert (Hb : @built L1Metric SpatialGraph_default chain).
  { unfold chain.
    apply (@built_addEdge L1Metric SpatialGraph_default
             (@addEdge L1Metric
                (addNodes SpatialGraph_default [[0%Q]; [4%Q]; [8%Q]]).2 0 1).2
             1 2).
    - apply (@built_addEdge L1Metric SpatialGraph_default
               (addNodes SpatialGraph_default [[0%Q]; [4%Q]; [8%Q]]).2 0 1).
      + apply (@built_addNode L1Metric SpatialGraph_default
                 (addNode (addNode SpatialGraph_default [0%Q]).2 [4%Q]).2
                 [8%Q]).
        apply (@built_addNode L1Metric SpatialGraph_default
                 (addNode SpatialGraph_default [0%Q]).2 [4%Q]).
        apply (@built_addNode L1Metric SpatialGraph_default
                 SpatialGraph_default [0%Q]).
        apply built_start.
      + apply Hs. lia.
      + apply Hs. lia.
    - unfold stored. rewrite addEdge_node_list. apply Hs. lia.
    - unfold stored. rewrite addEdge_node_list. apply Hs. lia. }
  split; [split; [exact Hb|split]|split].
  - left. unfold adjacent_vertices. rewrite list_elem_of_In. simpl. auto.
  - intros [H|H]; unfold adjacent_vertices in H;
      rewrite list_elem_of_In in H; simpl in H; intuition lia.
  - exact (@edgeExists_built L1Metric SpatialGraph_default chain 0 1
             graph_inv_default Hb).
  - exact (@edgeExists_built L1Metric SpatialGraph_default chain 2 0
             graph_inv_default Hb).
Defined.

Lemma connect_sample_edges_witness :
  graph_inv (@ClassicPRM.connect_sample L1Metric FreeRoad (example_prm 1)
               two_nodes [2%Q]) /\
  (1 ∈ adjacent_vertices 2 (p_graph two_nodes) ->
   1 ∈ adjacent_vertices 2
         (p_graph (@ClassicPRM.connect_sample L1Metric FreeRoad (example_prm 1)
                     two_nodes [2%Q]))) /\
  (1 ∈ adjacent_vertices 2
         (p_graph (@ClassicPRM.connect_sample L1Metric FreeRoad (example_prm 1)
                     two_nodes [2%Q])) ->
   1 ∈ adjacent_vertices 2 (p_graph two_nodes) \/
   exists itt, itt ∈ node_list two_nodes /\
     @ICollision_CheckCollision FreeRoad (example_prm 1) [2%Q] (nconfig itt)
     = false /\
     ((2 = num_vertices (p_graph two_nodes) /\ 1 = vertex itt) \/
      (2 = vertex itt /\ 1 = num_vertices (p_graph two_nodes)))).
Proof.
  apply (@connect_sample_edges L1Metric FreeRoad (example_prm 1) two_nodes
           [2%Q] 2 1).
  apply (graph_inv_addNode (addNode SpatialGraph_default [0%Q]).2 [1%Q]).
  apply graph_inv_addNode, graph_inv_default.
Defined.

(** ** The trees of the planners *)

Section Planned.
Context {CF : CollisionFunctions}.

Lemma Extend_new_parent fuel (T : SpatialTree) target bOneStep r i T' j n :
  Extend fuel T target bOneStep = Some (Return (r, i, T')) ->
  length (_nodes T) <= j -> _nodes T' !! j = Some n ->
  (0 <= parent n < Z.of_nat j)%Z.
Proof.
  intros Hrun Hj Hn.
  destruct (Extend_added_node _ _ _ _ _ _ _ _ _ Hrun Hj Hn)
    as (_ & _ & _ & _ & _ & _ & _ & pn & Hr & _).
  done.
Qed.

(** C8 (amended): in every tree produced from an empty tree by any
    sequence of the planner's calls to [AddNode] and of calls to [Extend],
    the first node was inserted by [AddNode]; every node inserted by
    [AddNode] carries the parent value the planner passed, 0 or 1000 and
    never -1, whether or not that value is the index of an earlier node;
    and every node added by [Extend] has as parent the index of a node
    inserted before it, strictly less than its own. So the parents lead
    from every node down to a node inserted by [AddNode], without a
    cycle. *)
Theorem planned_forest_shape (roots : list nat) (T : SpatialTree) :
  planned roots T -> forest_shape roots T.
Proof.
  induction 1 as [T E|roots T p c _ IH Hp|roots T fuel target bOneStep r i T' _ IH Hrun];
    unfold forest_shape in *.
  - split; [done|]. split.
    + intros r Hr. by apply elem_of_nil in Hr.
    + intros j n Hn. by rewrite E in Hn.
  - destruct IH as (H0 & Hlt & Hsh).
    rewrite AddNode_nodes. split; [|split].
    + intros _. rewrite elem_of_app.
      destruct (_nodes T) as [|n0 l] eqn:E.
      * right. simpl. apply list_elem_of_here.
      * left. by apply H0.
    + intros r. rewrite elem_of_app, length_app. simpl.
      intros [Hr|Hr].
      * apply Hlt in Hr. lia.
      * apply list_elem_of_singleton in Hr. lia.
    + intros j n Hn.
      destruct (decide (j < length (_nodes T))) as [Hj|Hj].
      * rewrite lookup_app_l in Hn by done.
        destruct (Hsh j n Hn) as [H1 H2]. split.
        -- rewrite elem_of_app. intros [Hr|Hr]; [by apply H1|].
           apply list_elem_of_singleton in Hr. lia.
        -- intros Hr. apply H2. intros Hin. apply Hr.
           rewrite elem_of_app. by left.
      * apply lookup_lt_Some in Hn as Hlen. rewrite length_app in Hlen.
        simpl in Hlen.
        assert (Ej : j = length (_nodes T)) by lia. subst j.
        rewrite list_lookup_middle in Hn by done. simplify_eq. split.
        -- intros _. done.
        -- intros Hr. exfalso. apply Hr. rewrite elem_of_app. right.
           apply list_elem_of_here.
  - destruct IH as (H0 & Hlt & Hsh).
    destruct (Extend_keeps _ _ _ _ _ _ _ Hrun) as (added & E1 & _).
    split; [|split].
    + intros Hne. apply H0. intros E.
      rewrite Extend_empty in Hrun by done. simplify_eq.
    + intros r' Hr. apply Hlt in Hr. rewrite E1, length_app. lia.
    + intros j n Hn.
      destruct (decide (j < length (_nodes T))) as [Hj|Hj].
      * rewrite E1, lookup_app_l in Hn by done. by apply Hsh.
      * split.
        -- intros Hr. apply Hlt in Hr. lia.
        -- intros _. eapply Extend_new_parent; [done| |done]. lia.
Qed.

End Planned.

Lemma planned_forest_shape_witness :
  exists T,
    @planned FreeSpace [0; 2] T /\
    parent <$> _nodes T = [0%Z; 0%Z; 1000%Z] /\
    forest_shape [0; 2] T.
Proof.
  assert (H1 : exists T1, @planned FreeSpace [0] T1 /\
                          parent <$> _nodes T1 = [0%Z; 0%Z]).
  { eexists. split.
    - eapply (@planned_Extend FreeSpace [0] example_tree 2 [1%Q] true).
      + apply (@planned_AddNode FreeSpace []
                 (wired_tree (example_params [0%Q] [(1 # 1000)%Q])) 0 [0%Q]).
        * by apply planned_empty.
        * by left.
      + reflexivity.
    - reflexivity. }
  destruct H1 as (T1 & H1 & Hpar).
  assert (Hlen : length (_nodes T1) = 2).
  { apply (f_equal length) in Hpar. by rewrite length_fmap in Hpar. }
  assert (Hp : @planned FreeSpace [0; 2] (AddNode T1 1000 [5%Q]).2).
  { change [0; 2] with ([0] ++ [2]). rewrite <- Hlen.
    apply planned_AddNode; [exact H1|by right]. }
  exists (AddNode T1 1000 [5%Q]).2. split; [exact Hp|]. split.
  - rewrite AddNode_nodes, fmap_app, Hpar. reflexivity.
  - exact (@planned_forest_shape FreeSpace [0; 2] _ Hp).
Defined.
